(** * CrypTick: the runtime engine of [app.py], embedded and verified

    The development follows the source file top-down:
    - [Py]        : the Python built-ins the engine relies on ([str.lower],
                    [str.startswith], [str.strip], [str.rstrip], slicing,
                    fixed-point [float] formatting);
    - [Fmt]       : [price_str], [format_changes], [make_item_html];
    - [Addr]      : [normalize_address], [key_for], [short_addr];
    - [Dict]      : insertion-ordered dictionaries;
    - [Config]    : the configuration store ([state]) with [ps_for] and
                    [tokens_for];
    - [Ticker]    : [MonitorTicker] (item list, marquee state);
    - [Engine]    : [Controller]: assignment, composition, the fetch round
                    and [refresh_loop].
    The vocabulary of the statements and the example data follow, then the
    properties, module by module.

    Python [float] is IEEE binary64: it is modelled by Rocq's primitive
    floats, and formatting goes through the exact value [m * 2^e] of the
    float, rounded half-to-even at the requested number of decimals, as
    CPython's correctly rounded [float.__format__] does.  Strings are
    [string] (characters are bytes; [str.lower] and [str.strip] are modelled
    on the ASCII range, which is where addresses and network ids live). *)

From Stdlib Require Import ZArith NArith String Ascii List Bool Lia DecimalString.
From Stdlib Require Import PrimFloat SpecFloat FloatOps.
From stdpp Require Import base option list strings gmap sorting.

Set Warnings "-inexact-float".
Local Open Scope Z_scope.

(* ===================================================================== *)
(** * Python built-ins *)
(* ===================================================================== *)
Module Py.

(** ** Strings *)

Definition chars (s : string) : list ascii := list_ascii_of_string s.
Definition str (l : list ascii) : string := string_of_list_ascii l.

Definition is_upper (c : ascii) : bool :=
  let n := N_of_ascii c in ((65 <=? n) && (n <=? 90))%N.

(** One character of [str.lower()]. *)
Definition lower_char (c : ascii) : ascii :=
  if is_upper c then ascii_of_N (N_of_ascii c + 32) else c.

(** [s.lower()] *)
Fixpoint lower (s : string) : string :=
  match s with
  | EmptyString => EmptyString
  | String c s' => String (lower_char c) (lower s')
  end.

(** [s.startswith(p)] *)
Fixpoint startswith (s p : string) {struct p} : bool :=
  match p, s with
  | EmptyString, _ => true
  | String a p', String b s' => Ascii.eqb a b && startswith s' p'
  | String _ _, EmptyString => false
  end.

(** [len(s)] *)
Definition len (s : string) : nat := String.length s.

(** Characters for which [str.isspace] holds, in the ASCII range:
    TAB, LF, VT, FF, CR, FS, GS, RS, US and SPACE. *)
Definition isspace (c : ascii) : bool :=
  let n := N_of_ascii c in
  (((9 <=? n) && (n <=? 13)) || ((28 <=? n) && (n <=? 32)))%N.

Fixpoint lstrip_by (f : ascii -> bool) (s : string) : string :=
  match s with
  | EmptyString => EmptyString
  | String c s' => if f c then lstrip_by f s' else s
  end.

Fixpoint rstrip_by (f : ascii -> bool) (s : string) : string :=
  match s with
  | EmptyString => EmptyString
  | String c s' =>
      match rstrip_by f s' with
      | EmptyString => if f c then EmptyString else String c EmptyString
      | r => String c r
      end
  end.

(** [s.strip()] *)
Definition strip (s : string) : string :=
  rstrip_by isspace (lstrip_by isspace s).

(** [s.rstrip(c)] for a one-character argument. *)
Definition rstrip (c : ascii) (s : string) : string :=
  rstrip_by (Ascii.eqb c) s.

(** [s[:n]] *)
Definition slice_to (n : nat) (s : string) : string :=
  str (take n (chars s)).

(** [s[-n:]] for [n > 0]. *)
Definition slice_last (n : nat) (s : string) : string :=
  str (drop (length (chars s) - n) (chars s)).

(** [sep.join(l)] *)
Fixpoint join (sep : string) (l : list string) : string :=
  match l with
  | [] => EmptyString
  | [x] => x
  | x :: rest => x +:+ sep +:+ join sep rest
  end.

(** [s] ends with the character [c]. *)
Fixpoint ends_with (c : ascii) (s : string) : bool :=
  match s with
  | EmptyString => false
  | String a EmptyString => Ascii.eqb a c
  | String _ s' => ends_with c s'
  end.

(** ** Fixed-point formatting of floats: [format(x, "[+][,].nf")] *)

(** [num / den] rounded to the nearest integer, ties to even
    ([den > 0], [num >= 0]). *)
Definition round_half_even (num den : Z) : Z :=
  let q := num / den in
  let r := num mod den in
  match 2 * r ?= den with
  | Lt => q
  | Gt => q + 1
  | Eq => if Z.even q then q else q + 1
  end.

(** The integer nearest to [m * 2^e * 10^n]. *)
Definition scaled (n : nat) (m : positive) (e : Z) : Z :=
  if 0 <=? e then Z.pos m * 10 ^ Z.of_nat n * 2 ^ e
  else round_half_even (Z.pos m * 10 ^ Z.of_nat n) (2 ^ (- e)).

(** Decimal digits of a natural number, most significant first. *)
Definition digits (z : Z) : list ascii :=
  chars (NilZero.string_of_uint (N.to_uint (Z.to_N z))).

Definition zero_char : ascii := "0"%char.

(** Integer and fractional digits of [N / 10^n]: the digits of [N],
    padded on the left so that at least one integer digit remains. *)
Definition padded (n : nat) (N : Z) : list ascii :=
  let d := digits N in
  repeat zero_char (S n - length d) ++ d.

Definition int_digits (n : nat) (N : Z) : list ascii :=
  take (length (padded n N) - n) (padded n N).

Definition frac_digits (n : nat) (N : Z) : list ascii :=
  drop (length (padded n N) - n) (padded n N).

(** Thousands separators: a comma before every digit whose distance to
    the end of the integer part is a positive multiple of three. *)
Fixpoint group3 (l : list ascii) : list ascii :=
  match l with
  | [] => []
  | c :: rest =>
      c :: (if (negb (Nat.eqb (length rest) 0) && Nat.eqb (length rest mod 3) 0)%bool
            then ","%char :: group3 rest else group3 rest)
  end.

Definition fixed (grouping : bool) (n : nat) (N : Z) : string :=
  let ip := int_digits n N in
  str ((if grouping then group3 ip else ip)
       ++ match n with O => [] | _ => "."%char :: frac_digits n N end).

Definition sign_str (plus neg : bool) : string :=
  if neg then "-" else if plus then "+" else "".

(** [format(x, spec)] for the specs [".nf"], [",.nf"] and ["+.nf"]:
    [plus] is the ["+"] flag, [grouping] the [","] flag, [n] the
    precision. *)
Definition format_f (plus grouping : bool) (n : nat) (x : float) : string :=
  match Prim2SF x with
  | S754_nan => sign_str plus false +:+ "nan"
  | S754_infinity s => sign_str plus s +:+ "inf"
  | S754_zero s => sign_str plus s +:+ fixed grouping n 0
  | S754_finite s m e => sign_str plus s +:+ fixed grouping n (scaled n m e)
  end.

End Py.

(* ===================================================================== *)
(** * Formatting helpers of the source *)
(* ===================================================================== *)
Module Fmt.
Import Py.

(** The placeholder for an absent value (an em dash). *)
Definition placeholder : string := "—".

(** [price_str(p)] *)
Definition price_str (p : option float) : string :=
  match p with
  | None => placeholder
  | Some p =>
      if (100 <=? p)%float then "$" +:+ format_f false true 2 p
      else if (1 <=? p)%float then "$" +:+ format_f false true 3 p
      else if (0.1 <=? p)%float then "$" +:+ format_f false false 4 p
      else "$" +:+ rstrip "."%char (rstrip "0"%char (format_f false false 8 p))
  end.

(** [pct_str(x)] *)
Definition pct_str (x : option float) : string :=
  match x with
  | None => placeholder
  | Some x => format_f true false 2 x +:+ "%"
  end.

(** [format_changes(m5, h24)] *)
Definition format_changes (m5 h24 : option float) : string :=
  let m5s := match m5 with None => placeholder | Some x => format_f true false 0 x +:+ "%" end in
  let h24s := match h24 with None => placeholder | Some x => format_f true false 0 x +:+ "%" end in
  m5s +:+ " last 5m / " +:+ h24s +:+ " last 24h".

Definition bold (b : bool) (s : string) : string :=
  if b then "<b>" +:+ s +:+ "</b>" else s.

(** [make_item_html(...)] *)
Definition make_item_html (name : string) (price m5 h24 : option float)
    (separator_text : string) (bold_name bold_price bold_changes : bool) : string :=
  let ns := bold bold_name name in
  let ps := bold bold_price (price_str price) in
  let cs := bold bold_changes (format_changes m5 h24) in
  let base := ns +:+ " • " +:+ ps +:+ " • " +:+ cs in
  let sep := match separator_text with
             | EmptyString => ""
             | _ => " " +:+ separator_text
             end in
  base +:+ sep.

End Fmt.

(* ===================================================================== *)
(** * Address normalization and keys *)
(* ===================================================================== *)
Module Addr.
Import Py.

(** [normalize_address(net_id, addr)] *)
Definition normalize_address (net_id addr : string) : string :=
  match addr with
  | EmptyString => addr
  | _ => if startswith addr "0x" then lower addr else addr
  end.

(** [key_for(net_id, addr)] *)
Definition key_for (net_id addr : string) : string :=
  net_id +:+ ":" +:+ normalize_address net_id addr.

(** The horizontal ellipsis used by [short_addr]. *)
Definition ellipsis : string := "…".

(** [short_addr(addr)] *)
Definition short_addr (addr : string) : string :=
  if (len addr <=? 10)%nat then addr
  else slice_to 6 addr +:+ ellipsis +:+ slice_last 4 addr.

End Addr.

(* ===================================================================== *)
(** * Insertion-ordered dictionaries *)
(* ===================================================================== *)
(** A Python [dict] whose iteration order matters is an association list in
    insertion order; [defaultdict(list)] with [d[k].append(v)] is
    [dict_append]. *)
Module Dict.
Section Dict.
Context {K : Type} `{EqDecision K} {V : Type}.

(** [d.get(k)] *)
Fixpoint dict_get (k : K) (d : list (K * V)) : option V :=
  match d with
  | [] => None
  | (k', v) :: d' => if decide (k = k') then Some v else dict_get k d'
  end.

(** [d[k].append(v)] on a [defaultdict(list)] *)
Fixpoint dict_append (k : K) (v : V) (d : list (K * list V)) : list (K * list V) :=
  match d with
  | [] => [(k, [v])]
  | (k', l) :: d' =>
      if decide (k = k') then (k', l ++ [v]) :: d'
      else (k', l) :: dict_append k v d'
  end.

End Dict.
End Dict.

(* ===================================================================== *)
(** * The configuration store *)
(* ===================================================================== *)
Module Config.
Import Py Addr Dict.

(** One entry of a profile's token list. *)
Record Token := mkToken {
  network_id : string;
  address : string;
  custom_name : string
}.

(** A stored [profile_settings] entry: every key may still be missing
    (a JSON [null] display target is [None] as well).  The styling keys
    (opacity, font) play no role below and are left out. *)
Record StoredSettings := mkStored {
  s_monitor_index : option Z;
  s_click_through : option bool;
  s_show_logo : option bool;
  s_refresh_sec : option Z;
  s_use_custom_names : option bool;
  s_separator_text : option string;
  s_bold_name : option bool;
  s_bold_price : option bool;
  s_bold_changes : option bool
}.

Definition no_settings : StoredSettings :=
  mkStored None None None None None None None None None.

(** The settings of a profile once every default is in place. *)
Record ProfileSettings := mkPS {
  monitor_index : option Z;
  click_through : bool;
  show_logo : bool;
  refresh_sec : Z;
  use_custom_names : bool;
  separator_text : string;
  bold_name : bool;
  bold_price : bool;
  bold_changes : bool
}.

(** [state]: the profiles dict keeps its insertion order. *)
Record State := mkState {
  profiles : list (string * list Token);
  active_profile : string;
  token_names : gmap string string;
  token_logos : gmap string string;
  profile_settings : gmap string StoredSettings;
  settings_refresh_sec : option Z
}.

(** [_ensure_profile_settings(s, name)]: the record the caller reads.  The
    source also stores the defaults back into [s]; reading again gives the
    same record, so the store is not threaded. *)
Definition _ensure_profile_settings (s : State) (name : string) : ProfileSettings :=
  let ps := default no_settings (profile_settings s !! name) in
  {| monitor_index := s_monitor_index ps;
     click_through := default true (s_click_through ps);
     show_logo := default true (s_show_logo ps);
     refresh_sec := default (default 30 (settings_refresh_sec s)) (s_refresh_sec ps);
     use_custom_names := default false (s_use_custom_names ps);
     separator_text := default "|" (s_separator_text ps);
     bold_name := default true (s_bold_name ps);
     bold_price := default false (s_bold_price ps);
     bold_changes := default false (s_bold_changes ps) |}.

(** [list(state["profiles"].keys())] *)
Definition profile_names (s : State) : list string := (profiles s).*1.

Definition normalize_token (t : Token) : Token :=
  {| network_id := network_id t;
     address := normalize_address (network_id t) (address t);
     custom_name := custom_name t |}.

(** [Controller.tokens_for(profile)]: the profile's tokens with their
    addresses normalized (the source normalizes them in place, which is
    idempotent). *)
Definition tokens_for (s : State) (profile : string) : list Token :=
  normalize_token <$> default [] (dict_get profile (profiles s)).

(** [Controller.ps_for(profile)] *)
Definition ps_for (s : State) (profile : string) : ProfileSettings :=
  _ensure_profile_settings s profile.

End Config.

(* ===================================================================== *)
(** * One bar per monitor *)
(* ===================================================================== *)
Module Ticker.

(** An entry of the list built by [_build_monitor_items] (style and pixmap
    left out). *)
Record Item := mkItem {
  key : string;
  text : string;
  show_logo : bool
}.

Record TokenItemWidget := mkWidget {
  w_key : string;
  w_text : string;
  w_logo_visible : bool
}.

(** [MonitorTicker]: [hbox] lists the widgets handed to the layout by
    [addWidget] since it was last emptied, in that order: the content of
    the layout, left to right, as long as no widget is handed over twice
    (items with distinct keys);
    [container_width] is [self.container.width()]; [click_through] is what
    [set_click_through] last asked the window system for. *)
Record MonitorTicker := mkTicker {
  monitor_index : Z;
  width : Z;
  container_width : Z;
  items : gmap string TokenItemWidget;
  order : list string;
  hbox : list TokenItemWidget;
  track_width : Z;
  track_x : Z;
  _offset : Z;
  _marquee : bool;
  click_through : option bool
}.

Definition new_widget (it : Item) : TokenItemWidget :=
  {| w_key := key it; w_text := text it; w_logo_visible := show_logo it |}.

(** [MonitorTicker(monitor_index)] on a screen [w] pixels wide. *)
Definition new_ticker (mon_idx w : Z) : MonitorTicker :=
  {| monitor_index := mon_idx; width := w; container_width := w;
     items := ∅; order := []; hbox := [];
     track_width := 0; track_x := 0;
     _offset := 0; _marquee := false; click_through := None |}.

Section Layout.
(** [self.hbox.sizeHint().width()]: the natural width Qt computes for the
    widgets in the layout. *)
Variable sizeHint_width : list TokenItemWidget -> Z.

(** [_layout_track] *)
Definition _layout_track (tk : MonitorTicker) : MonitorTicker :=
  let tw := Z.max (sizeHint_width (hbox tk)) 1 in
  {| monitor_index := monitor_index tk; width := width tk;
     container_width := container_width tk;
     items := items tk; order := order tk; hbox := hbox tk;
     track_width := tw;
     track_x := if negb (_marquee tk) then (container_width tk - tw) / 2
                else - (_offset tk mod tw);
     _offset := _offset tk; _marquee := _marquee tk;
     click_through := click_through tk |}.

(** [_update_marquee_state] *)
Definition _update_marquee_state (tk : MonitorTicker) : MonitorTicker :=
  let too_many := (10 <? length (order tk))%nat in
  let wider := container_width tk - 20 <? sizeHint_width (hbox tk) in
  let req := too_many || wider in
  {| monitor_index := monitor_index tk; width := width tk;
     container_width := container_width tk;
     items := items tk; order := order tk; hbox := hbox tk;
     track_width := track_width tk; track_x := track_x tk;
     _offset := if negb req && _marquee tk then 0 else _offset tk;
     _marquee := req;
     click_through := click_through tk |}.

(** [_relayout] *)
Definition _relayout (tk : MonitorTicker) : MonitorTicker :=
  _update_marquee_state (_layout_track
    {| monitor_index := monitor_index tk; width := width tk;
       container_width := width tk;
       items := items tk; order := order tk; hbox := hbox tk;
       track_width := track_width tk; track_x := track_x tk;
       _offset := _offset tk; _marquee := _marquee tk;
       click_through := click_through tk |}).

(** [_scroll_step] *)
Definition _scroll_step (tk : MonitorTicker) : MonitorTicker :=
  if negb (_marquee tk) then tk
  else _layout_track
    {| monitor_index := monitor_index tk; width := width tk;
       container_width := container_width tk;
       items := items tk; order := order tk; hbox := hbox tk;
       track_width := track_width tk; track_x := track_x tk;
       _offset := _offset tk + 1; _marquee := _marquee tk;
       click_through := click_through tk |}.

(** [set_click_through(enable)] *)
Definition set_click_through (enable : bool) (tk : MonitorTicker) : MonitorTicker :=
  {| monitor_index := monitor_index tk; width := width tk;
     container_width := container_width tk;
     items := items tk; order := order tk; hbox := hbox tk;
     track_width := track_width tk; track_x := track_x tk;
     _offset := _offset tk; _marquee := _marquee tk;
     click_through := Some enable |}.

(** The three collections an item-list update works on. *)
Definition with_items (tk : MonitorTicker) (its : gmap string TokenItemWidget)
    (ord : list string) (hb : list TokenItemWidget) : MonitorTicker :=
  {| monitor_index := monitor_index tk; width := width tk;
     container_width := container_width tk;
     items := its; order := ord; hbox := hb;
     track_width := track_width tk; track_x := track_x tk;
     _offset := _offset tk; _marquee := _marquee tk;
     click_through := click_through tk |}.

(** [set_initial_items(items)] *)
Definition set_initial_items (tk : MonitorTicker) (its : list Item) : MonitorTicker :=
  let tk0 := with_items tk ∅ [] [] in
  let tk1 :=
    foldl (fun t it =>
             let w := new_widget it in
             with_items t (<[key it := w]> (items t)) (order t ++ [key it]) (hbox t ++ [w]))
          tk0 its in
  _update_marquee_state (_layout_track tk1).

(** [order.remove(k)]: drops the first occurrence. *)
Fixpoint remove_first (k : string) (l : list string) : list string :=
  match l with
  | [] => []
  | x :: l' => if decide (x = k) then l' else x :: remove_first k l'
  end.

(** [update_items(items)] *)
Definition update_items (tk : MonitorTicker) (its : list Item) : MonitorTicker :=
  let incoming_keys := key <$> its in
  (* widgets for the keys not seen before *)
  let tk1 :=
    foldl (fun t it =>
             match items t !! key it with
             | Some _ => t
             | None =>
                 let w := new_widget it in
                 with_items t (<[key it := w]> (items t)) (order t ++ [key it]) (hbox t ++ [w])
             end)
          tk its in
  (* widgets whose key is gone *)
  let tk2 :=
    foldl (fun t k =>
             if bool_decide (k ∈ incoming_keys) then t
             else with_items t (delete k (items t)) (remove_first k (order t)) (hbox t))
          tk1 (order tk1) in
  let as_dict : gmap string Item := foldl (fun m it => <[key it := it]> m) ∅ its in
  (* the layout is emptied and refilled in the incoming order: the widget
     filed under each key is restyled and handed to the layout, once per
     occurrence of the key *)
  let tk3 :=
    foldl (fun t k =>
             match items t !! k, as_dict !! k with
             | Some w, Some it =>
                 let w' := {| w_key := w_key w; w_text := text it;
                              w_logo_visible := show_logo it |} in
                 with_items t (<[k := w']> (items t)) (order t) (hbox t ++ [w'])
             | _, _ => t
             end)
          (with_items tk2 (items tk2) incoming_keys []) incoming_keys in
  _update_marquee_state (_layout_track tk3).

End Layout.
End Ticker.

(* ===================================================================== *)
(** * The controller: assignment, composition, fetch round, refresh loop *)
(* ===================================================================== *)
Module Engine.
Import Py Fmt Addr Dict Config.

(** ** Price samples and the feed *)

(** A cached sample: [{"price": .., "h24": .., "m5": ..}]. *)
Record Sample := mkSample {
  price : option float;
  h24 : option float;
  m5 : option float
}.

Definition no_sample : Sample := mkSample None None None.

(** A numeric field of the feed, seen through
    [try: float(x) if x is not None else None / except: None]. *)
Inductive JNumber :=
| JMissing
| JNumeric (f : float)
| JUnparseable.

Definition to_float (j : JNumber) : option float :=
  match j with
  | JNumeric f => Some f
  | JMissing | JUnparseable => None
  end.

(** An entry of the payload's [included] side list, with the two changes
    of [attributes.price_change_percentage]. *)
Record Included := mkIncluded {
  inc_id : string;
  inc_type : string;
  inc_h24 : JNumber;
  inc_m5 : JNumber
}.

(** An entry of the payload's [data] list: [attributes.address] (the empty
    string when missing), [attributes.price_usd], [attributes.name],
    [attributes.image_url] and the ids under
    [relationships.top_pools.data]. *)
Record TokenRecord := mkTokenRecord {
  tr_address : string;
  tr_price_usd : JNumber;
  tr_name : option string;
  tr_image_url : option string;
  tr_top_pools : list string
}.

(** A decoded JSON body: an object with its [data] and [included] lists, a
    JSON value that is not an object ([payload.get] raises), or an object
    whose [data] cannot be iterated. *)
Inductive Payload :=
| PayloadObject (data : list TokenRecord) (included : list Included)
| PayloadNotObject
| PayloadDataNotIterable.

(** What [async with self.session.get(url, timeout=15)] and
    [await resp.json()] come to: the task is cancelled while it waits; the
    request or the decoding raises (connection error, timeout, invalid
    JSON); or a status and a body arrive. *)
Inductive Response :=
| Cancelled
| RequestFailed
| Status (code : Z) (body : Payload).

(** ** Exceptions *)

(** [CancelledError] derives from [BaseException] only; the others derive
    from [Exception]. *)
Inductive exn :=
| CancelledError
| AttributeError
| TypeError.

(** [isinstance(e, Exception)] *)
Definition is_Exception (e : exn) : bool :=
  match e with
  | CancelledError => false
  | AttributeError | TypeError => true
  end.

(** ** The environment of one pass of the loop *)

Record World := mkWorld {
  (** the answer to the batch request of a profile for a network and a
      comma-joined address list *)
  http_get : string -> string -> string -> Response;
  (** the task is cancelled during the idle or end-of-round sleep *)
  sleep_cancelled : bool;
  (** the task is cancelled during the backoff sleep *)
  backoff_cancelled : bool;
  (** Qt: natural width of a layout, width of a screen *)
  sizeHint_width : list Ticker.TokenItemWidget -> Z;
  screen_width : Z -> Z
}.

(** ** Observable effects *)

Inductive StatusMsg :=
| NoVisibleProfiles
| Refreshed (monitors : list Z) (R : Z).

(** [Sleep n] is a sleep of [n] seconds; [SleepRound R] is the sleep of
    [max(1, R - elapsed)] seconds that ends a round. *)
Inductive Event :=
| SetStatus (msg : StatusMsg)
| LogRefreshStart (monitors : list Z) (R : Z)
| LogGet (net : string) (n : nat)
| LogWarning (net : string)
| LogRefreshed (monitors : list Z) (R : Z)
| LogException (e : exn)
| Sleep (seconds : Z)
| SleepRound (R : Z)
| RefreshTable (pname : string)
| NewSession.

Inductive Session := SessionOpen | SessionClosed.

(** ** The controller *)

Record Controller := mkController {
  state : State;
  session : option Session;
  monitor_tickers : list (Z * Ticker.MonitorTicker);
  last_results : gmap string (gmap string Sample);
  trace : list Event
}.

(** [self.last_results[pname]] on the [defaultdict(dict)]. *)
Definition results_of (c : Controller) (pname : string) : gmap string Sample :=
  default ∅ (last_results c !! pname).

(** ** Computations that change the controller and may raise *)

Inductive Result (A : Type) :=
| Ok (a : A)
| Raise (e : exn).
Arguments Ok {A} a.
Arguments Raise {A} e.

Definition M (A : Type) : Type := Controller -> Controller * Result A.

Definition ret {A} (a : A) : M A := fun c => (c, Ok a).

Definition raise {A} (e : exn) : M A := fun c => (c, Raise e).

Definition bind {A B} (m : M A) (f : A -> M B) : M B :=
  fun c =>
    match m c with
    | (c1, Ok a) => f a c1
    | (c1, Raise e) => (c1, Raise e)
    end.

Notation "x <- m ;; k" := (bind m (fun x => k))
  (at level 100, m at next level, right associativity).
Notation "m ;; k" := (bind m (fun _ => k))
  (at level 100, right associativity).

Definition get_state : M State := fun c => (c, Ok (state c)).

Definition emit (ev : Event) : M unit :=
  fun c => (mkController (state c) (session c) (monitor_tickers c)
              (last_results c) (trace c ++ [ev]), Ok tt).

Definition set_state (s : State) : M unit :=
  fun c => (mkController s (session c) (monitor_tickers c)
              (last_results c) (trace c), Ok tt).

Definition set_results (pname : string) (r : gmap string Sample) : M unit :=
  fun c => (mkController (state c) (session c) (monitor_tickers c)
              (<[pname := r]> (last_results c)) (trace c), Ok tt).

Definition set_tickers (tks : list (Z * Ticker.MonitorTicker)) : M unit :=
  fun c => (mkController (state c) (session c) tks
              (last_results c) (trace c), Ok tt).

(** [for b in l: a = f(a, b)] *)
Fixpoint foldM {A B} (f : A -> B -> M A) (a : A) (l : list B) : M A :=
  match l with
  | [] => ret a
  | b :: l' => a' <- f a b ;; foldM f a' l'
  end.

(** [for b in l: body(b)] *)
Definition for_each {B} (l : list B) (body : B -> M unit) : M unit :=
  foldM (fun _ b => body b) tt l.

(** [await asyncio.sleep(..)]: the point where a cancellation is
    delivered. *)
Definition sleep (ev : Event) (cancelled : bool) : M unit :=
  emit ev ;; if cancelled then raise CancelledError else ret tt.

(** ** Assignment of profiles to monitors *)

Definition nonempty {A} (l : list A) : bool :=
  match l with [] => false | _ => true end.

(** The [mon_to_profiles] dictionary built at the top of [start_all] and of
    every round. *)
Definition mon_to_profiles (s : State) : list (Z * list string) :=
  foldl (fun d pname =>
           let ps := ps_for s pname in
           match monitor_index ps with
           | Some idx =>
               if nonempty (tokens_for s pname) then dict_append idx pname d else d
           | None => d
           end)
        [] (profile_names s).

(** The interval [R] of a round. *)
Definition round_interval (s : State) (mtp : list (Z * list string)) : Z :=
  let R :=
    foldl (fun R pslist =>
             foldl (fun R pname => Z.max R (refresh_sec (ps_for s pname))) R pslist)
          0 (mtp.*2) in
  Z.max R 10.

(** ** Composition of a monitor's items *)

Definition truthy (s : string) : bool :=
  match s with EmptyString => false | _ => true end.

(** The name shown for a token (the "choose name" step of
    [_build_monitor_items]). *)
Definition choose_name (s : State) (ps : ProfileSettings) (t : Token) : string :=
  let base_key := key_for (network_id t) (address t) in
  let name :=
    match token_names s !! base_key with
    | Some n => if truthy n then n else short_addr (address t)
    | None => short_addr (address t)
    end in
  if use_custom_names ps && truthy (strip (custom_name t))
  then strip (custom_name t)
  else name.

(** [_build_monitor_items(mon_idx, use_cache)] *)
Definition _build_monitor_items (c : Controller) (mon_idx : Z) (use_cache : bool)
    : list Ticker.Item :=
  let s := state c in
  flat_map
    (fun pname =>
       let ps := ps_for s pname in
       if bool_decide (monitor_index ps = Some mon_idx) then
         (fun t =>
            let base_key := key_for (network_id t) (address t) in
            let merged_key := pname +:+ "|" +:+ base_key in
            let vals :=
              if use_cache then default no_sample (results_of c pname !! base_key)
              else no_sample in
            let name := choose_name s ps t in
            let text :=
              make_item_html name (price vals) (m5 vals) (h24 vals)
                (separator_text ps) (bold_name ps) (bold_price ps) (bold_changes ps) in
            Ticker.mkItem merged_key text (show_logo ps))
         <$> tokens_for s pname
       else [])
    (profile_names s).

(** The profiles counted for a monitor's opacity, click-through and logos
    at the end of a round. *)
Definition profiles_on (s : State) (mon_idx : Z) : list string :=
  filter (fun p => monitor_index (ps_for s p) = Some mon_idx) (profile_names s).

(** [all(ps_for(p).get("click_through", True) for p in profiles)] *)
Definition all_click_through (s : State) (profiles : list string) : bool :=
  forallb (fun p => click_through (ps_for s p)) profiles.

(** ** [start_all]: one ticker per assigned monitor *)

Definition start_all (w : World) (c : Controller) : Controller :=
  let s := state c in
  let tickers :=
    (fun '(mon_idx, profiles) =>
       let tk := Ticker.new_ticker mon_idx (screen_width w mon_idx) in
       let tk := Ticker.set_click_through (all_click_through s profiles) tk in
       let items := _build_monitor_items c mon_idx true in
       (mon_idx, Ticker.set_initial_items (sizeHint_width w) tk items))
    <$> mon_to_profiles s in
  mkController s (session c) tickers (last_results c) (trace c).

(** ** One fetch round *)

(** [by_net]: addresses grouped by network, networks in first-seen order. *)
Definition by_net (tokens : list Token) : list (string * list string) :=
  foldl (fun d t =>
           dict_append (network_id t)
             (normalize_address (network_id t) (address t)) d)
        [] tokens.

(** [pools = {inc.get("id"): inc for inc in included if inc.get("type") == "pool"}] *)
Definition pools_of (included : list Included) : gmap string Included :=
  foldl (fun m inc =>
           if String.eqb (inc_type inc) "pool" then <[inc_id inc := inc]> m else m)
        ∅ included.

(** The cache key and the sample read from one token record. *)
Definition parse_token (net : string) (pools : gmap string Included)
    (tok : TokenRecord) : string * Sample :=
  let address := normalize_address net (tr_address tok) in
  let base_key := key_for net address in
  let price_f := to_float (tr_price_usd tok) in
  let changes :=
    match tr_top_pools tok with
    | [] => (None, None)
    | pool_id :: _ =>
        match pools !! pool_id with
        | Some pool => (to_float (inc_h24 pool), to_float (inc_m5 pool))
        | None => (None, None)
        end
    end in
  (base_key, mkSample price_f (fst changes) (snd changes)).

(** The body of [for tok in payload.get("data") or []]. *)
Definition absorb_token (net : string) (ps : ProfileSettings)
    (pools : gmap string Included)
    (all_results : gmap string Sample) (tok : TokenRecord) : M (gmap string Sample) :=
  let '(base_key, sample) := parse_token net pools tok in
  s <- get_state ;;
  let names :=
    match tr_name tok with
    | Some tname => if truthy tname then <[base_key := tname]> (token_names s)
                    else token_names s
    | None => token_names s
    end in
  let logos :=
    match tr_image_url tok with
    | Some timg => if show_logo ps && truthy timg
                   then <[base_key := timg]> (token_logos s)
                   else token_logos s
    | None => token_logos s
    end in
  set_state (mkState (profiles s) (active_profile s) names logos
               (profile_settings s) (settings_refresh_sec s)) ;;
  ret (<[base_key := sample]> all_results).

(** The comma-joined address list of a batch. *)
Definition csv_of (net : string) (addrs : list string) : string :=
  join "," (normalize_address net <$> addrs).

(** The body of [for net, addrs in by_net.items()]. *)
Definition fetch_batch (w : World) (pname : string) (ps : ProfileSettings)
    (all_results : gmap string Sample) (entry : string * list string)
    : M (gmap string Sample) :=
  let '(net, addrs) := entry in
  emit (LogGet net (length addrs)) ;;
  match http_get w pname net (csv_of net addrs) with
  | Cancelled => raise CancelledError
  | RequestFailed => emit (LogWarning net) ;; ret all_results
  | Status code body =>
      if code =? 200 then
        match body with
        | PayloadNotObject => raise AttributeError
        | PayloadDataNotIterable => raise TypeError
        | PayloadObject data included =>
            foldM (absorb_token net ps (pools_of included)) all_results data
        end
      else emit (LogWarning net) ;; ret all_results
  end.

(** The body of [for pname in self.state["profiles"].keys()] in a round. *)
Definition fetch_profile (w : World) (pname : string) : M unit :=
  s <- get_state ;;
  let ps := ps_for s pname in
  match monitor_index ps with
  | None => ret tt
  | Some _ =>
      let tokens := tokens_for s pname in
      if nonempty tokens then
        all_results <- foldM (fetch_batch w pname ps) ∅ (by_net tokens) ;;
        (fun c => set_results pname (all_results ∪ results_of c pname) c) ;;
        s' <- get_state ;;
        if bool_decide (pname = active_profile s') then emit (RefreshTable pname)
        else ret tt
      else ret tt
  end.

(** The body of [for mon_idx, tk in list(self.monitor_tickers.items())]
    (opacity and the fetch of missing logos are left out). *)
Definition refresh_ticker (w : World) (c : Controller)
    (entry : Z * Ticker.MonitorTicker) : Z * Ticker.MonitorTicker :=
  let '(mon_idx, tk) := entry in
  let items := _build_monitor_items c mon_idx true in
  let tk :=
    match Ticker.order tk with
    | [] => Ticker.set_initial_items (sizeHint_width w) tk items
    | _ => Ticker.update_items (sizeHint_width w) tk items
    end in
  let profiles := profiles_on (state c) mon_idx in
  let all_ct :=
    match profiles with
    | [] => true
    | _ => all_click_through (state c) profiles
    end in
  (mon_idx, Ticker.set_click_through all_ct tk).

Definition refresh_tickers (w : World) : M unit :=
  fun c => set_tickers (refresh_ticker w c <$> monitor_tickers c) c.

(** The body of the [try] in [refresh_loop]: one round. *)
Definition round (w : World) : M unit :=
  s <- get_state ;;
  let mtp := mon_to_profiles s in
  match mtp with
  | [] =>
      emit (SetStatus NoVisibleProfiles) ;;
      sleep (Sleep 1) (sleep_cancelled w)
  | _ =>
      let R := round_interval s mtp in
      emit (LogRefreshStart (mtp.*1) R) ;;
      for_each (profile_names s) (fetch_profile w) ;;
      refresh_tickers w ;;
      (fun c => emit (SetStatus (Refreshed (monitor_tickers c).*1 R)) c) ;;
      (fun c => emit (LogRefreshed (monitor_tickers c).*1 R) c) ;;
      sleep (SleepRound R) (sleep_cancelled w)
  end.

(** ** The loop *)

(** [_ensure_session] *)
Definition _ensure_session (c : Controller) : Controller :=
  match session c with
  | Some SessionOpen => c
  | _ => mkController (state c) (Some SessionOpen) (monitor_tickers c)
           (last_results c) (trace c ++ [NewSession])
  end.

Inductive LoopStatus :=
| Running
| Stopped (e : exn).

(** One pass of [while True]: the round, and the handler of
    [except Exception]. *)
Definition iteration (w : World) (c : Controller) : Controller * LoopStatus :=
  match round w c with
  | (c1, Ok _) => (c1, Running)
  | (c1, Raise e) =>
      if is_Exception e then
        match (emit (LogException e) ;; sleep (Sleep 2) (backoff_cancelled w)) c1 with
        | (c2, Ok _) => (_ensure_session c2, Running)
        | (c2, Raise e') => (c2, Stopped e')
        end
      else (c1, Stopped e)
  end.

(** The first [passes] passes of the [while True] loop, pass [i] in the
    environment [ws i]. *)
Fixpoint passes_from (n : nat) (ws : nat -> World) (i : nat) (c : Controller)
    : Controller * LoopStatus :=
  match n with
  | O => (c, Running)
  | S n' =>
      match iteration (ws i) c with
      | (c', Running) => passes_from n' ws (S i) c'
      | (c', Stopped e) => (c', Stopped e)
      end
  end.

(** [refresh_loop]: the session is ensured, then the loop runs. *)
Definition refresh_loop (n : nat) (ws : nat -> World) (c : Controller)
    : Controller * LoopStatus :=
  passes_from n ws 0%nat (_ensure_session c).

End Engine.

(* ===================================================================== *)
(** * The window style behind click-through *)
(* ===================================================================== *)
Module Win32.

Definition WS_EX_TRANSPARENT : Z := 0x20.
Definition WS_EX_LAYERED : Z := 0x80000.

(** [_set_click_through(hwnd, enable)]: the extended style it hands to
    [SetWindowLong], from the style [GetWindowLong] returned. *)
Definition _set_click_through (style : Z) (enable : bool) : Z :=
  if enable then Z.lor (Z.lor style WS_EX_TRANSPARENT) WS_EX_LAYERED
  else Z.land (Z.lor style WS_EX_LAYERED) (Z.lnot WS_EX_TRANSPARENT).

End Win32.

(* ===================================================================== *)
(** * Logo files and screens *)
(* ===================================================================== *)
Module Logo.

(** [s.replace(a, b)] for one-character [a] and [b]. *)
Fixpoint replace (a b : ascii) (s : string) : string :=
  match s with
  | EmptyString => EmptyString
  | String c s' => String (if Ascii.eqb c a then b else c) (replace a b s')
  end.

(** [_logo_file_for(key)]: the name of the file under [CACHE_DIR]. *)
Definition _logo_file_for (key : string) : string :=
  let safe := replace ":" "_" key in
  safe +:+ ".png".

End Logo.

Module Screen.

(** [_screen_for_index(idx)] when [n] screens are attached: the position
    in [screens] of the screen returned, if one is. *)
Definition _screen_for_index (n : nat) (idx : option Z) : option Z :=
  match n, idx with
  | O, _ => None
  | _, None => None
  | _, Some idx => Some (Z.max 0 (Z.min idx (Z.of_nat n - 1)))
  end.

End Screen.

(* ===================================================================== *)
(** * Operations on the configuration *)
(* ===================================================================== *)
Module Profiles.
Import Py Addr Dict Config.

(** [del d[k]] *)
Definition dict_del {V} (k : string) (d : list (string * V)) : list (string * V) :=
  List.filter (fun e => negb (String.eqb e.1 k)) d.

(** [k in d] *)
Definition dict_has {V} (k : string) (d : list (string * V)) : bool :=
  bool_decide (k ∈ d.*1).

(** [names.index(x)] *)
Fixpoint index_of (x : string) (l : list string) : option nat :=
  match l with
  | [] => None
  | y :: l' => if decide (y = x) then Some O else S <$> index_of x l'
  end.

Definition with_active (s : State) (name : string) : State :=
  mkState (profiles s) name (token_names s) (token_logos s)
    (profile_settings s) (settings_refresh_sec s).

(** [Controller.cycle_active_profile] *)
Definition cycle_active_profile (s : State) : State :=
  let names := profile_names s in
  match names with
  | [] => s
  | _ =>
      let i : Z :=
        match index_of (active_profile s) names with
        | Some i => Z.of_nat i
        | None => -1
        end in
      match names !! Z.to_nat ((i + 1) mod Z.of_nat (length names)) with
      | Some name => with_active s name
      | None => s
      end
  end.

(** The entry [_ensure_profile_settings] leaves in [profile_settings]:
    every missing key set to its default. *)
Definition with_defaults (refresh : option Z) (ps : StoredSettings) : StoredSettings :=
  {| s_monitor_index := s_monitor_index ps;
     s_click_through := Some (default true (s_click_through ps));
     s_show_logo := Some (default true (s_show_logo ps));
     s_refresh_sec := Some (default (default 30 refresh) (s_refresh_sec ps));
     s_use_custom_names := Some (default false (s_use_custom_names ps));
     s_separator_text := Some (default "|" (s_separator_text ps));
     s_bold_name := Some (default true (s_bold_name ps));
     s_bold_price := Some (default false (s_bold_price ps));
     s_bold_changes := Some (default false (s_bold_changes ps)) |}.

(** [_ensure_profile_settings(s, name)]: the state it leaves behind. *)
Definition store_defaults (s : State) (name : string) : State :=
  let ps := default no_settings (profile_settings s !! name) in
  mkState (profiles s) (active_profile s) (token_names s) (token_logos s)
    (<[name := with_defaults (settings_refresh_sec s) ps]> (profile_settings s))
    (settings_refresh_sec s).

(** [Dashboard.add_profile], the dialog answering [(name, ok)].  Selecting
    the new row fires [on_profile_changed], which makes the new profile the
    active one. *)
Definition add_profile (name : string) (ok : bool) (s : State) : State :=
  if negb ok || negb (Engine.truthy (strip name)) then s
  else
    let name := strip name in
    if dict_has name (profiles s) then s
    else
      let s1 := mkState (profiles s ++ [(name, [])]) (active_profile s)
                  (token_names s) (token_logos s) (profile_settings s)
                  (settings_refresh_sec s) in
      with_active (store_defaults s1 name) name.

(** [Dashboard.rename_profile(old_name, new_name)] *)
Definition rename_profile (old_name new_name : string) (s : State) : State :=
  if dict_has new_name (profiles s) then s
  else
    match dict_get old_name (profiles s) with
    | None => s
    | Some toks =>
        let profs := dict_del old_name (profiles s) ++ [(new_name, toks)] in
        let ps_all :=
          match profile_settings s !! old_name with
          | Some ps => <[new_name := ps]> (delete old_name (profile_settings s))
          | None => profile_settings s
          end in
        mkState profs
          (if String.eqb (active_profile s) old_name then new_name
           else active_profile s)
          (token_names s) (token_logos s) ps_all (settings_refresh_sec s)
    end.

(** [Dashboard._rename_profile_dialog(old_name)], the dialog answering
    [(new_name, ok)]. *)
Definition _rename_profile_dialog (old_name new_name : string) (ok : bool)
    (s : State) : State :=
  if negb ok then s
  else
    let new_name := strip new_name in
    if negb (Engine.truthy new_name) || String.eqb new_name old_name then s
    else rename_profile old_name new_name s.

(** [Dashboard.delete_profile(name)], the question answered by
    [confirmed]. *)
Definition delete_profile (name : string) (confirmed : bool) (s : State) : State :=
  if negb (dict_has name (profiles s)) then s
  else if negb confirmed then s
  else
    let profs := dict_del name (profiles s) in
    let ps_all := delete name (profile_settings s) in
    if String.eqb (active_profile s) name then
      match profs with
      | (first, _) :: _ =>
          mkState profs first (token_names s) (token_logos s) ps_all
            (settings_refresh_sec s)
      | [] =>
          with_active
            (store_defaults
               (mkState [("New Profile", [])] (active_profile s) (token_names s)
                  (token_logos s) ps_all (settings_refresh_sec s))
               "New Profile")
            "New Profile"
      end
    else
      mkState profs (active_profile s) (token_names s) (token_logos s) ps_all
        (settings_refresh_sec s).

(** ** The token list of a profile *)

(** [sorted(set(rows))] *)
Definition sorted_set (rows : list nat) : list nat :=
  merge_sort Nat.le (remove_dups rows).

(** [l[i], l[j] = l[j], l[i]]; [None] is an [IndexError]. *)
Definition swap {A} (i j : nat) (l : list A) : option (list A) :=
  match l !! j, l !! i with
  | Some y, Some x => Some (<[j := x]> (<[i := y]> l))
  | _, _ => None
  end.

(** The loop of [Dashboard.move_up] over the selected rows. *)
Fixpoint move_up_rows {A} (rows : list nat) (l : list A) : option (list A) :=
  match rows with
  | [] => Some l
  | r :: rows' =>
      match r with
      | O => move_up_rows rows' l
      | S r' =>
          match swap r' r l with
          | Some l' => move_up_rows rows' l'
          | None => None
          end
      end
  end.

(** [Dashboard.move_up] on the token list, [rows] selected. *)
Definition move_up {A} (rows : list nat) (l : list A) : option (list A) :=
  match sorted_set rows with
  | [] => Some l
  | rs => move_up_rows rs l
  end.

(** The loop of [Dashboard.move_down] over the selected rows, last row
    first. *)
Fixpoint move_down_rows {A} (rows : list nat) (l : list A) : option (list A) :=
  match rows with
  | [] => Some l
  | r :: rows' =>
      if (length l <=? S r)%nat then move_down_rows rows' l
      else
        match swap (S r) r l with
        | Some l' => move_down_rows rows' l'
        | None => None
        end
  end.

(** [Dashboard.move_down] on the token list, [rows] selected. *)
Definition move_down {A} (rows : list nat) (l : list A) : option (list A) :=
  match sorted_set rows with
  | [] => Some l
  | rs => move_down_rows (rev rs) l
  end.

(** [Dashboard.remove_selected] on the token list, [rows] selected. *)
Definition remove_selected {A} (rows : list nat) (l : list A) : list A :=
  foldl (fun l r => if (r <? length l)%nat then delete r l else l)
        l (rev (sorted_set rows)).

(** [Dashboard.add_token] on the profile [prof], the dialog answering with
    a network, an address and a custom name (both already stripped);
    [looked_up] is what the name lookup returned, if it ran and
    succeeded. *)
Definition add_token (prof network_id address custom_name : string)
    (looked_up : option string) (s : State) : State :=
  let addr := normalize_address network_id address in
  if negb (Engine.truthy addr) then s
  else
    let entry := mkToken network_id addr custom_name in
    let k := key_for network_id addr in
    let names :=
      match token_names s !! k, looked_up with
      | None, Some name => if Engine.truthy name then <[k := name]> (token_names s)
                           else token_names s
      | _, _ => token_names s
      end in
    match dict_get prof (profiles s) with
    | None => mkState (profiles s) (active_profile s) names (token_logos s)
                (profile_settings s) (settings_refresh_sec s)
    | Some toks =>
        mkState
          ((fun e => if String.eqb e.1 prof then (e.1, e.2 ++ [entry]) else e)
             <$> profiles s)
          (active_profile s) names (token_logos s)
          (profile_settings s) (settings_refresh_sec s)
    end.

End Profiles.

(* ===================================================================== *)
(** * Vocabulary of the statements *)
(* ===================================================================== *)

(** A float that denotes a number (neither a NaN nor an infinity). *)
Definition is_number (x : float) : bool :=
  match Prim2SF x with
  | S754_zero _ | S754_finite _ _ _ => true
  | _ => false
  end.

(** A string is in [n]-decimal form when it is an optional sign, at least
    one integer digit (possibly with separators), a point and exactly [n]
    further characters. *)
Definition decimal_form (n : nat) (s : string) : Prop :=
  exists sg ip fp,
    s = sg +:+ Py.str (ip ++ "."%char :: fp) /\ ip <> [] /\ length fp = n.

(** Two characters are the same letter up to case. *)
Definition same_letter (c d : ascii) : bool :=
  Ascii.eqb c d
  || (Py.is_upper c && (N_of_ascii d =? N_of_ascii c + 32)%N)
  || (Py.is_upper d && (N_of_ascii c =? N_of_ascii d + 32)%N).

(** Two strings differ only in letter case. *)
Fixpoint differ_only_in_case (a b : string) : bool :=
  match a, b with
  | EmptyString, EmptyString => true
  | String c a', String d b' => same_letter c d && differ_only_in_case a' b'
  | _, _ => false
  end.

(* ===================================================================== *)
(** * Example data *)
(* ===================================================================== *)

(** A layout engine for the examples: 8 pixels per character, 28 pixels of
    spacing after every widget. *)
Definition example_sizeHint (l : list Ticker.TokenItemWidget) : Z :=
  foldr (fun w acc => 8 * Z.of_nat (String.length (Ticker.w_text w)) + 28 + acc) 0 l.

Definition example_items (n : nat) : list Ticker.Item :=
  (fun i => Ticker.mkItem (String (ascii_of_nat (65 + i)) "") "BTC $1.000" false)
    <$> seq 0 n.


(** A profile is assigned to monitor [d]: its display target is [d] and it
    has at least one token. *)
Definition assigned_to (s : Config.State) (d : Z) (p : string) : bool :=
  bool_decide (Config.monitor_index (Config.ps_for s p) = Some d)
  && Engine.nonempty (Config.tokens_for s p).

(** A profile takes part in the rounds: it has a display target and at
    least one token. *)
Definition assigned (s : Config.State) (p : string) : bool :=
  match Config.monitor_index (Config.ps_for s p) with
  | Some _ => Engine.nonempty (Config.tokens_for s p)
  | None => false
  end.

(** The assigned profiles, in declaration order. *)
Definition assigned_profiles (s : Config.State) : list string :=
  List.filter (assigned s) (Config.profile_names s).

(** [max(10, max(intervals))] over a list of intervals. *)
Definition max_with_floor (intervals : list Z) : Z :=
  foldr Z.max 10 intervals.

(** The display name as the specification words it: the custom name when
    custom names are on and it is non-empty, else the cached name when
    present, else the shortened address. *)
Definition spec_display_name (s : Config.State) (ps : Config.ProfileSettings)
    (t : Config.Token) : string :=
  if Config.use_custom_names ps && Engine.truthy (Config.custom_name t)
  then Config.custom_name t
  else match Config.token_names s
               !! Addr.key_for (Config.network_id t) (Config.address t) with
       | Some n => n
       | None => Addr.short_addr (Config.address t)
       end.

(** A token with a blank custom name, in a profile that shows custom
    names. *)
Definition blank_named_token : Config.Token :=
  Config.mkToken "eth" "0xc02aaa39b223fe8d0a0e5c4f27ead9083c756cc2" "  ".

Definition custom_names_on : Config.ProfileSettings :=
  Config.mkPS (Some 0) true true 30 true "|" true false false.

Definition empty_state : Config.State :=
  Config.mkState [] "" ∅ ∅ ∅ None.

(** Two profiles target monitor 0; the second has no token and turns
    click-through off. *)
Definition two_profiles_state : Config.State :=
  Config.mkState
    [("High Risk Assets",
      [Config.mkToken "eth" "0xc02aaa39b223fe8d0a0e5c4f27ead9083c756cc2" ""]);
     ("Low Risk Assets", [])]
    "High Risk Assets" ∅ ∅
    (<["High Risk Assets" :=
         Config.mkStored (Some 0) (Some true) None None None None None None None]>
     (<["Low Risk Assets" :=
          Config.mkStored (Some 0) (Some false) None None None None None None None]> ∅))
    None.

(** Every request fails and nothing is cancelled. *)
Definition offline_world : Engine.World :=
  Engine.mkWorld (fun _ _ _ => Engine.RequestFailed) false false
    example_sizeHint (fun _ => 1920).

Definition fresh_controller (s : Config.State) : Engine.Controller :=
  Engine.mkController s None [] ∅ [].

Definition one_token : list Config.Token :=
  [Config.mkToken "eth" "0xc02aaa39b223fe8d0a0e5c4f27ead9083c756cc2" ""].

(** "Low Risk" refreshes every 30 s and "High Risk" every 15 s, both on
    monitor 0; a third profile asks for 60 s but has no display target. *)
Definition two_intervals_state : Config.State :=
  Config.mkState
    [("Low Risk", one_token); ("High Risk", one_token); ("Parked", one_token)]
    "Low Risk" ∅ ∅
    (<["Low Risk" :=
         Config.mkStored (Some 0) None None (Some 30) None None None None None]>
     (<["High Risk" :=
          Config.mkStored (Some 0) None None (Some 15) None None None None None]>
      (<["Parked" :=
           Config.mkStored None None None (Some 60) None None None None None]> ∅)))
    None.

Definition lone_interval_state : Config.State :=
  Config.mkState [("Solo", one_token)] "Solo" ∅ ∅
    (<["Solo" :=
         Config.mkStored (Some 1) None None (Some 5) None None None None None]> ∅)
    None.

(** ** The pure content of a fetch *)

(** The entries a successful payload writes, later records over earlier
    ones. *)
Definition absorb_all (net : string) (pools : gmap string Engine.Included)
    (acc : gmap string Engine.Sample) (data : list Engine.TokenRecord)
    : gmap string Engine.Sample :=
  foldl (fun acc tok =>
           <[(Engine.parse_token net pools tok).1
             := (Engine.parse_token net pools tok).2]> acc)
        acc data.


(** The exception a batch lets escape, if any. *)
Definition batch_raises (r : Engine.Response) : option Engine.exn :=
  match r with
  | Engine.Cancelled => Some Engine.CancelledError
  | Engine.RequestFailed => None
  | Engine.Status code body =>
      if code =? 200 then
        match body with
        | Engine.PayloadNotObject => Some Engine.AttributeError
        | Engine.PayloadDataNotIterable => Some Engine.TypeError
        | Engine.PayloadObject _ _ => None
        end
      else None
  end.

(** [all_results] after the batch of one network. *)
Definition batch_results (w : Engine.World) (pname : string)
    (acc : gmap string Engine.Sample) (entry : string * list string)
    : gmap string Engine.Sample :=
  match Engine.http_get w pname entry.1 (Engine.csv_of entry.1 entry.2) with
  | Engine.Status code (Engine.PayloadObject data included) =>
      if code =? 200 then absorb_all entry.1 (Engine.pools_of included) acc data
      else acc
  | _ => acc
  end.

(** The outcome of the batches of a profile, in order, up to the first
    exception that escapes. *)
Fixpoint batches_outcome (w : Engine.World) (pname : string)
    (acc : gmap string Engine.Sample) (entries : list (string * list string))
    : Engine.Result (gmap string Engine.Sample) :=
  match entries with
  | [] => Engine.Ok acc
  | entry :: rest =>
      match batch_raises (Engine.http_get w pname entry.1
                            (Engine.csv_of entry.1 entry.2)) with
      | Some e => Engine.Raise e
      | None => batches_outcome w pname (batch_results w pname acc entry) rest
      end
  end.

(** [all_results] of a profile whose batches all came back. *)
Definition collect (w : Engine.World) (s : Config.State) (pname : string)
    : gmap string Engine.Sample :=
  foldl (batch_results w pname) ∅ (Engine.by_net (Config.tokens_for s pname)).

(** The part of the configuration that a round only reads. *)
Definition same_config (s s' : Config.State) : Prop :=
  Config.profiles s' = Config.profiles s
  /\ Config.profile_settings s' = Config.profile_settings s
  /\ Config.settings_refresh_sec s' = Config.settings_refresh_sec s
  /\ Config.active_profile s' = Config.active_profile s.

(** The task is not cancelled in this environment. *)
Definition never_cancelled (w : Engine.World) : Prop :=
  Engine.sleep_cancelled w = false
  /\ Engine.backoff_cancelled w = false
  /\ forall pname net csv, Engine.http_get w pname net csv <> Engine.Cancelled.


(** A network id without a colon. *)
Definition colon_free (net : string) : bool :=
  forallb (fun c => negb (Ascii.eqb c ":")) (Py.chars net).

(** How a pass of the loop may change the result cache: the configuration
    is only read, and the cache of a profile is either as before or, for an
    assigned profile, the gathered entries laid over the previous ones. *)
Definition evolves (w : Engine.World) (c c' : Engine.Controller) : Prop :=
  same_config (Engine.state c) (Engine.state c')
  /\ forall g,
       Engine.results_of c' g = Engine.results_of c g
       \/ (assigned (Engine.state c) g = true
           /\ Engine.results_of c' g
              = collect w (Engine.state c) g ∪ Engine.results_of c g).

(** The feed returned the key [k] with the sample [v] to profile [pname]:
    a record of a status-200 payload of one of the profile's batches
    parses to [(k, v)]. *)
Definition returned (w : Engine.World) (pname : string)
    (entries : list (string * list string)) (k : string) (v : Engine.Sample) : Prop :=
  exists entry data included tok,
    entry ∈ entries
    /\ Engine.http_get w pname entry.1 (Engine.csv_of entry.1 entry.2)
       = Engine.Status 200 (Engine.PayloadObject data included)
    /\ tok ∈ data
    /\ Engine.parse_token entry.1 (Engine.pools_of included) tok = (k, v).

(** The payload of every request is valid JSON but not an object. *)
Definition garbled_world : Engine.World :=
  Engine.mkWorld (fun _ _ _ => Engine.Status 200 Engine.PayloadNotObject) false false
    example_sizeHint (fun _ => 1920).

(** Every request fails, and the task is cancelled while the round
    sleeps (as [pause_all] does). *)
Definition pausing_world : Engine.World :=
  Engine.mkWorld (fun _ _ _ => Engine.RequestFailed) true false
    example_sizeHint (fun _ => 1920).

(** A controller whose cache already holds a sample for the token of
    "High Risk Assets". *)
Definition cached_controller (s : Config.State) : Engine.Controller :=
  Engine.mkController s None []
    {["High Risk Assets" :=
        {["eth:0xc02aaa39b223fe8d0a0e5c4f27ead9083c756cc2" :=
            Engine.mkSample (Some 2500%float) None None]}]}
    [].




(** ** Vocabulary for computations *)

(** Every run of [m] relates the controller before to the controller
    after by [R], however it ends. *)
Definition keeps (R : Engine.Controller -> Engine.Controller -> Prop)
    {A} (m : Engine.M A) : Prop :=
  forall c c' r, m c = (c', r) -> R c c'.

(** Every exception [m] lets escape satisfies [P]. *)
Definition raises_only (P : Engine.exn -> Prop) {A} (m : Engine.M A) : Prop :=
  forall c c' e, m c = (c', Engine.Raise e) -> P e.

(** What the fetch of the batches leaves alone: the result cache and the
    configuration. *)
Definition kept (c c' : Engine.Controller) : Prop :=
  Engine.last_results c' = Engine.last_results c
  /\ same_config (Engine.state c) (Engine.state c').

(** Entries of the cache are never removed. *)
Definition cache_grows (c c' : Engine.Controller) : Prop :=
  forall g k,
    is_Some (Engine.results_of c g !! k) -> is_Some (Engine.results_of c' g !! k).

(** The tail of an active round: tickers, status, sleep. *)
Definition round_tail (w : Engine.World) (R : Z) : Engine.M unit :=
  Engine.bind (Engine.refresh_tickers w) (fun _ =>
  Engine.bind (fun c => Engine.emit
                 (Engine.SetStatus (Engine.Refreshed (Engine.monitor_tickers c).*1 R)) c)
    (fun _ =>
  Engine.bind (fun c => Engine.emit
                 (Engine.LogRefreshed (Engine.monitor_tickers c).*1 R) c)
    (fun _ =>
  Engine.sleep (Engine.SleepRound R) (Engine.sleep_cancelled w)))).

(** The profile names are distinct (they are the keys of a dictionary) and
    the active profile is one of them. *)
Definition profiles_wf (s : Config.State) : Prop :=
  NoDup (Config.profile_names s)
  /\ Config.active_profile s ∈ Config.profile_names s.

(** The elements of [l] whose position, counted from [i], is not among
    [rows]. *)
Fixpoint without_rows {A} (rows : list nat) (i : nat) (l : list A) : list A :=
  match l with
  | [] => []
  | x :: l' =>
      if bool_decide (i ∈ rows) then without_rows rows (S i) l'
      else x :: without_rows rows (S i) l'
  end.

(** A ticker is consistent when every widget is filed under its own key
    and every key with a widget is in [order]. *)
Definition ticker_wf (tk : Ticker.MonitorTicker) : Prop :=
  (forall k w, Ticker.items tk !! k = Some w -> Ticker.w_key w = k)
  /\ (forall k, is_Some (Ticker.items tk !! k) -> k ∈ Ticker.order tk).

(** A ticker at rest has no scroll offset. *)
Definition ticker_rest (tk : Ticker.MonitorTicker) : Prop :=
  Ticker._marquee tk = false -> Ticker._offset tk = 0.

(** The three loops of [update_items]. *)
Definition step_new (t : Ticker.MonitorTicker) (it : Ticker.Item) : Ticker.MonitorTicker :=
  match Ticker.items t !! Ticker.key it with
  | Some _ => t
  | None =>
      Ticker.with_items t (<[Ticker.key it := Ticker.new_widget it]> (Ticker.items t))
        (Ticker.order t ++ [Ticker.key it]) (Ticker.hbox t ++ [Ticker.new_widget it])
  end.

Definition step_gone (incoming_keys : list string) (t : Ticker.MonitorTicker)
    (k : string) : Ticker.MonitorTicker :=
  if bool_decide (k ∈ incoming_keys) then t
  else Ticker.with_items t (delete k (Ticker.items t))
         (Ticker.remove_first k (Ticker.order t)) (Ticker.hbox t).

Definition restyled (k : string) (it : Ticker.Item) : Ticker.TokenItemWidget :=
  Ticker.mkWidget k (Ticker.text it) (Ticker.show_logo it).

Definition step_fill (as_dict : gmap string Ticker.Item) (t : Ticker.MonitorTicker)
    (k : string) : Ticker.MonitorTicker :=
  match Ticker.items t !! k, as_dict !! k with
  | Some w, Some it =>
      Ticker.with_items t
        (<[k := Ticker.mkWidget (Ticker.w_key w) (Ticker.text it) (Ticker.show_logo it)]>
           (Ticker.items t))
        (Ticker.order t)
        (Ticker.hbox t
         ++ [Ticker.mkWidget (Ticker.w_key w) (Ticker.text it) (Ticker.show_logo it)])
  | _, _ => t
  end.

Definition as_dict_of (its : list Ticker.Item) : gmap string Ticker.Item :=
  foldl (fun m it => <[Ticker.key it := it]> m) ∅ its.

(** What can happen to a ticker once it exists. *)
Inductive ticker_op :=
| OpInitial (its : list Ticker.Item)
| OpUpdate (its : list Ticker.Item)
| OpScroll
| OpRelayout
| OpClick (enable : bool).

Definition apply_op (sh : list Ticker.TokenItemWidget -> Z) (tk : Ticker.MonitorTicker)
    (op : ticker_op) : Ticker.MonitorTicker :=
  match op with
  | OpInitial its => Ticker.set_initial_items sh tk its
  | OpUpdate its => Ticker.update_items sh tk its
  | OpScroll => Ticker._scroll_step sh tk
  | OpRelayout => Ticker._relayout sh tk
  | OpClick b => Ticker.set_click_through b tk
  end.

(** The layout shows the widgets of [order], in that order. *)
Definition ticker_shown (tk : Ticker.MonitorTicker) : Prop :=
  Ticker.w_key <$> Ticker.hbox tk = Ticker.order tk.

(** Names and logo addresses learned from the feed are never forgotten. *)
Definition names_kept (s s' : Config.State) : Prop :=
  (forall k, is_Some (Config.token_names s !! k) -> is_Some (Config.token_names s' !! k))
  /\ (forall k, is_Some (Config.token_logos s !! k) -> is_Some (Config.token_logos s' !! k)).

(** What the refresh loop leaves alone: the configuration, the cached
    names, the monitors that have a ticker, and what was logged so far. *)
Definition steady (c c' : Engine.Controller) : Prop :=
  same_config (Engine.state c) (Engine.state c')
  /\ names_kept (Engine.state c) (Engine.state c')
  /\ (Engine.monitor_tickers c').*1 = (Engine.monitor_tickers c).*1
  /\ Engine.trace c `prefix_of` Engine.trace c'.

(** ** Vocabulary for the records of the feed *)

(** The pool record a token record refers to: the last entry of the
    [included] side list of type "pool" whose id is [pid]. *)
Definition pool_of_id (included : list Engine.Included) (pid : string)
    : option Engine.Included :=
  last (filter (fun inc => Engine.inc_type inc = "pool" /\ Engine.inc_id inc = pid)
          included).

(** The sample a token record carries, as the feed's contract words it:
    its price, and the 24-hour and 5-minute changes of the first pool it
    refers to; a field that is missing or does not parse is absent. *)
Definition record_sample (included : list Engine.Included) (tok : Engine.TokenRecord)
    : Engine.Sample :=
  let pool :=
    match Engine.tr_top_pools tok with
    | [] => None
    | pid :: _ => pool_of_id included pid
    end in
  Engine.mkSample (Engine.to_float (Engine.tr_price_usd tok))
    (pool ≫= fun p => Engine.to_float (Engine.inc_h24 p))
    (pool ≫= fun p => Engine.to_float (Engine.inc_m5 p)).

(** The feed returned a record with key [k] and sample [v] to profile
    [pname]: a status-200 payload of one of the profile's batches holds a
    record whose address, on the network of the batch, has the key [k],
    and [v] is the sample the record carries. *)
Definition returned_record (w : Engine.World) (pname : string)
    (entries : list (string * list string)) (k : string) (v : Engine.Sample) : Prop :=
  exists entry data included tok,
    entry ∈ entries
    /\ Engine.http_get w pname entry.1 (Engine.csv_of entry.1 entry.2)
       = Engine.Status 200 (Engine.PayloadObject data included)
    /\ tok ∈ data
    /\ k = Addr.key_for entry.1 (Engine.tr_address tok)
    /\ v = record_sample included tok.

(** No batch of profile [p] lets an exception escape: none is cancelled,
    and every body that arrives with status 200 is an object with an
    iterable [data]. *)
Definition batches_complete (w : Engine.World) (s : Config.State) (p : string) : Prop :=
  forall entry, entry ∈ Engine.by_net (Config.tokens_for s p) ->
    batch_raises (Engine.http_get w p entry.1 (Engine.csv_of entry.1 entry.2)) = None.

(** The fetch of a round reaches profile [g] and runs through its batches:
    no batch of [g], or of an assigned profile declared before it, lets an
    exception escape. *)
Definition fetch_completes (w : Engine.World) (s : Config.State) (g : string) : Prop :=
  exists before after,
    Config.profile_names s = before ++ g :: after
    /\ forall p, p ∈ before ++ [g] -> assigned s p = true -> batches_complete w s p.



(** What the feed answers for "bsc" in the examples. *)
Definition bsc_answer : Engine.Response :=
  Engine.Status 200
    (Engine.PayloadObject
       [Engine.mkTokenRecord "0xbb4cdb9cbd36b01bd1cbaebf2de08d9173bc095c"
          (Engine.JNumeric 310.5%float) (Some "Wrapped BNB") None ["p1"]]
       [Engine.mkIncluded "p1" "pool"
          (Engine.JNumeric 1.25%float) (Engine.JNumeric (-0.5)%float)]).


(** A profile with two tokens on "bsc", shown on monitor 0. *)
Definition pair_state : Config.State :=
  Config.mkState
    [("Pair",
      [Config.mkToken "bsc" "0xbb4cdb9cbd36b01bd1cbaebf2de08d9173bc095c" "";
       Config.mkToken "bsc" "0x0e09fabb73bd3ade0a17ecc321fd13a19e81ce82" ""])]
    "Pair" ∅ ∅
    (<["Pair" :=
         Config.mkStored (Some 0) None None None None None None None None]> ∅)
    None.

(** The cache holds a sample for both tokens, and one for a token that is
    no longer in the profile. *)
Definition pair_controller : Engine.Controller :=
  Engine.mkController pair_state None []
    {["Pair" :=
        <["bsc:0xbb4cdb9cbd36b01bd1cbaebf2de08d9173bc095c" :=
            Engine.mkSample (Some 300%float) None None]>
        (<["bsc:0x0e09fabb73bd3ade0a17ecc321fd13a19e81ce82" :=
             Engine.mkSample (Some 2.5%float) None None]>
         {["bsc:0x55d398326f99059ff775485246999027b3197955" :=
             Engine.mkSample (Some 1%float) None None]})]}
    [].

(** Every request is answered with the record of the first token only. *)
Definition partial_world : Engine.World :=
  Engine.mkWorld (fun _ _ _ => bsc_answer) false false
    example_sizeHint (fun _ => 1920).

(** ** Vocabulary for sequences of ticker operations *)

(** Every widget in the layout is the widget filed under its key. *)
Definition ticker_filed (tk : Ticker.MonitorTicker) : Prop :=
  forall w, w ∈ Ticker.hbox tk -> Ticker.items tk !! Ticker.w_key w = Some w.

(** The item list an operation carries. *)
Definition op_items (op : ticker_op) : list Ticker.Item :=
  match op with
  | OpInitial its | OpUpdate its => its
  | _ => []
  end.

(** The items of the operation have distinct keys. *)
Definition distinct_keys (op : ticker_op) : Prop :=
  NoDup (Ticker.key <$> op_items op).
(* ===================================================================== *)
(** * Properties of the formatter *)
(* ===================================================================== *)
Section FormatFacts.
Import Py Fmt.

Lemma padded_length n N : (S n <= length (padded n N))%nat.
Proof.
  unfold padded. rewrite length_app, repeat_length. lia.
Qed.

(** The fractional part of a fixed-point rendering has exactly the
    requested number of digits, and an integer digit always remains. *)
Lemma frac_digits_length n N : length (frac_digits n N) = n.
Proof.
  unfold frac_digits. rewrite length_drop.
  pose proof (padded_length n N). lia.
Qed.

Lemma int_digits_nonempty n N : int_digits n N <> [].
Proof.
  unfold int_digits. pose proof (padded_length n N) as Hl.
  destruct (padded n N) as [|c l] eqn:E; simpl in Hl; [lia|].
  replace (length (c :: l) - n)%nat with (S (length l - n)) by (simpl; lia).
  discriminate.
Qed.

Lemma rstrip_by_ends f s :
  forall c, f c = true -> ends_with c (rstrip_by f s) = false.
Proof.
  intros c Hc. induction s as [|a s IH]; simpl; [reflexivity|].
  destruct (rstrip_by f s) as [|b r] eqn:E.
  - destruct (f a) eqn:Ha; simpl; [reflexivity|].
    destruct (Ascii.eqb a c) eqn:Hac; [|reflexivity].
    apply Ascii.eqb_eq in Hac. congruence.
  - exact IH.
Qed.

(** After [rstrip(c)] the string no longer ends with [c]. *)
Lemma rstrip_ends c s : ends_with c (rstrip c s) = false.
Proof. apply rstrip_by_ends, Ascii.eqb_refl. Qed.

Lemma fixed_decimal_form g n N sg :
  decimal_form (S n) (sg +:+ fixed g (S n) N).
Proof.
  exists sg, (if g then group3 (int_digits (S n) N) else int_digits (S n) N),
    (frac_digits (S n) N).
  split; [reflexivity|]. split; [|apply frac_digits_length].
  pose proof (int_digits_nonempty (S n) N) as Hne.
  destruct g; [|exact Hne].
  destruct (int_digits (S n) N); [congruence|discriminate].
Qed.

Lemma format_f_decimal_form plus g n x :
  is_number x = true -> decimal_form (S n) (format_f plus g (S n) x).
Proof.
  unfold is_number, format_f.
  destruct (Prim2SF x); intros H; try discriminate; apply fixed_decimal_form.
Qed.

End FormatFacts.

(** C5 — [price_str]: an absent price is the placeholder; a price [>= 100]
  is rendered with 2 decimals and thousands grouping, a price [>= 1] with
  3 decimals, a price [>= 0.1] with 4 decimals, any other price with 8
  decimals from which trailing zeros and then a trailing point are
  stripped (so the result never ends with a point); every rendering
  starts with the currency marker.  For prices that are numbers the
  first three forms have exactly 2, 3 and 4 digits after the point.
  The boundary cases 99.999, 100.00, 0.999, 1.0 and 0.00000001234 render
  as stated. *)
Theorem price_str_forms :
Fmt.price_str None = Fmt.placeholder
/\ (forall p, (100 <=? p)%float = true ->
      Fmt.price_str (Some p) = "$" +:+ Py.format_f false true 2 p
      /\ (is_number p = true -> decimal_form 2 (Py.format_f false true 2 p)))
/\ (forall p, (100 <=? p)%float = false -> (1 <=? p)%float = true ->
      Fmt.price_str (Some p) = "$" +:+ Py.format_f false true 3 p
      /\ (is_number p = true -> decimal_form 3 (Py.format_f false true 3 p)))
/\ (forall p, (1 <=? p)%float = false -> (100 <=? p)%float = false ->
      (0.1 <=? p)%float = true ->
      Fmt.price_str (Some p) = "$" +:+ Py.format_f false false 4 p
      /\ (is_number p = true -> decimal_form 4 (Py.format_f false false 4 p)))
/\ (forall p, (100 <=? p)%float = false -> (1 <=? p)%float = false ->
      (0.1 <=? p)%float = false ->
      Fmt.price_str (Some p)
      = "$" +:+ Py.rstrip "."%char (Py.rstrip "0"%char (Py.format_f false false 8 p))
      /\ Py.ends_with "."%char
           (Py.rstrip "."%char (Py.rstrip "0"%char (Py.format_f false false 8 p)))
         = false)
/\ Fmt.price_str (Some 99.999%float) = "$99.999"
/\ Fmt.price_str (Some 100.00%float) = "$100.00"
/\ Fmt.price_str (Some 0.999%float) = "$0.9990"
/\ Fmt.price_str (Some 1.0%float) = "$1.000"
/\ Fmt.price_str (Some 0.00000001234%float) = "$0.00000001".
Proof.
split; [reflexivity|].
split; [intros p H; split;
          [unfold Fmt.price_str; rewrite H; reflexivity
          |apply format_f_decimal_form]|].
split; [intros p H1 H2; split;
          [unfold Fmt.price_str; rewrite H1, H2; reflexivity
          |apply format_f_decimal_form]|].
split; [intros p H1 H2 H3; split;
          [unfold Fmt.price_str; rewrite H1, H2, H3; reflexivity
          |apply format_f_decimal_form]|].
split; [intros p H1 H2 H3; split;
          [unfold Fmt.price_str; rewrite H1, H2, H3; reflexivity
          |apply rstrip_ends]|].
repeat split; vm_compute; reflexivity.
Qed.

Lemma price_str_forms_witness :
Fmt.price_str (Some 1234567.891%float) = "$1,234,567.89"
/\ Fmt.price_str (Some 42.5%float) = "$42.500"
/\ Fmt.price_str (Some 0.125%float) = "$0.1250"
/\ Fmt.price_str (Some 0.0123%float) = "$0.0123".
Proof.
destruct price_str_forms as (_ & H2 & H3 & H4 & H8 & _).
split; [destruct (H2 1234567.891%float) as [-> _]; [|vm_compute]; reflexivity|].
split; [destruct (H3 42.5%float) as [-> _]; [| |vm_compute]; reflexivity|].
split; [destruct (H4 0.125%float) as [-> _]; [| | |vm_compute]; reflexivity|].
destruct (H8 0.0123%float) as [-> _]; [| | |vm_compute]; reflexivity.
Defined.

(* ===================================================================== *)
(** * Properties of address canonicalization *)
(* ===================================================================== *)
Section AddressFacts.
Import Py Addr.

Lemma lower_char_idem c : lower_char (lower_char c) = lower_char c.
Proof. destruct c as [[] [] [] [] [] [] [] []]; reflexivity. Qed.

Lemma lower_idem s : lower (lower s) = lower s.
Proof.
  induction s as [|c s IH]; simpl; [reflexivity|].
  now rewrite lower_char_idem, IH.
Qed.

(** [startswith] against the two-character hex prefix. *)
Lemma startswith_0x s :
  startswith s "0x" = true <-> exists r, s = String "0" (String "x" r).
Proof.
  split.
  - intros H. destruct s as [|a [|b r]]; cbn [startswith] in H; try discriminate H.
    + destruct (Ascii.eqb "0" a); discriminate H.
    + destruct (Ascii.eqb "0" a) eqn:Ha; [|discriminate H].
      destruct (Ascii.eqb "x" b) eqn:Hb; [|discriminate H].
      apply Ascii.eqb_eq in Ha, Hb. subst. now exists r.
  - intros [r ->]. reflexivity.
Qed.

Lemma startswith_lower s :
  startswith s "0x" = true -> startswith (lower s) "0x" = true.
Proof.
  intros [r ->]%startswith_0x. apply startswith_0x. now exists (lower r).
Qed.

Lemma upper_shift c d :
  is_upper c = true -> (N_of_ascii d =? N_of_ascii c + 32)%N = true ->
  lower_char c = d /\ lower_char d = d.
Proof.
  intros Hu Hd. apply N.eqb_eq in Hd.
  assert (d = ascii_of_N (N_of_ascii c + 32)) as ->
      by (rewrite <- Hd; symmetry; apply ascii_N_embedding).
  clear Hd. revert Hu.
  destruct c as [[] [] [] [] [] [] [] []]; intros Hu; try discriminate Hu;
    split; reflexivity.
Qed.

Lemma same_letter_lower c d : same_letter c d = true -> lower_char c = lower_char d.
Proof.
  unfold same_letter. intros H.
  apply orb_true_iff in H as [H|H]; [apply orb_true_iff in H as [H|H]|].
  - apply Ascii.eqb_eq in H. now subst.
  - apply andb_true_iff in H as [Hu Hd].
    destruct (upper_shift c d Hu Hd) as [-> ->]. reflexivity.
  - apply andb_true_iff in H as [Hu Hd].
    destruct (upper_shift d c Hu Hd) as [-> ->]. reflexivity.
Qed.

Lemma differ_only_in_case_lower a b :
  differ_only_in_case a b = true -> lower a = lower b.
Proof.
  revert b. induction a as [|c a IH]; intros [|d b]; simpl; try discriminate;
    [reflexivity|].
  intros [Hc Hr]%andb_true_iff.
  now rewrite (same_letter_lower _ _ Hc), (IH _ Hr).
Qed.

Lemma normalize_address_idem net a :
  normalize_address net (normalize_address net a) = normalize_address net a.
Proof.
  unfold normalize_address. destruct a as [|c a]; [reflexivity|].
  destruct (startswith (String c a) "0x") eqn:E.
  - pose proof (startswith_lower _ E) as E'. simpl in E' |- *.
    rewrite E'. now rewrite lower_char_idem, lower_idem.
  - now rewrite E.
Qed.

End AddressFacts.

(** C4 — [normalize_address] is idempotent for every network id and every
    address; two addresses that both carry the hex prefix and differ only in
    letter case have the same canonical form; an address without the hex
    prefix is returned unchanged.  Hence [key_for] is stable under
    canonicalization. *)
Theorem normalize_address_canonical :
  (forall net a,
      Addr.normalize_address net (Addr.normalize_address net a)
      = Addr.normalize_address net a)
  /\ (forall net a b,
         Py.startswith a "0x" = true -> Py.startswith b "0x" = true ->
         differ_only_in_case a b = true ->
         Addr.normalize_address net a = Addr.normalize_address net b)
  /\ (forall net a,
         Py.startswith a "0x" = false -> Addr.normalize_address net a = a)
  /\ (forall net a,
         Addr.key_for net (Addr.normalize_address net a) = Addr.key_for net a).
Proof.
  split; [apply normalize_address_idem|].
  split.
  { intros net a b Ha Hb Hab. unfold Addr.normalize_address.
    apply startswith_0x in Ha as Ha'. destruct Ha' as [ra ->].
    apply startswith_0x in Hb as Hb'. destruct Hb' as [rb ->].
    rewrite Ha, Hb. now apply differ_only_in_case_lower. }
  split.
  { intros net a Ha. unfold Addr.normalize_address. rewrite Ha. now destruct a. }
  intros net a. unfold Addr.key_for. now rewrite normalize_address_idem.
Qed.

Lemma normalize_address_canonical_witness :
  Addr.normalize_address "eth" "0xAbCd" = Addr.normalize_address "eth" "0xaBcD"
  /\ Addr.normalize_address "solana" "So1ABC" = "So1ABC".
Proof.
  destruct normalize_address_canonical as (_ & Hcase & Hid & _).
  split; [apply Hcase; reflexivity | apply Hid; reflexivity].
Defined.

(* ===================================================================== *)
(** * Properties of the ticker *)
(* ===================================================================== *)
Section TickerFacts.
Import Ticker.
Variable sizeHint_width : list TokenItemWidget -> Z.

(** A loop whose body keeps a property keeps it. *)
Lemma foldl_preserves {A B} (P : A -> Prop) (f : A -> B -> A) (l : list B) (a : A) :
  P a -> (forall a b, P a -> P (f a b)) -> P (foldl f a l).
Proof.
  intros Ha Hf. revert a Ha. induction l as [|b l IH]; intros a Ha; simpl; auto.
Qed.

Lemma marquee_state_spec (tk : MonitorTicker) :
  let tk' := _update_marquee_state sizeHint_width (_layout_track sizeHint_width tk) in
  order tk' = order tk /\ hbox tk' = hbox tk /\ container_width tk' = container_width tk
  /\ _marquee tk' = ((10 <? length (order tk))%nat
                     || (container_width tk - 20 <? sizeHint_width (hbox tk))).
Proof. simpl. auto. Qed.

Lemma set_initial_items_order (tk : MonitorTicker) (its : list Item) :
  order (set_initial_items sizeHint_width tk its) = key <$> its
  /\ container_width (set_initial_items sizeHint_width tk its) = container_width tk.
Proof.
  unfold set_initial_items.
  destruct (marquee_state_spec
    (foldl (fun t it =>
              with_items t (<[key it := new_widget it]> (items t))
                (order t ++ [key it]) (hbox t ++ [new_widget it]))
           (with_items tk ∅ [] []) its)) as (-> & _ & -> & _).
  assert (forall t : MonitorTicker,
    let t' := foldl (fun t it =>
              with_items t (<[key it := new_widget it]> (items t))
                (order t ++ [key it]) (hbox t ++ [new_widget it])) t its in
    order t' = order t ++ (key <$> its) /\ container_width t' = container_width t) as H.
  { induction its as [|it its IH]; intros t; simpl.
    - now rewrite app_nil_r.
    - destruct (IH (with_items t (<[key it := new_widget it]> (items t))
                      (order t ++ [key it]) (hbox t ++ [new_widget it]))) as [-> ->].
      simpl. now rewrite <- app_assoc. }
  apply (H (with_items tk ∅ [] [])).
Qed.

Lemma update_items_order (tk : MonitorTicker) (its : list Item) :
  order (update_items sizeHint_width tk its) = key <$> its
  /\ container_width (update_items sizeHint_width tk its) = container_width tk.
Proof.
  unfold update_items.
  match goal with
  | |- context [_update_marquee_state _ (_layout_track _ ?t)] =>
      destruct (marquee_state_spec t) as (-> & _ & -> & _)
  end.
  split.
  - apply (foldl_preserves (fun t => order t = key <$> its)); [reflexivity|].
    intros t k Ht. cbv beta. repeat case_match; simpl; auto.
  - apply (foldl_preserves (fun t => container_width t = container_width tk)).
    + simpl.
      apply (foldl_preserves (fun t => container_width t = container_width tk)).
      * apply (foldl_preserves (fun t => container_width t = container_width tk));
          [reflexivity|].
        intros t it Ht. cbv beta. repeat case_match; simpl; auto.
      * intros t k Ht. case_bool_decide; simpl; auto.
    + intros t k Ht. cbv beta. repeat case_match; simpl; auto.
Qed.

(** After an item-list update the mode is recomputed from the new list. *)
Lemma marquee_after (upd : MonitorTicker -> list Item -> MonitorTicker)
    (tk : MonitorTicker) (its : list Item) :
  (exists t, upd tk its = _update_marquee_state sizeHint_width
                            (_layout_track sizeHint_width t)) ->
  order (upd tk its) = key <$> its ->
  container_width (upd tk its) = container_width tk ->
  _marquee (upd tk its) = true
  <-> (10 < length its)%nat
      \/ sizeHint_width (hbox (upd tk its)) > container_width tk - 20.
Proof.
  intros [t Ht] Ho Hc.
  destruct (marquee_state_spec t) as (Ho' & Hh' & Hc' & Hm).
  rewrite <- Ht in Ho', Hh', Hc', Hm. rewrite Hm, Hh'.
  rewrite <- Ho', Ho, <- Hc', Hc, length_fmap.
  rewrite orb_true_iff, Nat.ltb_lt, Z.ltb_lt. lia.
Qed.

End TickerFacts.

(** C7 — after [set_initial_items] and after [update_items] the ticker is
    in scrolling mode exactly when the new list has more than 10 items or
    the natural width of the laid-out content exceeds the container width
    minus the margin of 20; so 10 items that fit are static and 11 items
    scroll whatever the widths. *)
Theorem marquee_trigger :
  forall (sizeHint_width : list Ticker.TokenItemWidget -> Z)
         (tk : Ticker.MonitorTicker) (its : list Ticker.Item),
    let t1 := Ticker.set_initial_items sizeHint_width tk its in
    let t2 := Ticker.update_items sizeHint_width tk its in
    (length (Ticker.order t1) = length its /\ length (Ticker.order t2) = length its)
    /\ (Ticker._marquee t1 = true
        <-> (10 < length its)%nat
            \/ sizeHint_width (Ticker.hbox t1) > Ticker.container_width tk - 20)
    /\ (Ticker._marquee t2 = true
        <-> (10 < length its)%nat
            \/ sizeHint_width (Ticker.hbox t2) > Ticker.container_width tk - 20)
    /\ (length its = 10%nat ->
        sizeHint_width (Ticker.hbox t1) <= Ticker.container_width tk - 20 ->
        Ticker._marquee t1 = false)
    /\ (length its = 10%nat ->
        sizeHint_width (Ticker.hbox t2) <= Ticker.container_width tk - 20 ->
        Ticker._marquee t2 = false)
    /\ (length its = 11%nat ->
        Ticker._marquee t1 = true /\ Ticker._marquee t2 = true).
Proof.
  intros sh tk its t1 t2.
  destruct (set_initial_items_order sh tk its) as [Ho1 Hc1].
  destruct (update_items_order sh tk its) as [Ho2 Hc2].
  assert (Ticker._marquee t1 = true
          <-> (10 < length its)%nat
              \/ sh (Ticker.hbox t1) > Ticker.container_width tk - 20) as H1.
  { apply (marquee_after sh (Ticker.set_initial_items sh)); auto.
    eexists. reflexivity. }
  assert (Ticker._marquee t2 = true
          <-> (10 < length its)%nat
              \/ sh (Ticker.hbox t2) > Ticker.container_width tk - 20) as H2.
  { apply (marquee_after sh (Ticker.update_items sh)); auto.
    eexists. reflexivity. }
  split; [subst t1 t2; rewrite Ho1, Ho2, length_fmap; auto|].
  split; [exact H1|]. split; [exact H2|].
  split; [|split].
  - intros Hl Hw. apply not_true_is_false. rewrite H1. lia.
  - intros Hl Hw. apply not_true_is_false. rewrite H2. lia.
  - intros Hl. split; [apply H1 | apply H2]; lia.
Qed.

Lemma marquee_trigger_witness :
  Ticker._marquee (Ticker.update_items example_sizeHint
                     (Ticker.new_ticker 0 1920) (example_items 10)) = false
  /\ Ticker._marquee (Ticker.set_initial_items example_sizeHint
                        (Ticker.new_ticker 0 1920) (example_items 11)) = true.
Proof.
  pose proof (marquee_trigger example_sizeHint (Ticker.new_ticker 0 1920)
                (example_items 10)) as (_ & _ & _ & _ & H10 & _).
  pose proof (marquee_trigger example_sizeHint (Ticker.new_ticker 0 1920)
                (example_items 11)) as (_ & _ & _ & _ & _ & H11).
  split.
  - apply H10; [reflexivity | vm_compute; discriminate].
  - apply H11. reflexivity.
Defined.

(* ===================================================================== *)
(** * Properties of the assignment and of the round interval *)
(* ===================================================================== *)
Section DictFacts.
Import Dict.
Context {K : Type} `{EqDecision K} {V : Type}.

Lemma dict_get_append (k k' : K) (v : V) (d : list (K * list V)) :
  dict_get k (dict_append k' v d)
  = if decide (k = k') then Some (default [] (dict_get k d) ++ [v])
    else dict_get k d.
Proof.
  induction d as [|[k0 l] d IH]; simpl.
  - repeat case_decide; simpl; congruence.
  - destruct (decide (k' = k0)) as [->|Hne]; simpl.
    + repeat case_decide; simpl; congruence.
    + rewrite IH. repeat case_decide; simpl; congruence.
Qed.

Lemma dict_append_values (k : K) (v : V) (d : list (K * list V)) (x : V) :
  x ∈ concat (dict_append k v d).*2 <-> x ∈ concat d.*2 \/ x = v.
Proof.
  induction d as [|[k0 l] d IH]; simpl.
  - rewrite ?app_nil_r, list_elem_of_singleton, elem_of_nil. tauto.
  - destruct (decide (k = k0)) as [->|Hne]; simpl.
    + rewrite !elem_of_app, list_elem_of_singleton. tauto.
    + rewrite !elem_of_app, IH. tauto.
Qed.

Lemma dict_append_keys_nonempty (k : K) (v : V) (d : list (K * list V)) :
  dict_append k v d <> [].
Proof. destruct d as [|[k0 l] d]; simpl; [|case_decide]; discriminate. Qed.

Lemma dict_append_keys (k : K) (v : V) (d : list (K * list V)) :
  (dict_append k v d).*1 = if decide (k ∈ d.*1) then d.*1 else d.*1 ++ [k].
Proof.
  induction d as [|[k0 l] d IH].
  - cbn [dict_append fmap list_fmap fst app].
    destruct (decide (k ∈ [])) as [H|H]; [now apply elem_of_nil in H | reflexivity].
  - cbn [dict_append].
    destruct (decide (k = k0)) as [->|Hne]; cbn [fmap list_fmap fst].
    + rewrite decide_True by apply list_elem_of_here. reflexivity.
    + change (list_fmap _ _ fst (dict_append k v d)) with (dict_append k v d).*1.
      change (list_fmap _ _ fst d) with (d.*1).
      rewrite IH. destruct (decide (k ∈ d.*1)) as [Hin|Hnin].
      * rewrite decide_True by now apply list_elem_of_further. reflexivity.
      * rewrite decide_False; [reflexivity|].
        intros [?|?]%elem_of_cons; congruence.
Qed.

Lemma dict_append_NoDup (k : K) (v : V) (d : list (K * list V)) :
  NoDup d.*1 -> NoDup (dict_append k v d).*1.
Proof.
  intros Hd. rewrite dict_append_keys. case_decide as Hin; [exact Hd|].
  apply NoDup_app. split; [exact Hd|]. split; [|apply NoDup_singleton].
  intros x Hx ->%list_elem_of_singleton. contradiction.
Qed.

Lemma unique_keys_value {B} (l : list (K * B)) x y1 y2 :
  NoDup l.*1 -> (x, y1) ∈ l -> (x, y2) ∈ l -> y1 = y2.
Proof.
  induction l as [|[a b] l IH]; intros Hnd H1 H2.
  - now apply elem_of_nil in H1.
  - cbn [fmap list_fmap fst] in Hnd. apply NoDup_cons in Hnd as [Hnin Hnd].
    assert (forall y, (x, y) ∈ l -> x ∈ list_fmap _ _ fst l) as Hfst.
    { intros y Hy. apply (list_elem_of_fmap_2 fst) in Hy. exact Hy. }
    apply elem_of_cons in H1 as [H1|H1]; apply elem_of_cons in H2 as [H2|H2].
    + congruence.
    + injection H1 as -> ->. now apply Hfst in H2.
    + injection H2 as -> ->. now apply Hfst in H1.
    + now apply IH.
Qed.

Lemma dict_get_elem {B} (l : list (K * B)) x y :
  NoDup l.*1 -> (x, y) ∈ l -> dict_get x l = Some y.
Proof.
  induction l as [|[a b] l IH]; intros Hnd Hin.
  - now apply elem_of_nil in Hin.
  - cbn [dict_get]. destruct (decide (x = a)) as [->|Hne].
    + f_equal. eapply unique_keys_value; [exact Hnd|apply list_elem_of_here|exact Hin].
    + cbn [fmap list_fmap fst] in Hnd. apply NoDup_cons in Hnd as [_ Hnd].
      apply elem_of_cons in Hin as [[= -> ->]|Hin]; [congruence|now apply IH].
Qed.

End DictFacts.

Section ResolverFacts.
Import Dict Config Engine.
Variable s : State.

(** The step of the loop that builds [mon_to_profiles]. *)
Let step (d : list (Z * list string)) (pname : string) : list (Z * list string) :=
  match monitor_index (ps_for s pname) with
  | Some idx => if nonempty (tokens_for s pname) then dict_append idx pname d else d
  | None => d
  end.

Lemma resolver_lookup (names : list string) (acc : list (Z * list string)) (d : Z) :
  default [] (dict_get d (foldl step acc names))
  = default [] (dict_get d acc) ++ List.filter (assigned_to s d) names.
Proof.
  revert acc. induction names as [|p names IH]; intros acc; simpl.
  - now rewrite app_nil_r.
  - rewrite IH. unfold step, assigned_to.
    destruct (monitor_index (ps_for s p)) as [idx|] eqn:Hm.
    + destruct (nonempty (tokens_for s p)) eqn:Ht.
      * rewrite dict_get_append, andb_true_r.
        destruct (decide (d = idx)) as [->|Hne].
        -- rewrite bool_decide_eq_true_2 by reflexivity.
           simpl. now rewrite <- app_assoc.
        -- rewrite bool_decide_eq_false_2 by congruence. reflexivity.
      * now rewrite andb_false_r.
    + rewrite bool_decide_eq_false_2 by congruence. reflexivity.
Qed.

Lemma resolver_values (names : list string) (acc : list (Z * list string)) (p : string) :
  p ∈ concat (foldl step acc names).*2
  <-> p ∈ concat acc.*2 \/ p ∈ List.filter (assigned s) names.
Proof.
  revert acc. induction names as [|q names IH]; intros acc; simpl.
  - rewrite elem_of_nil. tauto.
  - rewrite IH. unfold step, assigned.
    destruct (monitor_index (ps_for s q)) as [idx|]; [|tauto].
    destruct (nonempty (tokens_for s q)); [|tauto].
    rewrite dict_append_values, elem_of_cons. tauto.
Qed.

Lemma resolver_empty (names : list string) (acc : list (Z * list string)) :
  foldl step acc names = [] <-> acc = [] /\ List.filter (assigned s) names = [].
Proof.
  revert acc. induction names as [|q names IH]; intros acc; simpl.
  - tauto.
  - rewrite IH. unfold step, assigned.
    destruct (monitor_index (ps_for s q)) as [idx|]; [|tauto].
    destruct (nonempty (tokens_for s q)); [|tauto].
    split; [intros [H _]; now apply dict_append_keys_nonempty in H|].
    intros [_ H]. discriminate H.
Qed.

Lemma resolver_NoDup (names : list string) (acc : list (Z * list string)) :
  NoDup acc.*1 -> NoDup (foldl step acc names).*1.
Proof.
  revert acc. induction names as [|p names IH]; intros acc Hacc; simpl; [exact Hacc|].
  apply IH. unfold step.
  destruct (monitor_index (ps_for s p)) as [idx|]; [|exact Hacc].
  destruct (nonempty (tokens_for s p)); [|exact Hacc].
  now apply dict_append_NoDup.
Qed.

Lemma mon_to_profiles_NoDup : NoDup (mon_to_profiles s).*1.
Proof. apply (resolver_NoDup (profile_names s) []). apply NoDup_nil_2. Qed.

Lemma mon_to_profiles_lookup (d : Z) :
  default [] (dict_get d (mon_to_profiles s))
  = List.filter (assigned_to s d) (profile_names s).
Proof. exact (resolver_lookup (profile_names s) [] d). Qed.

Lemma mon_to_profiles_values (p : string) :
  p ∈ concat (mon_to_profiles s).*2 <-> p ∈ assigned_profiles s.
Proof.
  pose proof (resolver_values (profile_names s) [] p) as H.
  simpl in H. rewrite elem_of_nil in H.
  split; [intros Hp; apply H in Hp; tauto | intros Hp; apply H; now right].
Qed.

Lemma mon_to_profiles_empty :
  mon_to_profiles s = [] <-> assigned_profiles s = [].
Proof.
  pose proof (resolver_empty (profile_names s) []) as H.
  split; [intros Hp; now apply H in Hp | intros Hp; now apply H].
Qed.

Lemma assigned_to_spec (d : Z) (p : string) :
  assigned_to s d p = true
  <-> monitor_index (ps_for s p) = Some d /\ tokens_for s p <> [].
Proof.
  unfold assigned_to. rewrite andb_true_iff, bool_decide_eq_true.
  destruct (tokens_for s p); simpl; intuition congruence.
Qed.

Lemma tokens_for_nil (p : string) :
  tokens_for s p = [] <-> default [] (dict_get p (profiles s)) = [].
Proof.
  unfold tokens_for. destruct (default [] (dict_get p (profiles s))); simpl;
    intuition congruence.
Qed.

End ResolverFacts.

(** C6 — the assignment built from a configuration snapshot lists, under a
    display index, exactly the profiles whose display target is that index
    and whose token list is non-empty, in declaration order; a profile
    with a null target or with an empty token list is listed under no
    display. *)
Theorem assignment_resolver :
  forall (s : Config.State),
    (forall d,
        default [] (Dict.dict_get d (Engine.mon_to_profiles s))
        = List.filter (assigned_to s d) (Config.profile_names s))
    /\ (forall d p,
           p ∈ default [] (Dict.dict_get d (Engine.mon_to_profiles s))
           <-> p ∈ Config.profile_names s
               /\ Config.monitor_index (Config.ps_for s p) = Some d
               /\ default [] (Dict.dict_get p (Config.profiles s)) <> [])
    /\ (forall d p,
           Config.monitor_index (Config.ps_for s p) = None ->
           p ∉ default [] (Dict.dict_get d (Engine.mon_to_profiles s)))
    /\ (forall d p,
           default [] (Dict.dict_get p (Config.profiles s)) = [] ->
           p ∉ default [] (Dict.dict_get d (Engine.mon_to_profiles s))).
Proof.
  intros s.
  assert (forall d p,
           p ∈ default [] (Dict.dict_get d (Engine.mon_to_profiles s))
           <-> p ∈ Config.profile_names s
               /\ Config.monitor_index (Config.ps_for s p) = Some d
               /\ default [] (Dict.dict_get p (Config.profiles s)) <> []) as Hiff.
  { intros d p. rewrite mon_to_profiles_lookup.
    rewrite list_elem_of_In, filter_In, <- list_elem_of_In.
    rewrite assigned_to_spec, tokens_for_nil. tauto. }
  split; [intros d; apply mon_to_profiles_lookup|].
  split; [exact Hiff|].
  split.
  - intros d p Hnone [_ [Hm _]]%Hiff. congruence.
  - intros d p Hnil [_ [_ Ht]]%Hiff. congruence.
Qed.

(** "Low Risk Assets" targets monitor 0 but has no token; "Parked" has a
    token but no display target. *)
Lemma assignment_resolver_witness :
  ("Low Risk Assets"
   ∉ default [] (Dict.dict_get 0 (Engine.mon_to_profiles two_profiles_state)))
  /\ ("Parked"
      ∉ default [] (Dict.dict_get 0 (Engine.mon_to_profiles two_intervals_state)))
  /\ default [] (Dict.dict_get 0 (Engine.mon_to_profiles two_intervals_state))
     = ["Low Risk"; "High Risk"].
Proof.
  split; [|split].
  - destruct (assignment_resolver two_profiles_state) as (_ & _ & _ & H).
    apply H. reflexivity.
  - destruct (assignment_resolver two_intervals_state) as (_ & _ & H & _).
    apply H. reflexivity.
  - destruct (assignment_resolver two_intervals_state) as (H & _).
    rewrite H. reflexivity.
Defined.

Section IntervalFacts.
Import Dict Config Engine.

Lemma foldl_nested {A B} (g : A -> B -> A) (ls : list (list B)) (a : A) :
  foldl (fun a l => foldl g a l) a ls = foldl g a (concat ls).
Proof.
  revert a. induction ls as [|l ls IH]; intros a; simpl; [reflexivity|].
  now rewrite IH, foldl_app.
Qed.

(** The running maximum of a loop [R = max(R, f(p))]. *)
Lemma foldl_max_spec {A} (f : A -> Z) (l : list A) (R0 : Z) :
  let R := foldl (fun R p => Z.max R (f p)) R0 l in
  R0 <= R /\ (forall p, p ∈ l -> f p <= R) /\ (R = R0 \/ exists p, p ∈ l /\ R = f p).
Proof.
  revert R0. induction l as [|x l IH]; intros R0; simpl.
  - split; [lia|]. split; [|now left]. intros p Hp. now apply elem_of_nil in Hp.
  - destruct (IH (Z.max R0 (f x))) as (Hge & Hall & Hex).
    split; [lia|]. split.
    + intros p [->|Hp]%elem_of_cons; [lia|auto].
    + destruct Hex as [Heq|(p & Hp & Heq)].
      * destruct (Z.max_spec R0 (f x)) as [[_ Hm]|[_ Hm]].
        -- right. exists x. split; [apply list_elem_of_here | now rewrite Heq].
        -- left. now rewrite Heq.
      * right. exists p. split; [now apply list_elem_of_further | exact Heq].
Qed.

Lemma max_with_floor_spec (l : list Z) :
  let R := max_with_floor l in
  10 <= R /\ (forall x, x ∈ l -> x <= R) /\ (R = 10 \/ R ∈ l).
Proof.
  induction l as [|x l IH]; simpl.
  - split; [lia|]. split; [|now left]. intros y Hy. now apply elem_of_nil in Hy.
  - destruct IH as (Hge & Hall & Hex).
    unfold max_with_floor in *. simpl.
    split; [lia|]. split.
    + intros y [->|Hy]%elem_of_cons; [lia|]. specialize (Hall y Hy). lia.
    + destruct (Z.max_spec x (foldr Z.max 10 l)) as [[_ Hm]|[_ Hm]]; rewrite Hm.
      * destruct Hex as [Heq|Hin]; [now left|right; now apply list_elem_of_further].
      * right. apply list_elem_of_here.
Qed.

Lemma round_interval_max (s : State) :
  round_interval s (mon_to_profiles s)
  = max_with_floor ((fun p => refresh_sec (ps_for s p)) <$> assigned_profiles s).
Proof.
  unfold round_interval. rewrite foldl_nested.
  set (f := fun p => refresh_sec (ps_for s p)).
  change (Z.max (foldl (fun R p => Z.max R (f p)) 0 (concat (mon_to_profiles s).*2)) 10
          = max_with_floor (f <$> assigned_profiles s)).
  destruct (foldl_max_spec f (concat (mon_to_profiles s).*2) 0) as (Hge & Hall & Hex).
  destruct (max_with_floor_spec (f <$> assigned_profiles s)) as (Mge & Mall & Mex).
  set (R1 := foldl (fun R p => Z.max R (f p)) 0 (concat (mon_to_profiles s).*2)) in *.
  set (M := max_with_floor (f <$> assigned_profiles s)) in *.
  assert (R1 <= M) as Hle.
  { destruct Hex as [->|(p & Hp & ->)]; [lia|].
    apply Mall, list_elem_of_fmap. exists p. split; [reflexivity|].
    now apply mon_to_profiles_values. }
  assert (M <= Z.max R1 10) as Hle'.
  { destruct Mex as [->|Hin]; [lia|].
    apply list_elem_of_fmap in Hin as (p & -> & Hp).
    apply mon_to_profiles_values in Hp. specialize (Hall p Hp). lia. }
  lia.
Qed.

End IntervalFacts.

(* ===================================================================== *)
(** * Properties of the composer *)
(* ===================================================================== *)
Section NameFacts.
Import Py Addr Config Engine.

Lemma chars_str (l : list ascii) : chars (str l) = l.
Proof. apply list_ascii_of_string_of_list_ascii. Qed.

Lemma len_chars (s : string) : len s = length (chars s).
Proof. induction s as [|c s IH]; simpl; [reflexivity|]. now rewrite <- IH. Qed.

Lemma truthy_spec (s : string) : truthy s = true <-> s <> "".
Proof. destruct s; simpl; split; intros H; congruence. Qed.

(** The pieces of a shortened address. *)
Lemma short_addr_long (a : string) :
  (10 < len a)%nat ->
  short_addr a = slice_to 6 a +:+ ellipsis +:+ slice_last 4 a
  /\ chars (slice_to 6 a) = take 6 (chars a)
  /\ chars (slice_last 4 a) = drop (length (chars a) - 4) (chars a)
  /\ length (chars (slice_to 6 a)) = 6%nat
  /\ length (chars (slice_last 4 a)) = 4%nat.
Proof.
  intros Hlen. unfold short_addr.
  destruct (len a <=? 10)%nat eqn:E; [apply Nat.leb_le in E; lia|].
  rewrite len_chars in Hlen.
  unfold slice_to, slice_last. rewrite !chars_str.
  rewrite length_take, length_drop.
  repeat split; lia.
Qed.

Lemma short_addr_short (a : string) : (len a <= 10)%nat -> short_addr a = a.
Proof.
  intros Hlen. unfold short_addr.
  destruct (len a <=? 10)%nat eqn:E; [reflexivity|].
  apply Nat.leb_gt in E. lia.
Qed.

End NameFacts.

(** C9 — the name composed for a token is: the custom name
    with surrounding whitespace stripped, when the profile's
    [use_custom_names] is true and the stripped custom name is non-empty;
    else the cached feed name, when present and non-empty; else the
    shortened address: the address itself up to 10 characters, otherwise
    its first 6 characters, an ellipsis and its last 4 characters.  On
    custom names without surrounding whitespace and non-empty cached names
    this is the resolution the specification words. *)
Theorem display_name_resolution :
  forall (s : Config.State) (ps : Config.ProfileSettings) (t : Config.Token),
    let key := Addr.key_for (Config.network_id t) (Config.address t) in
    let custom := Py.strip (Config.custom_name t) in
    (Config.use_custom_names ps = true -> custom <> "" ->
     Engine.choose_name s ps t = custom)
    /\ (Config.use_custom_names ps = false \/ custom = "" ->
        forall n, Config.token_names s !! key = Some n -> n <> "" ->
                  Engine.choose_name s ps t = n)
    /\ (Config.use_custom_names ps = false \/ custom = "" ->
        Config.token_names s !! key = None \/ Config.token_names s !! key = Some "" ->
        Engine.choose_name s ps t = Addr.short_addr (Config.address t))
    /\ (forall a, (Py.len a <= 10)%nat -> Addr.short_addr a = a)
    /\ (forall a, (10 < Py.len a)%nat ->
          Addr.short_addr a = Py.slice_to 6 a +:+ Addr.ellipsis +:+ Py.slice_last 4 a
          /\ Py.chars (Py.slice_to 6 a) = take 6 (Py.chars a)
          /\ Py.chars (Py.slice_last 4 a)
             = drop (length (Py.chars a) - 4) (Py.chars a)
          /\ length (Py.chars (Py.slice_to 6 a)) = 6%nat
          /\ length (Py.chars (Py.slice_last 4 a)) = 4%nat)
    /\ (Py.strip (Config.custom_name t) = Config.custom_name t ->
        Config.token_names s !! key <> Some "" ->
        Engine.choose_name s ps t = spec_display_name s ps t).
Proof.
  intros s ps t key custom.
  split.
  { intros Hu Hc. unfold Engine.choose_name. fold custom.
    rewrite Hu. apply truthy_spec in Hc. now rewrite Hc. }
  assert (Config.use_custom_names ps = false \/ custom = "" ->
          Config.use_custom_names ps && Engine.truthy custom = false) as Hoff.
  { intros [->| ->]; [reflexivity|]. now rewrite andb_false_r. }
  split.
  { intros Hc n Hn Hne. unfold Engine.choose_name. fold custom key.
    rewrite (Hoff Hc), Hn. apply truthy_spec in Hne. now rewrite Hne. }
  split.
  { intros Hc Hn. unfold Engine.choose_name. fold custom key.
    rewrite (Hoff Hc). destruct Hn as [-> | ->]; reflexivity. }
  split; [apply short_addr_short|].
  split; [apply short_addr_long|].
  intros Hstrip Hn. unfold Engine.choose_name, spec_display_name. fold key.
  rewrite Hstrip.
  destruct (Config.use_custom_names ps && Engine.truthy (Config.custom_name t));
    [reflexivity|].
  destruct (Config.token_names s !! key) as [[|c n]|]; [congruence| |]; reflexivity.
Qed.

Lemma display_name_resolution_witness :
  Engine.choose_name empty_state custom_names_on
    (Config.mkToken "eth" "0xc02aaa39b223fe8d0a0e5c4f27ead9083c756cc2" " WETH ")
  = "WETH"
  /\ Addr.short_addr "0xc02aaa39b223fe8d0a0e5c4f27ead9083c756cc2" = "0xc02a…6cc2".
Proof.
  split.
  - destruct (display_name_resolution empty_state custom_names_on
             (Config.mkToken "eth" "0xc02aaa39b223fe8d0a0e5c4f27ead9083c756cc2" " WETH "))
      as (H & _).
    rewrite H; [reflexivity | reflexivity | vm_compute; discriminate].
  - destruct (display_name_resolution empty_state custom_names_on blank_named_token)
      as (_ & _ & _ & _ & H & _).
    destruct (H "0xc02aaa39b223fe8d0a0e5c4f27ead9083c756cc2") as [-> _];
      [vm_compute; lia | reflexivity].
Defined.

(** C9, with the custom name taken as stored, fails on a blank custom name: the specification's
    resolution would show the blank name, the composer falls back to the
    shortened address. *)
Lemma display_name_blank_custom :
  Engine.truthy (Config.custom_name blank_named_token) = true
  /\ spec_display_name empty_state custom_names_on blank_named_token = "  "
  /\ Engine.choose_name empty_state custom_names_on blank_named_token = "0xc02a…6cc2"
  /\ Engine.choose_name empty_state custom_names_on blank_named_token
     <> spec_display_name empty_state custom_names_on blank_named_token.
Proof.
  repeat split; try (vm_compute; reflexivity).
  vm_compute. discriminate.
Qed.

(* ===================================================================== *)
(** * Reasoning about the round *)
(* ===================================================================== *)
Section MonadFacts.
Import Engine.

(** ** Relations every step of a computation keeps *)
Section Keeps.
Variable R : Controller -> Controller -> Prop.
Hypothesis R_refl : forall c, R c c.
Hypothesis R_trans : forall c1 c2 c3, R c1 c2 -> R c2 c3 -> R c1 c3.

Lemma keeps_ret {A} (a : A) : keeps R (ret a).
Proof using R_refl. intros c c' r [= <- _]. apply R_refl. Qed.

Lemma keeps_raise {A} (e : exn) : keeps R (@raise A e).
Proof using R_refl. intros c c' r [= <- _]. apply R_refl. Qed.

Lemma keeps_get_state : keeps R get_state.
Proof using R_refl. intros c c' r [= <- _]. apply R_refl. Qed.

Lemma keeps_bind {A B} (m : M A) (k : A -> M B) :
  keeps R m -> (forall a, keeps R (k a)) -> keeps R (bind m k).
Proof using R_trans.
  intros Hm Hk c c' r. unfold bind.
  destruct (m c) as [c1 [a|e]] eqn:E.
  - intros Hr. eapply R_trans; [eapply Hm, E | eapply Hk, Hr].
  - intros [= <- _]. eapply Hm, E.
Qed.

Lemma keeps_foldM {A B} (f : A -> B -> M A) (l : list B) :
  (forall a b, keeps R (f a b)) -> forall a, keeps R (foldM f a l).
Proof using R_refl R_trans.
  intros Hf. induction l as [|b l IH]; intros a; simpl.
  - apply keeps_ret.
  - apply keeps_bind; auto.
Qed.

Lemma keeps_for_each {B} (l : list B) (body : B -> M unit) :
  (forall b, keeps R (body b)) -> keeps R (for_each l body).
Proof using R_refl R_trans. intros Hb. apply keeps_foldM. auto. Qed.

Lemma keeps_if {A} (b : bool) (m1 m2 : M A) :
  keeps R m1 -> keeps R m2 -> keeps R (if b then m1 else m2).
Proof. now destruct b. Qed.

End Keeps.

(** ** Exceptions a computation can let escape *)
Section Raises.
Variable P : exn -> Prop.

Lemma raises_ret {A} (a : A) : raises_only P (ret a).
Proof. intros c c' e [=]. Qed.

Lemma raises_get_state : raises_only P get_state.
Proof. intros c c' e [=]. Qed.

Lemma raises_emit ev : raises_only P (emit ev).
Proof. intros c c' e [=]. Qed.

Lemma raises_raise {A} (e : exn) : P e -> raises_only P (@raise A e).
Proof. intros He c c' e' [= _ <-]. exact He. Qed.

Lemma raises_bind {A B} (m : M A) (k : A -> M B) :
  raises_only P m -> (forall a, raises_only P (k a)) -> raises_only P (bind m k).
Proof.
  intros Hm Hk c c' e. unfold bind.
  destruct (m c) as [c1 [a|e1]] eqn:E.
  - intros Hr. eapply Hk, Hr.
  - intros [= _ <-]. eapply Hm, E.
Qed.

Lemma raises_foldM {A B} (f : A -> B -> M A) (l : list B) :
  (forall a b, raises_only P (f a b)) -> forall a, raises_only P (foldM f a l).
Proof.
  intros Hf. induction l as [|b l IH]; intros a; simpl.
  - apply raises_ret.
  - apply raises_bind; auto.
Qed.

End Raises.

End MonadFacts.

Section FetchFacts.
Import Py Addr Dict Config Engine.

Lemma same_config_refl s : same_config s s.
Proof. repeat split. Qed.

Lemma same_config_trans s1 s2 s3 :
  same_config s1 s2 -> same_config s2 s3 -> same_config s1 s3.
Proof. unfold same_config. intuition congruence. Qed.

Lemma same_config_tokens_for s s' p :
  same_config s s' -> tokens_for s' p = tokens_for s p.
Proof. intros (Hp & _). unfold tokens_for. now rewrite Hp. Qed.

Lemma same_config_ps_for s s' p :
  same_config s s' -> ps_for s' p = ps_for s p.
Proof.
  intros (_ & Hs & Hr & _). unfold ps_for, _ensure_profile_settings.
  now rewrite Hs, Hr.
Qed.

Lemma same_config_assigned s s' p :
  same_config s s' -> assigned s' p = assigned s p.
Proof.
  intros H. unfold assigned.
  now rewrite (same_config_ps_for _ _ _ H), (same_config_tokens_for _ _ _ H).
Qed.

Lemma same_config_profile_names s s' :
  same_config s s' -> profile_names s' = profile_names s.
Proof. intros (Hp & _). unfold profile_names. now rewrite Hp. Qed.

Lemma same_config_collect w s s' p :
  same_config s s' -> collect w s' p = collect w s p.
Proof. intros H. unfold collect. now rewrite (same_config_tokens_for _ _ _ H). Qed.

Lemma kept_refl c : kept c c.
Proof. split; [reflexivity | apply same_config_refl]. Qed.

Lemma kept_trans c1 c2 c3 : kept c1 c2 -> kept c2 c3 -> kept c1 c3.
Proof.
  intros [H1 S1] [H2 S2]. split; [congruence|].
  eapply same_config_trans; eauto.
Qed.

Lemma keeps_emit ev : keeps kept (emit ev).
Proof. intros c c' r [= <- _]. split; [reflexivity | apply same_config_refl]. Qed.

(** ** One token record, one payload *)

Lemma absorb_token_run net ps pools acc tok c c' r :
  absorb_token net ps pools acc tok c = (c', r) ->
  kept c c'
  /\ r = Ok (<[(parse_token net pools tok).1 := (parse_token net pools tok).2]> acc).
Proof.
  unfold absorb_token. destruct (parse_token net pools tok) as [k v].
  unfold bind, get_state, set_state, ret. simpl.
  intros [= <- <-]. split; [|reflexivity].
  split; [reflexivity|]. repeat split.
Qed.

Lemma absorb_data_run net ps pools data acc c c' r :
  foldM (absorb_token net ps pools) acc data c = (c', r) ->
  kept c c' /\ r = Ok (absorb_all net pools acc data).
Proof.
  revert acc c. induction data as [|tok data IH]; intros acc c; simpl.
  - intros [= <- <-]. split; [apply kept_refl | reflexivity].
  - unfold bind at 1.
    destruct (absorb_token net ps pools acc tok c) as [c1 r1] eqn:E.
    apply absorb_token_run in E as [K1 ->].
    intros H. apply IH in H as [K2 ->].
    split; [eapply kept_trans; eauto | reflexivity].
Qed.

(** ** One batch *)

Lemma fetch_batch_run w pname ps acc entry c c' r :
  fetch_batch w pname ps acc entry c = (c', r) ->
  kept c c'
  /\ r = match batch_raises (http_get w pname entry.1 (csv_of entry.1 entry.2)) with
         | Some e => Raise e
         | None => Ok (batch_results w pname acc entry)
         end.
Proof.
  destruct entry as [net addrs]. unfold fetch_batch, batch_results. simpl.
  unfold bind at 1. unfold emit at 1.
  destruct (http_get w pname net (csv_of net addrs)) as [| |code body]; simpl.
  - intros [= <- <-]. split; [|reflexivity]. split; [reflexivity|apply same_config_refl].
  - unfold bind, emit, ret. intros [= <- <-].
    split; [|reflexivity]. split; [reflexivity|apply same_config_refl].
  - destruct (code =? 200).
    + destruct body as [data included| |].
      * intros H. apply absorb_data_run in H as [[K1 K2] ->].
        split; [|reflexivity]. split; [exact K1 | exact K2].
      * intros [= <- <-]. split; [|reflexivity].
        split; [reflexivity|apply same_config_refl].
      * intros [= <- <-]. split; [|reflexivity].
        split; [reflexivity|apply same_config_refl].
    + unfold bind, emit, ret. intros [= <- <-].
      split; [|destruct body; reflexivity].
      split; [reflexivity|apply same_config_refl].
Qed.

Lemma fetch_batches_run w pname ps entries acc c c' r :
  foldM (fetch_batch w pname ps) acc entries c = (c', r) ->
  kept c c' /\ r = batches_outcome w pname acc entries.
Proof.
  revert acc c. induction entries as [|entry entries IH]; intros acc c; simpl.
  - intros [= <- <-]. split; [apply kept_refl | reflexivity].
  - unfold bind at 1.
    destruct (fetch_batch w pname ps acc entry c) as [c1 r1] eqn:E.
    apply fetch_batch_run in E as [K1 ->].
    destruct (batch_raises _) as [e|].
    + intros [= <- <-]. split; [exact K1 | reflexivity].
    + intros H. apply IH in H as [K2 ->].
      split; [eapply kept_trans; eauto | reflexivity].
Qed.

Lemma batches_outcome_ok w pname entries acc all :
  batches_outcome w pname acc entries = Ok all ->
  all = foldl (batch_results w pname) acc entries.
Proof.
  revert acc. induction entries as [|entry entries IH]; intros acc; simpl.
  - now intros [= <-].
  - destruct (batch_raises _); [discriminate|]. apply IH.
Qed.

Lemma batches_outcome_total w pname entries acc :
  (forall entry, entry ∈ entries ->
     batch_raises (http_get w pname entry.1 (csv_of entry.1 entry.2)) = None) ->
  batches_outcome w pname acc entries = Ok (foldl (batch_results w pname) acc entries).
Proof.
  revert acc. induction entries as [|entry entries IH]; intros acc Hall; simpl.
  - reflexivity.
  - rewrite (Hall entry) by apply list_elem_of_here.
    apply IH. intros e He. now apply Hall, list_elem_of_further.
Qed.

Lemma batches_outcome_raise w pname entries acc e :
  batches_outcome w pname acc entries = Raise e ->
  exists entry, entry ∈ entries
    /\ batch_raises (http_get w pname entry.1 (csv_of entry.1 entry.2)) = Some e.
Proof.
  revert acc. induction entries as [|entry entries IH]; intros acc; simpl.
  - discriminate.
  - destruct (batch_raises _) as [e'|] eqn:E.
    + intros [= <-]. exists entry. split; [apply list_elem_of_here | exact E].
    + intros H. apply IH in H as (entry' & Hin & Hr).
      exists entry'. split; [now apply list_elem_of_further | exact Hr].
Qed.

(** ** One profile *)

(** The outcome of the fetch of one profile within a round. *)
Lemma fetch_profile_run w pname c c' r :
  fetch_profile w pname c = (c', r) ->
  same_config (state c) (state c')
  /\ (if assigned (state c) pname then
        match batches_outcome w pname ∅ (by_net (tokens_for (state c) pname)) with
        | Ok all =>
            r = Ok tt
            /\ last_results c'
               = <[pname := collect w (state c) pname ∪ results_of c pname]>
                   (last_results c)
        | Raise e => r = Raise e /\ last_results c' = last_results c
        end
      else r = Ok tt /\ last_results c' = last_results c).
Proof.
  unfold fetch_profile, assigned. unfold bind at 1. unfold get_state at 1.
  destruct (monitor_index (ps_for (state c) pname)) as [idx|].
  2:{ intros [= <- <-]. split; [apply same_config_refl|auto]. }
  destruct (nonempty (tokens_for (state c) pname)).
  2:{ intros [= <- <-]. split; [apply same_config_refl|auto]. }
  unfold bind at 1.
  destruct (foldM _ _ _ c) as [c1 r1] eqn:E.
  apply fetch_batches_run in E as [[K1 S1] ->].
  destruct (batches_outcome w pname ∅ _) as [all|e] eqn:Hout.
  2:{ intros [= <- <-]. auto. }
  apply batches_outcome_ok in Hout. fold (collect w (state c) pname) in Hout.
  subst all.
  unfold bind, set_results, get_state. simpl.
  assert (results_of c1 pname = results_of c pname) as ->
      by (unfold results_of; now rewrite K1).
  case_bool_decide; unfold emit, ret; intros [= <- <-]; simpl;
    (split; [exact S1|]); (split; [reflexivity|]); now rewrite K1.
Qed.

End FetchFacts.

Section RoundFacts.
Import Py Addr Dict Config Engine.
Variable w : World.

Lemma bind_run {A B} (m : M A) (k : A -> M B) c c' r :
  bind m k c = (c', r) ->
  (exists c1 a, m c = (c1, Ok a) /\ k a c1 = (c', r))
  \/ (exists e, m c = (c', Raise e) /\ r = Raise e).
Proof.
  unfold bind. destruct (m c) as [c1 [a|e]].
  - intros H. left. eauto.
  - intros [= <- <-]. right. eauto.
Qed.

Lemma bind_run_ok {A B} (m : M A) (k : A -> M B) c c' b :
  bind m k c = (c', Ok b) ->
  exists c1 a, m c = (c1, Ok a) /\ k a c1 = (c', Ok b).
Proof.
  intros [H|(e & _ & [=])]%bind_run. exact H.
Qed.

Lemma evolves_refl c : evolves w c c.
Proof. split; [apply same_config_refl | now left]. Qed.

Lemma evolves_trans c1 c2 c3 : evolves w c1 c2 -> evolves w c2 c3 -> evolves w c1 c3.
Proof.
  intros [S1 H1] [S2 H2]. split; [eapply same_config_trans; eauto|].
  intros g. specialize (H1 g). specialize (H2 g).
  rewrite (same_config_assigned _ _ g S1), (same_config_collect w _ _ g S1) in H2.
  destruct H2 as [E2|[A2 E2]]; rewrite E2; destruct H1 as [E1|[A1 E1]]; rewrite ?E1; auto.
  right. split; [exact A1|].
  rewrite (assoc_L (∪)). now rewrite (idemp_L (∪)).
Qed.

Lemma kept_evolves c c' : kept c c' -> evolves w c c'.
Proof.
  intros [K S]. split; [exact S|]. intros g. left. unfold results_of. now rewrite K.
Qed.

Lemma results_of_insert c g pname (x : gmap string Sample) st se tk tr :
  results_of (mkController st se tk (<[pname := x]> (last_results c)) tr) g
  = if decide (g = pname) then x else results_of c g.
Proof.
  unfold results_of. simpl. destruct (decide (g = pname)) as [->|Hne].
  - now rewrite lookup_insert_eq.
  - now rewrite lookup_insert_ne by congruence.
Qed.

Lemma fetch_profile_results pname c c' r g :
  fetch_profile w pname c = (c', r) ->
  results_of c' g = results_of c g
  \/ (g = pname /\ r = Ok tt /\ assigned (state c) g = true
      /\ results_of c' g = collect w (state c) g ∪ results_of c g).
Proof.
  intros H. apply fetch_profile_run in H as [S H].
  destruct (assigned (state c) pname) eqn:Ha.
  - destruct (batches_outcome w pname ∅ _) as [all|e].
    + destruct H as [-> Hl]. destruct c' as [st se tk lr tr]. simpl in Hl. subst lr.
      rewrite results_of_insert. destruct (decide (g = pname)) as [->|]; auto.
    + destruct H as [_ Hl]. left. unfold results_of. now rewrite Hl.
  - destruct H as [_ Hl]. left. unfold results_of. now rewrite Hl.
Qed.

Lemma fetch_profile_evolves pname : keeps (evolves w) (fetch_profile w pname).
Proof.
  intros c c' r H. split; [now apply fetch_profile_run in H as [S _]|].
  intros g. destruct (fetch_profile_results _ _ _ _ g H) as [E|(-> & _ & A & E)]; auto.
Qed.

Lemma emit_kept ev c c' r : emit ev c = (c', r) -> kept c c' /\ r = Ok tt.
Proof.
  intros [= <- <-]. split; [|reflexivity].
  split; [reflexivity | apply same_config_refl].
Qed.

Lemma sleep_run ev b c c' r :
  sleep ev b c = (c', r) ->
  kept c c' /\ trace c' = trace c ++ [ev]
  /\ r = if b then Raise CancelledError else Ok tt.
Proof.
  unfold sleep, bind, emit. destruct b; intros [= <- <-]; simpl;
    (split; [split; [reflexivity|apply same_config_refl]|auto]).
Qed.

Lemma refresh_tickers_run c c' r :
  refresh_tickers w c = (c', r) -> kept c c' /\ r = Ok tt.
Proof.
  unfold refresh_tickers, set_tickers. intros [= <- <-].
  split; [|reflexivity]. split; [reflexivity|apply same_config_refl].
Qed.

(** ** The whole round *)

Lemma fetch_all_evolves names : keeps (evolves w) (for_each names (fetch_profile w)).
Proof.
  apply keeps_for_each;
    [apply evolves_refl | apply evolves_trans | apply fetch_profile_evolves].
Qed.

Lemma round_tail_run R c c' r :
  round_tail w R c = (c', r) ->
  kept c c'
  /\ r = (if sleep_cancelled w then Raise CancelledError else Ok tt)
  /\ exists tr, trace c' = tr ++ [SleepRound R].
Proof.
  unfold round_tail. unfold bind at 1.
  destruct (refresh_tickers w c) as [c1 r1] eqn:E1.
  apply refresh_tickers_run in E1 as [K1 ->].
  unfold bind at 1.
  destruct (emit _ c1) as [c2 r2] eqn:E2. apply emit_kept in E2 as [K2 ->].
  unfold bind at 1.
  destruct (emit _ c2) as [c3 r3] eqn:E3. apply emit_kept in E3 as [K3 ->].
  intros (K4 & Ht & ->)%sleep_run.
  split; [|split; [reflexivity|eauto]].
  eapply kept_trans; [|exact K4]. eapply kept_trans; [|exact K3].
  eapply kept_trans; eauto.
Qed.

(** An active round, seen as three stages. *)
Lemma round_active c :
  mon_to_profiles (state c) <> [] ->
  round w c
  = bind (emit (LogRefreshStart (mon_to_profiles (state c)).*1
                  (round_interval (state c) (mon_to_profiles (state c)))))
      (fun _ => bind (for_each (profile_names (state c)) (fetch_profile w))
         (fun _ => round_tail w (round_interval (state c) (mon_to_profiles (state c))))) c.
Proof.
  intros Hne. unfold round. unfold bind at 1. unfold get_state at 1.
  destruct (mon_to_profiles (state c)) eqn:E; [congruence|]. reflexivity.
Qed.

Lemma round_idle c :
  mon_to_profiles (state c) = [] ->
  round w c
  = bind (emit (SetStatus NoVisibleProfiles))
      (fun _ => sleep (Sleep 1) (sleep_cancelled w)) c.
Proof.
  intros Hne. unfold round. unfold bind at 1. unfold get_state at 1.
  now rewrite Hne.
Qed.

Lemma round_evolves : keeps (evolves w) (round w).
Proof.
  intros c c' r. destruct (decide (mon_to_profiles (state c) = [])) as [He|Hne].
  - rewrite (round_idle c He). unfold bind at 1.
    destruct (emit _ c) as [c1 r1] eqn:E1. apply emit_kept in E1 as [K1 ->].
    intros (K2 & _)%sleep_run. apply kept_evolves. eapply kept_trans; eauto.
  - rewrite (round_active c Hne). unfold bind at 1.
    destruct (emit _ c) as [c1 r1] eqn:E1. apply emit_kept in E1 as [K1 ->].
    unfold bind at 1.
    destruct (for_each _ _ c1) as [c2 [[]|e]] eqn:E2;
      apply fetch_all_evolves in E2.
    + intros (K3 & _)%round_tail_run.
      eapply evolves_trans; [apply kept_evolves, K1|].
      eapply evolves_trans; [exact E2 | apply kept_evolves, K3].
    + intros [= <- _].
      eapply evolves_trans; [apply kept_evolves, K1 | exact E2].
Qed.

(** When every profile has been fetched, every assigned profile's cache is
    the gathered entries over the previous ones. *)
Lemma fetch_all_completed names c c' :
  for_each names (fetch_profile w) c = (c', Ok tt) ->
  forall g, g ∈ names -> assigned (state c) g = true ->
    results_of c' g = collect w (state c) g ∪ results_of c g.
Proof.
  revert c. induction names as [|p names IH]; intros c Hrun g Hin Ha.
  - now apply elem_of_nil in Hin.
  - unfold for_each in Hrun. simpl in Hrun.
    apply bind_run_ok in Hrun as (c1 & [] & E1 & Hrest).
    fold (for_each names (fetch_profile w)) in Hrest.
    pose proof (fetch_profile_evolves p _ _ _ E1) as [S1 _].
    pose proof (fetch_all_evolves names _ _ _ Hrest) as [_ Hev].
    specialize (Hev g).
    rewrite (same_config_assigned _ _ g S1), (same_config_collect w _ _ g S1) in Hev.
    destruct (fetch_profile_results p _ _ _ g E1) as [Eq1|(-> & _ & _ & Eq1)].
    + apply elem_of_cons in Hin as [->|Hin].
      * (* the profile itself: assigned, so its fetch wrote the cache *)
        apply fetch_profile_run in E1 as [_ H1]. rewrite Ha in H1.
        destruct (batches_outcome w p ∅ _); [|destruct H1; discriminate].
        destruct H1 as [_ Hl].
        assert (results_of c1 p = collect w (state c) p ∪ results_of c p) as E1'.
        { unfold results_of at 1. rewrite Hl, lookup_insert_eq. reflexivity. }
        destruct Hev as [-> | [_ ->]]; rewrite E1'; [reflexivity|].
        rewrite (assoc_L (∪)). now rewrite (idemp_L (∪)).
      * rewrite (IH c1 Hrest g Hin) by now rewrite (same_config_assigned _ _ g S1).
        now rewrite (same_config_collect w _ _ g S1), Eq1.
    + destruct Hev as [-> | [_ ->]]; rewrite Eq1; [reflexivity|].
      rewrite (assoc_L (∪)). now rewrite (idemp_L (∪)).
Qed.

Lemma round_completed c c' :
  round w c = (c', Ok tt) ->
  mon_to_profiles (state c) <> [] ->
  forall g, g ∈ profile_names (state c) -> assigned (state c) g = true ->
    results_of c' g = collect w (state c) g ∪ results_of c g.
Proof.
  intros Hrun Hne g Hin Ha. rewrite (round_active c Hne) in Hrun.
  apply bind_run_ok in Hrun as (c1 & [] & E1 & Hrun).
  apply emit_kept in E1 as [[K1 S1] _].
  apply bind_run_ok in Hrun as (c2 & [] & E2 & Hrun).
  apply round_tail_run in Hrun as ([K3 S3] & _).
  assert (results_of c' g = results_of c2 g) as -> by (unfold results_of; now rewrite K3).
  assert (results_of c g = results_of c1 g) as -> by (unfold results_of; now rewrite K1).
  rewrite <- (same_config_collect w _ _ g S1).
  rewrite <- (same_config_profile_names _ _ S1) in E2.
  apply (fetch_all_completed _ _ _ E2); [|now rewrite (same_config_assigned _ _ g S1)].
  now rewrite (same_config_profile_names _ _ S1).
Qed.

End RoundFacts.

Section CollectFacts.
Import Py Addr Dict Config Engine.

(** ** One payload *)

Lemma absorb_all_snoc net pools acc data tok :
  absorb_all net pools acc (data ++ [tok])
  = <[(parse_token net pools tok).1 := (parse_token net pools tok).2]>
      (absorb_all net pools acc data).
Proof. unfold absorb_all. now rewrite foldl_app. Qed.

Lemma absorb_all_other net pools acc data k :
  (forall tok, tok ∈ data -> (parse_token net pools tok).1 <> k) ->
  absorb_all net pools acc data !! k = acc !! k.
Proof.
  induction data as [|tok data IH] using rev_ind; intros Hk; [reflexivity|].
  rewrite absorb_all_snoc, lookup_insert_ne.
  - apply IH. intros t Ht. apply Hk, elem_of_app. now left.
  - apply Hk, elem_of_app. right. apply list_elem_of_here.
Qed.

Lemma absorb_all_from net pools acc data k v :
  absorb_all net pools acc data !! k = Some v ->
  acc !! k = Some v
  \/ exists tok, tok ∈ data /\ parse_token net pools tok = (k, v).
Proof.
  induction data as [|tok data IH] using rev_ind; [now left|].
  rewrite absorb_all_snoc.
  destruct (decide ((parse_token net pools tok).1 = k)) as [Hk|Hk].
  - subst k. rewrite lookup_insert_eq. intros H.
    assert (v = (parse_token net pools tok).2) as -> by congruence.
    right. exists tok.
    split; [apply elem_of_app; right; apply list_elem_of_here|].
    destruct (parse_token net pools tok); reflexivity.
  - rewrite lookup_insert_ne by exact Hk. intros H.
    destruct (IH H) as [Ha|(t & Ht & Hp)]; [now left|].
    right. exists t. split; [apply elem_of_app; now left | exact Hp].
Qed.

Lemma absorb_all_hit net pools acc data tok :
  tok ∈ data ->
  exists tok', tok' ∈ data
    /\ (parse_token net pools tok').1 = (parse_token net pools tok).1
    /\ absorb_all net pools acc data !! (parse_token net pools tok).1
       = Some (parse_token net pools tok').2.
Proof.
  induction data as [|t data IH] using rev_ind; intros Hin.
  - now apply elem_of_nil in Hin.
  - rewrite absorb_all_snoc.
    destruct (decide ((parse_token net pools t).1 = (parse_token net pools tok).1))
      as [Hk|Hk].
    + exists t. split; [apply elem_of_app; right; apply list_elem_of_here|].
      split; [exact Hk|]. now rewrite Hk, lookup_insert_eq.
    + apply elem_of_app in Hin as [Hin|Hin%list_elem_of_singleton]; [|congruence].
      destruct (IH Hin) as (t' & Ht' & Hk' & Hl).
      exists t'. split; [apply elem_of_app; now left|]. split; [exact Hk'|].
      now rewrite lookup_insert_ne by exact Hk.
Qed.

Lemma absorb_all_grows net pools acc data k :
  is_Some (acc !! k) -> is_Some (absorb_all net pools acc data !! k).
Proof.
  intros Hs. induction data as [|t data IH] using rev_ind; [exact Hs|].
  rewrite absorb_all_snoc.
  destruct (decide ((parse_token net pools t).1 = k)) as [Hk|Hk].
  - rewrite Hk, lookup_insert_eq. eauto.
  - now rewrite lookup_insert_ne by exact Hk.
Qed.

(** ** The batches of a profile *)

Variable w : World.
Variable pname : string.


Lemma batch_results_ok acc entry data included :
  http_get w pname entry.1 (csv_of entry.1 entry.2)
  = Status 200 (PayloadObject data included) ->
  batch_results w pname acc entry = absorb_all entry.1 (pools_of included) acc data.
Proof. unfold batch_results. now intros ->. Qed.

(** A batch changes [all_results] only through the records of a
    status-200 payload. *)
Lemma batch_results_cases acc entry :
  batch_results w pname acc entry = acc
  \/ exists data included,
       http_get w pname entry.1 (csv_of entry.1 entry.2)
       = Status 200 (PayloadObject data included)
       /\ batch_results w pname acc entry
          = absorb_all entry.1 (pools_of included) acc data.
Proof.
  unfold batch_results.
  destruct (http_get w pname entry.1 (csv_of entry.1 entry.2)) as [| |code body];
    [now left | now left |].
  destruct body as [data included| |]; [|now left|now left].
  destruct (code =? 200) eqn:Hc; [|now left].
  apply Z.eqb_eq in Hc. subst code. right. eauto.
Qed.

Lemma gather_from entries acc k v :
  foldl (batch_results w pname) acc entries !! k = Some v ->
  acc !! k = Some v \/ returned w pname entries k v.
Proof.
  induction entries as [|entry entries IH] using rev_ind; [now left|].
  rewrite foldl_app. cbn [foldl].
  assert (returned w pname entries k v -> returned w pname (entries ++ [entry]) k v)
    as Hmono.
  { intros (e & d & i & t & He & Hr & Ht & Hp). exists e, d, i, t.
    split; [apply elem_of_app; now left | auto]. }
  destruct (batch_results_cases (foldl (batch_results w pname) acc entries) entry)
    as [-> | (data & included & Hr & ->)].
  - intros H. destruct (IH H); auto.
  - intros [H | (tok & Ht & Hp)]%absorb_all_from.
    + destruct (IH H); auto.
    + right. exists entry, data, included, tok.
      split; [apply elem_of_app; right; apply list_elem_of_here | auto].
Qed.

Lemma gather_grows entries acc k :
  is_Some (acc !! k) -> is_Some (foldl (batch_results w pname) acc entries !! k).
Proof.
  intros Hs. induction entries as [|entry entries IH] using rev_ind; [exact Hs|].
  rewrite foldl_app. cbn [foldl].
  destruct (batch_results_cases (foldl (batch_results w pname) acc entries) entry)
    as [-> | (data & included & Hr & ->)]; [exact IH|].
  now apply absorb_all_grows.
Qed.

Lemma gather_hit entries acc entry data included tok :
  entry ∈ entries ->
  http_get w pname entry.1 (csv_of entry.1 entry.2)
  = Status 200 (PayloadObject data included) ->
  tok ∈ data ->
  is_Some (foldl (batch_results w pname) acc entries
           !! (parse_token entry.1 (pools_of included) tok).1).
Proof.
  intros Hin Hr Ht.
  induction entries as [|e entries IH] using rev_ind.
  - now apply elem_of_nil in Hin.
  - rewrite foldl_app. cbn [foldl].
    apply elem_of_app in Hin as [Hin|Hin%list_elem_of_singleton].
    + specialize (IH Hin).
      destruct (batch_results_cases (foldl (batch_results w pname) acc entries) e)
        as [-> | (d & i & _ & ->)]; [exact IH|].
      now apply absorb_all_grows.
    + subst e. rewrite (batch_results_ok _ _ _ _ Hr).
      destruct (absorb_all_hit entry.1 (pools_of included)
                  (foldl (batch_results w pname) acc entries) data tok Ht)
        as (t' & _ & _ & Hl).
      rewrite Hl. eauto.
Qed.

Lemma gather_other entries acc k :
  (forall v, ~ returned w pname entries k v) ->
  foldl (batch_results w pname) acc entries !! k = acc !! k.
Proof.
  intros Hno.
  destruct (foldl (batch_results w pname) acc entries !! k) as [v|] eqn:E.
  - apply gather_from in E as [E|E]; [now rewrite E|]. now apply Hno in E.
  - destruct (acc !! k) as [v|] eqn:Ea; [|reflexivity].
    assert (is_Some (foldl (batch_results w pname) acc entries !! k)) as [v' Hv']
        by (apply gather_grows; eauto).
    congruence.
Qed.

End CollectFacts.

Section KeyFacts.
Import Py Addr Dict Config Engine.

(** With colon-free network ids the key determines the network. *)
Lemma key_net_inj n n' x y :
  colon_free n = true -> colon_free n' = true ->
  n +:+ ":" +:+ x = n' +:+ ":" +:+ y -> n = n'.
Proof.
  revert n'. induction n as [|c n IH]; intros [|c' n']; intros Hn Hn' Heq.
  - reflexivity.
  - injection Heq as Hc _. subst c'. discriminate Hn'.
  - injection Heq as Hc _. subst c. discriminate Hn.
  - injection Heq as Hc Heq. subst c'.
    unfold colon_free in Hn, Hn'. simpl in Hn, Hn'.
    apply andb_true_iff in Hn as [_ Hn]. apply andb_true_iff in Hn' as [_ Hn'].
    f_equal. now apply IH.
Qed.

Lemma key_for_net_inj n n' a b :
  colon_free n = true -> colon_free n' = true ->
  key_for n a = key_for n' b -> n = n'.
Proof. unfold key_for. apply key_net_inj. Qed.

Lemma parse_token_key net pools tok :
  (parse_token net pools tok).1 = key_for net (tr_address tok).
Proof.
  unfold parse_token. simpl. unfold key_for. now rewrite normalize_address_idem.
Qed.

(** ** The keys of [by_net] *)

Lemma by_net_keys_from (tokens : list Token) (acc : list (string * list string)) :
  let d := foldl (fun d t =>
                    dict_append (network_id t)
                      (normalize_address (network_id t) (address t)) d)
                 acc tokens in
  (NoDup acc.*1 -> NoDup d.*1)
  /\ forall net, net ∈ d.*1 ->
       net ∈ acc.*1 \/ exists t, t ∈ tokens /\ network_id t = net.
Proof.
  revert acc. induction tokens as [|t tokens IH]; intros acc; simpl.
  - split; auto.
  - destruct (IH (dict_append (network_id t)
                    (normalize_address (network_id t) (address t)) acc)) as [Hnd Hk].
    split.
    + intros Hacc. now apply Hnd, dict_append_NoDup.
    + intros net Hnet. destruct (Hk net Hnet) as [Hin|(t' & Ht' & <-)].
      * rewrite dict_append_keys in Hin. case_decide; [now left|].
        apply elem_of_app in Hin as [Hin| ->%list_elem_of_singleton]; [now left|].
        right. exists t. split; [apply list_elem_of_here | reflexivity].
      * right. exists t'. split; [now apply list_elem_of_further | reflexivity].
Qed.

Lemma by_net_NoDup tokens : NoDup (by_net tokens).*1.
Proof. apply (by_net_keys_from tokens []). apply NoDup_nil_2. Qed.



End KeyFacts.

(* ===================================================================== *)
(** * Properties of the refresh loop *)
(* ===================================================================== *)
Section RaiseFacts.
Import Py Addr Dict Config Engine.
Variable w : World.
Variable P : exn -> Prop.
Hypothesis P_batch :
  forall p n csv e, batch_raises (http_get w p n csv) = Some e -> P e.
Hypothesis P_sleep : sleep_cancelled w = true -> P CancelledError.

Lemma fetch_profile_raises pname : raises_only P (fetch_profile w pname).
Proof using P_batch.
  intros c c' e H. apply fetch_profile_run in H as [_ H].
  destruct (assigned (state c) pname); [|destruct H; discriminate].
  destruct (batches_outcome w pname ∅ _) as [all|e0] eqn:Hout;
    [destruct H; discriminate|].
  destruct H as [[= ->] _].
  apply batches_outcome_raise in Hout as (entry & _ & Hr).
  eapply P_batch, Hr.
Qed.

Lemma round_raises : raises_only P (round w).
Proof using P_batch P_sleep.
  intros c c' e. destruct (decide (mon_to_profiles (state c) = [])) as [He|Hne].
  - rewrite (round_idle w c He).
    intros [(c1 & [] & _ & H)|(e' & H & _)]%bind_run; [|discriminate H].
    apply sleep_run in H as (_ & _ & H).
    destruct (sleep_cancelled w); [|discriminate]. injection H as ->. auto.
  - rewrite (round_active w c Hne).
    intros [(c1 & [] & _ & H)|(e' & H & _)]%bind_run; [|discriminate H].
    apply bind_run in H as [(c2 & [] & _ & H)|(e' & H & [= ->])].
    + apply round_tail_run in H as (_ & H & _).
      destruct (sleep_cancelled w); [|discriminate]. injection H as ->. auto.
    + revert H. apply raises_foldM. intros _ p. apply fetch_profile_raises.
Qed.

End RaiseFacts.

Section LoopFacts.
Import Py Addr Dict Config Engine.

Lemma batch_raises_cancelled r e :
  batch_raises r = Some e -> r <> Cancelled -> is_Exception e = true.
Proof.
  destruct r as [| |code body]; simpl; [congruence|discriminate|].
  destruct (code =? 200); [|discriminate].
  destruct body; intros [= <-]; reflexivity.
Qed.

(** Without a cancellation only exceptions of class [Exception] leave a
    round. *)
Lemma round_raises_Exception w :
  never_cancelled w -> raises_only (fun e => is_Exception e = true) (round w).
Proof.
  intros (Hs & _ & Hg). apply round_raises.
  - intros p n csv e He. eapply batch_raises_cancelled; [exact He | apply Hg].
  - congruence.
Qed.


Lemma ensure_session_spec c :
  session (_ensure_session c) = Some SessionOpen
  /\ state (_ensure_session c) = state c
  /\ last_results (_ensure_session c) = last_results c
  /\ monitor_tickers (_ensure_session c) = monitor_tickers c
  /\ trace (_ensure_session c)
     = trace c ++ match session c with
                  | Some SessionOpen => []
                  | _ => [NewSession]
                  end.
Proof.
  unfold _ensure_session.
  destruct (session c) as [[]|] eqn:E; simpl; rewrite ?app_nil_r; auto.
Qed.

(** The handler of [except Exception], from the state the round left. *)
Lemma iteration_handles w c c1 e :
  round w c = (c1, Raise e) -> is_Exception e = true ->
  backoff_cancelled w = false ->
  iteration w c
  = (_ensure_session
       (mkController (state c1) (session c1) (monitor_tickers c1) (last_results c1)
          ((trace c1 ++ [LogException e]) ++ [Sleep 2])),
     Running).
Proof.
  intros Hr He Hb. unfold iteration. rewrite Hr, He, Hb. reflexivity.
Qed.

Lemma iteration_evolves w c : evolves w c (iteration w c).1.
Proof.
  unfold iteration. destruct (round w c) as [c1 [[]|e]] eqn:E;
    apply round_evolves in E; [exact E|].
  destruct (is_Exception e); [|exact E].
  unfold bind, emit, sleep, bind, emit.
  destruct (backoff_cancelled w); simpl;
    (eapply evolves_trans; [exact E|]); apply kept_evolves.
  - split; [reflexivity | apply same_config_refl].
  - destruct (ensure_session_spec
                (mkController (state c1) (session c1) (monitor_tickers c1)
                   (last_results c1) ((trace c1 ++ [LogException e]) ++ [Sleep 2])))
      as (_ & Hs & Hl & _).
    split; [exact Hl|]. rewrite Hs. apply same_config_refl.
Qed.

(** Without a cancellation a pass never stops the loop. *)
Lemma iteration_running w c :
  never_cancelled w -> (iteration w c).2 = Running.
Proof.
  intros Hn. unfold iteration.
  destruct (round w c) as [c1 [[]|e]] eqn:E; [reflexivity|].
  rewrite (round_raises_Exception w Hn _ _ _ E).
  destruct Hn as (_ & Hb & _). unfold bind, emit, sleep, bind, emit.
  now rewrite Hb.
Qed.

Lemma passes_running ws n i c :
  (forall j, never_cancelled (ws j)) -> (passes_from n ws i c).2 = Running.
Proof.
  intros Hn. revert i c. induction n as [|n IH]; intros i c; simpl; [reflexivity|].
  pose proof (iteration_running (ws i) c (Hn i)) as Hrun.
  destruct (iteration (ws i) c) as [c' st]. simpl in Hrun. subst st. apply IH.
Qed.

Lemma evolves_grows w c c' : evolves w c c' -> cache_grows c c'.
Proof.
  intros [_ H] g k Hs. destruct (H g) as [->|[_ ->]]; [exact Hs|].
  destruct Hs as [v Hv].
  destruct (collect w (state c) g !! k) as [v'|] eqn:E.
  - exists v'. now apply lookup_union_Some_l.
  - exists v. rewrite lookup_union_r; auto.
Qed.

Lemma passes_grow ws n i c : cache_grows c (passes_from n ws i c).1.
Proof.
  revert i c. induction n as [|n IH]; intros i c; simpl; [now intros g k|].
  pose proof (evolves_grows _ _ _ (iteration_evolves (ws i) c)) as Hg.
  destruct (iteration (ws i) c) as [c' [|e]]; simpl in *; [|exact Hg].
  intros g k Hs. apply IH, Hg, Hs.
Qed.

End LoopFacts.

(* ===================================================================== *)
(** * What a completed fetch writes *)
(* ===================================================================== *)
Section FetchedFacts.
Import Py Addr Dict Config Engine.

Lemma pools_of_snoc included inc :
  pools_of (included ++ [inc])
  = if String.eqb (inc_type inc) "pool" then <[inc_id inc := inc]> (pools_of included)
    else pools_of included.
Proof. unfold pools_of. rewrite foldl_app. reflexivity. Qed.

(** The dictionary of pools answers with the last pool of that id. *)
Lemma pools_of_lookup included pid : pools_of included !! pid = pool_of_id included pid.
Proof.
  unfold pool_of_id. induction included as [|inc included IH] using rev_ind.
  - apply lookup_empty.
  - rewrite pools_of_snoc, filter_app, filter_cons, filter_nil.
    destruct (String.eqb (inc_type inc) "pool") eqn:Ht.
    + apply String.eqb_eq in Ht. destruct (decide (inc_id inc = pid)) as [Hid|Hid].
      * rewrite decide_True by auto. rewrite last_snoc. subst pid. apply lookup_insert_eq.
      * rewrite decide_False by tauto.
        rewrite app_nil_r, lookup_insert_ne by exact Hid. exact IH.
    + apply String.eqb_neq in Ht. rewrite decide_False by tauto.
      rewrite app_nil_r. exact IH.
Qed.

Lemma parse_token_sample net included tok :
  (parse_token net (pools_of included) tok).2 = record_sample included tok.
Proof.
  unfold parse_token, record_sample. cbn [snd].
  destruct (tr_top_pools tok) as [|pid rest]; [reflexivity|].
  rewrite pools_of_lookup. destruct (pool_of_id included pid); reflexivity.
Qed.

Lemma returned_explicit w pname entries k v :
  returned w pname entries k v <-> returned_record w pname entries k v.
Proof.
  split.
  - intros (entry & data & included & tok & Hin & Hr & Ht & Hp).
    exists entry, data, included, tok. repeat (split; [assumption|]).
    rewrite <- parse_token_key with (pools := pools_of included),
            <- parse_token_sample with (net := entry.1).
    rewrite Hp. split; reflexivity.
  - intros (entry & data & included & tok & Hin & Hr & Ht & -> & ->).
    exists entry, data, included, tok. repeat (split; [assumption|]).
    rewrite <- parse_token_key with (pools := pools_of included),
            <- parse_token_sample with (net := entry.1).
    destruct (parse_token entry.1 (pools_of included) tok); reflexivity.
Qed.

Lemma for_each_app {B} (l1 l2 : list B) (body : B -> M unit) c :
  for_each (l1 ++ l2) body c
  = bind (for_each l1 body) (fun _ => for_each l2 body) c.
Proof.
  revert c. induction l1 as [|b l1 IH]; intros c; [reflexivity|].
  unfold for_each. cbn [app foldM]. unfold bind.
  destruct (body b c) as [c1 [[]|e]]; [|reflexivity].
  specialize (IH c1). unfold for_each, bind in IH. exact IH.
Qed.

Variable w : World.

Lemma batches_complete_config s s' p :
  same_config s s' -> batches_complete w s p -> batches_complete w s' p.
Proof.
  intros S H. unfold batches_complete. rewrite (same_config_tokens_for _ _ p S). exact H.
Qed.

(** A profile whose batches let nothing escape is fetched to its end, and
    its samples are laid over the previous ones. *)
Lemma fetch_profile_complete p c :
  assigned (state c) p = true -> batches_complete w (state c) p ->
  exists c', fetch_profile w p c = (c', Ok tt)
    /\ results_of c' p = collect w (state c) p ∪ results_of c p.
Proof.
  intros Ha Hc. destruct (fetch_profile w p c) as [c' r] eqn:E.
  pose proof (fetch_profile_run w p c c' r E) as [_ H]. rewrite Ha in H.
  rewrite (batches_outcome_total w p _ ∅ Hc) in H. destruct H as [-> Hl].
  exists c'. split; [reflexivity|].
  unfold results_of at 1. rewrite Hl, lookup_insert_eq. reflexivity.
Qed.

Lemma fetch_prefix_ok names c :
  (forall p, p ∈ names -> assigned (state c) p = true -> batches_complete w (state c) p) ->
  exists c', for_each names (fetch_profile w) c = (c', Ok tt).
Proof.
  revert c. induction names as [|p names IH]; intros c Hall.
  - eexists. reflexivity.
  - unfold for_each. cbn [foldM]. unfold bind.
    destruct (fetch_profile w p c) as [c1 r] eqn:E.
    pose proof (fetch_profile_run w p c c1 r E) as [S H].
    assert (r = Ok tt) as ->.
    { destruct (assigned (state c) p) eqn:Ha; [|tauto].
      rewrite (batches_outcome_total w p _ ∅ (Hall p (list_elem_of_here _ _) Ha)) in H.
      tauto. }
    apply IH. intros q Hq Haq. rewrite (same_config_assigned _ _ q S) in Haq.
    apply (batches_complete_config _ _ q S).
    apply Hall; [apply list_elem_of_further; exact Hq|exact Haq].
Qed.

Lemma merged_once (C R X Y : gmap string Sample) :
  X = C ∪ R -> Y = X \/ Y = C ∪ X -> Y = C ∪ R.
Proof.
  intros -> [->| ->]; [reflexivity|].
  rewrite (assoc_L (∪)), (idemp_L (∪)). reflexivity.
Qed.

(** Once the fetch has run through the batches of [g], its samples are in
    the cache, however the rest of the fetch ends. *)
Lemma fetch_all_fetched c c' r g :
  for_each (profile_names (state c)) (fetch_profile w) c = (c', r) ->
  assigned (state c) g = true -> fetch_completes w (state c) g ->
  results_of c' g = collect w (state c) g ∪ results_of c g.
Proof.
  intros Hrun Ha (before & after & Hnames & Hall).
  rewrite Hnames, for_each_app in Hrun.
  destruct (fetch_prefix_ok before c) as [c1 E1].
  { intros p Hp. apply Hall, elem_of_app. left. exact Hp. }
  unfold bind at 1 in Hrun. rewrite E1 in Hrun.
  pose proof (fetch_all_evolves w before _ _ _ E1) as [S1 Hev1].
  change (g :: after) with ([g] ++ after) in Hrun. rewrite for_each_app in Hrun.
  destruct (fetch_profile_complete g c1) as (c2 & E2 & Hres2).
  { rewrite (same_config_assigned _ _ g S1). exact Ha. }
  { apply (batches_complete_config _ _ g S1).
    apply Hall; [apply elem_of_app; right; apply list_elem_of_here|exact Ha]. }
  assert (for_each [g] (fetch_profile w) c1 = (c2, Ok tt)) as E2'.
  { unfold for_each. cbn [foldM]. unfold bind. rewrite E2. reflexivity. }
  unfold bind at 1 in Hrun. rewrite E2' in Hrun.
  pose proof (fetch_profile_evolves w g _ _ _ E2) as [S2 _].
  pose proof (fetch_all_evolves w after _ _ _ Hrun) as [_ Hev3].
  rewrite (same_config_collect w _ _ g S1) in Hres2.
  assert (results_of c2 g = collect w (state c) g ∪ results_of c g) as Hc2.
  { destruct (Hev1 g) as [Heq|[_ Heq]]; rewrite Heq in Hres2; [exact Hres2|].
    rewrite Hres2, (assoc_L (∪)), (idemp_L (∪)). reflexivity. }
  apply (merged_once _ _ _ _ Hc2).
  destruct (Hev3 g) as [Heq|[_ Heq]]; [left; exact Heq|right].
  rewrite Heq, (same_config_collect w _ _ g S2), (same_config_collect w _ _ g S1).
  reflexivity.
Qed.

Lemma fetch_completes_active s g :
  assigned s g = true -> fetch_completes w s g -> mon_to_profiles s <> [].
Proof.
  intros Ha (before & after & Hnames & _) He. apply mon_to_profiles_empty in He.
  assert (g ∈ assigned_profiles s) as Hin.
  { unfold assigned_profiles. apply list_elem_of_In, filter_In.
    split; [|exact Ha]. apply list_elem_of_In. rewrite Hnames.
    apply elem_of_app. right. apply list_elem_of_here. }
  rewrite He in Hin. inversion Hin.
Qed.

Lemma round_fetched c g :
  assigned (state c) g = true -> fetch_completes w (state c) g ->
  results_of (round w c).1 g = collect w (state c) g ∪ results_of c g.
Proof.
  intros Ha Hc. rewrite (round_active w c (fetch_completes_active _ _ Ha Hc)).
  unfold bind at 1.
  destruct (emit _ c) as [c1 r1] eqn:E1. apply emit_kept in E1 as [[K1 S1] ->].
  unfold bind at 1.
  destruct (for_each _ _ c1) as [c2 r2] eqn:E2.
  rewrite <- (same_config_profile_names _ _ S1) in E2.
  assert (results_of c2 g = collect w (state c) g ∪ results_of c g) as Hc2.
  { rewrite (fetch_all_fetched c1 c2 r2 g E2).
    - rewrite (same_config_collect w _ _ g S1). unfold results_of. rewrite K1. reflexivity.
    - rewrite (same_config_assigned _ _ g S1). exact Ha.
    - destruct Hc as (before & after & Hnames & Hall). exists before, after.
      split; [rewrite (same_config_profile_names _ _ S1); exact Hnames|].
      intros p Hp Hap. rewrite (same_config_assigned _ _ p S1) in Hap.
      apply (batches_complete_config _ _ p S1). apply Hall; assumption. }
  destruct r2 as [[]|e]; [|exact Hc2].
  destruct (round_tail w _ c2) as [c3 r3] eqn:E3.
  apply round_tail_run in E3 as ([K3 _] & _).
  cbn [fst]. unfold results_of in *. rewrite K3. exact Hc2.
Qed.

(** The handler of [except Exception] leaves the result cache alone. *)
Lemma iteration_results c :
  last_results (iteration w c).1 = last_results (round w c).1.
Proof.
  unfold iteration. destruct (round w c) as [c1 [[]|e]]; [reflexivity|].
  destruct (is_Exception e); [|reflexivity].
  unfold bind, emit, sleep, bind, emit, ret. destruct (backoff_cancelled w); simpl.
  - reflexivity.
  - match goal with |- last_results (_ensure_session ?x) = _ =>
      destruct (ensure_session_spec x) as (_ & _ & Hl & _); rewrite Hl end.
    reflexivity.
Qed.

End FetchedFacts.

(** C1 — an exception of class [Exception] that leaves a
    round is caught at the round boundary: it is logged, the loop sleeps
    2 seconds, the session is ensured (a new one is opened when none is
    open), and the loop goes on with the next pass; nothing else of the
    controller changes in the handler.  As long as the task is not
    cancelled, no pass stops the loop, whatever is raised within a round.
    ([CancelledError], which is not an [Exception], is how [pause_all],
    [stop_all] and [start_all] end the loop.) *)
Theorem refresh_loop_survives_exceptions :
  (forall (w : Engine.World) (c c1 : Engine.Controller) (e : Engine.exn),
      Engine.round w c = (c1, Engine.Raise e) ->
      Engine.is_Exception e = true ->
      Engine.backoff_cancelled w = false ->
      let c2 := (Engine.iteration w c).1 in
      (Engine.iteration w c).2 = Engine.Running
      /\ Engine.trace c2
         = Engine.trace c1 ++ [Engine.LogException e; Engine.Sleep 2]
           ++ match Engine.session c1 with
              | Some Engine.SessionOpen => []
              | _ => [Engine.NewSession]
              end
      /\ Engine.session c2 = Some Engine.SessionOpen
      /\ Engine.state c2 = Engine.state c1
      /\ Engine.last_results c2 = Engine.last_results c1
      /\ Engine.monitor_tickers c2 = Engine.monitor_tickers c1
      /\ forall n ws i, ws i = w ->
           Engine.passes_from (S n) ws i c = Engine.passes_from n ws (S i) c2)
  /\ (forall (n : nat) (ws : nat -> Engine.World) (c : Engine.Controller),
         (forall i, never_cancelled (ws i)) ->
         (Engine.refresh_loop n ws c).2 = Engine.Running).
Proof.
  split.
  - intros w c c1 e Hr He Hb c2. subst c2.
    rewrite (iteration_handles w c c1 e Hr He Hb). simpl.
    destruct (ensure_session_spec
                (Engine.mkController (Engine.state c1) (Engine.session c1)
                   (Engine.monitor_tickers c1) (Engine.last_results c1)
                   ((Engine.trace c1 ++ [Engine.LogException e]) ++ [Engine.Sleep 2])))
      as (Hse & Hst & Hl & Htk & Htr).
    simpl in Hst, Hl, Htk, Htr.
    split; [reflexivity|]. split; [rewrite Htr, <- !app_assoc; reflexivity|].
    split; [exact Hse|]. split; [exact Hst|]. split; [exact Hl|].
    split; [exact Htk|].
    intros n ws i Hw. simpl. rewrite Hw, (iteration_handles w c c1 e Hr He Hb).
    reflexivity.
  - intros n ws c Hn. unfold Engine.refresh_loop. now apply passes_running.
Qed.

(** A payload that is not an object raises [AttributeError] in the round;
    the handler logs it, backs off and opens the session. *)
Lemma refresh_loop_survives_exceptions_witness :
  (Engine.round garbled_world (fresh_controller two_profiles_state)).2
  = Engine.Raise Engine.AttributeError
  /\ (Engine.iteration garbled_world (fresh_controller two_profiles_state)).2
     = Engine.Running
  /\ (Engine.refresh_loop 3 (fun _ => offline_world)
        (fresh_controller two_profiles_state)).2 = Engine.Running.
Proof.
  destruct refresh_loop_survives_exceptions as [Hhandle Hrun].
  split; [vm_compute; reflexivity|]. split.
  - destruct (Engine.round garbled_world (fresh_controller two_profiles_state))
      as [c1 r] eqn:E.
    assert (r = Engine.Raise Engine.AttributeError) as ->
        by (apply (f_equal snd) in E; vm_compute in E; now rewrite <- E).
    apply (Hhandle garbled_world _ c1 Engine.AttributeError E); reflexivity.
  - apply Hrun. intros _. repeat split; discriminate.
Defined.

(** C1, taken for every exception, fails for a cancellation: [CancelledError] raised at the
    sleep of a round is not caught by [except Exception] and ends the
    loop. *)
Lemma refresh_loop_stops_when_cancelled :
  (Engine.round pausing_world (fresh_controller two_profiles_state)).2
  = Engine.Raise Engine.CancelledError
  /\ (Engine.iteration pausing_world (fresh_controller two_profiles_state)).2
     = Engine.Stopped Engine.CancelledError
  /\ (Engine.refresh_loop 5 (fun _ => pausing_world)
        (fresh_controller two_profiles_state)).2
     = Engine.Stopped Engine.CancelledError.
Proof. repeat split; vm_compute; reflexivity. Qed.

(** C10 — a pass of the loop merges into the result cache, record by
    record.  No entry is removed.  An entry that changed belongs to an
    assigned profile, its key is the key of a record in a status-200
    payload of this pass, and it now holds the sample that record
    carries.  A key that no record of those payloads has (a requested
    token missing from the response included) keeps its previous entry.
    When the fetch runs through the batches of the profile, every record
    the feed returned is written: its key holds the sample of a returned
    record of that key.  Over any number of passes no entry disappears. *)
Theorem result_cache_is_merged :
  forall (w : Engine.World) (c : Engine.Controller),
    let c' := (Engine.iteration w c).1 in
    (forall g k v,
        Engine.results_of c g !! k = Some v -> is_Some (Engine.results_of c' g !! k))
    /\ (forall g k,
           Engine.results_of c' g !! k <> Engine.results_of c g !! k ->
           assigned (Engine.state c) g = true
           /\ exists v,
                Engine.results_of c' g !! k = Some v
                /\ returned_record w g
                     (Engine.by_net (Config.tokens_for (Engine.state c) g)) k v)
    /\ (forall g k,
           (forall entry data included tok,
               entry ∈ Engine.by_net (Config.tokens_for (Engine.state c) g) ->
               Engine.http_get w g entry.1 (Engine.csv_of entry.1 entry.2)
               = Engine.Status 200 (Engine.PayloadObject data included) ->
               tok ∈ data ->
               Addr.key_for entry.1 (Engine.tr_address tok) <> k) ->
           Engine.results_of c' g !! k = Engine.results_of c g !! k)
    /\ (forall g,
           assigned (Engine.state c) g = true ->
           fetch_completes w (Engine.state c) g ->
           forall entry data included tok,
             entry ∈ Engine.by_net (Config.tokens_for (Engine.state c) g) ->
             Engine.http_get w g entry.1 (Engine.csv_of entry.1 entry.2)
             = Engine.Status 200 (Engine.PayloadObject data included) ->
             tok ∈ data ->
             exists v,
               Engine.results_of c' g !! Addr.key_for entry.1 (Engine.tr_address tok)
               = Some v
               /\ returned_record w g
                    (Engine.by_net (Config.tokens_for (Engine.state c) g))
                    (Addr.key_for entry.1 (Engine.tr_address tok)) v)
    /\ (forall n ws g k,
           is_Some (Engine.results_of c g !! k) ->
           is_Some (Engine.results_of (Engine.refresh_loop n ws c).1 g !! k)).
Proof.
  intros w c c'. pose proof (iteration_evolves w c) as Hev. fold c' in Hev.
  split; [intros g k v Hv; apply (evolves_grows _ _ _ Hev); eauto|].
  split; [|split; [|split]].
  - intros g k Hne. destruct Hev as [_ Hev].
    destruct (Hev g) as [Heq|[Ha Heq]]; [now rewrite Heq in Hne|].
    split; [exact Ha|]. rewrite Heq in Hne |- *.
    destruct (collect w (Engine.state c) g !! k) as [v|] eqn:E.
    + exists v. split; [now apply lookup_union_Some_l|].
      apply returned_explicit.
      apply gather_from in E as [E|E]; [|exact E].
      now rewrite lookup_empty in E.
    + now rewrite lookup_union_r in Hne.
  - intros g k Hno. destruct Hev as [_ Hev].
    destruct (Hev g) as [Heq|[_ Heq]]; rewrite Heq; [reflexivity|].
    apply lookup_union_r. unfold collect.
    rewrite (gather_other w g _ ∅ k); [apply lookup_empty|].
    intros v (entry & data & included & tok & Hin & Hr & Ht & Hk & _)%returned_explicit.
    exact (Hno entry data included tok Hin Hr Ht (eq_sym Hk)).
  - intros g Ha Hc entry data included tok Hin Hr Ht.
    assert (Engine.results_of c' g
            = collect w (Engine.state c) g ∪ Engine.results_of c g) as ->.
    { unfold Engine.results_of at 1. subst c'. rewrite iteration_results.
      apply (round_fetched w c g Ha Hc). }
    destruct (gather_hit w g (Engine.by_net (Config.tokens_for (Engine.state c) g)) ∅
                entry data included tok Hin Hr Ht) as [v Hv].
    rewrite parse_token_key in Hv. fold (collect w (Engine.state c) g) in Hv.
    exists v. split; [now apply lookup_union_Some_l|].
    apply returned_explicit. unfold collect in Hv.
    apply gather_from in Hv as [Hv|Hv]; [|exact Hv].
    now rewrite lookup_empty in Hv.
  - intros n ws g k Hs. unfold Engine.refresh_loop.
    apply passes_grow.
    destruct (ensure_session_spec c) as (_ & _ & Hl & _).
    unfold Engine.results_of in *. now rewrite Hl.
Qed.

(** The feed answers with the record of the first of two requested
    tokens: its entry is overwritten with the new sample, the entry of the
    token missing from the response stays, and so does the entry of a
    token that is no longer requested. *)
Lemma result_cache_is_merged_witness :
  Engine.results_of (Engine.iteration partial_world pair_controller).1 "Pair"
    !! "bsc:0xbb4cdb9cbd36b01bd1cbaebf2de08d9173bc095c"
  = Some (Engine.mkSample (Some 310.5%float) (Some 1.25%float) (Some (-0.5)%float))
  /\ Engine.results_of (Engine.iteration partial_world pair_controller).1 "Pair"
       !! "bsc:0x0e09fabb73bd3ade0a17ecc321fd13a19e81ce82"
     = Some (Engine.mkSample (Some 2.5%float) None None)
  /\ Engine.results_of (Engine.iteration partial_world pair_controller).1 "Pair"
       !! "bsc:0x55d398326f99059ff775485246999027b3197955"
     = Some (Engine.mkSample (Some 1%float) None None).
Proof.
  destruct (result_cache_is_merged partial_world pair_controller)
    as (_ & _ & Hkeep & Hwritten & _).
  assert (forall entry,
            entry ∈ Engine.by_net (Config.tokens_for (Engine.state pair_controller) "Pair")
            -> entry.1 = "bsc") as Hnet.
  { intros entry Hin. apply list_elem_of_In in Hin. vm_compute in Hin.
    destruct Hin as [<-|[]]. reflexivity. }
  split; [|split].
  - destruct (Hwritten "Pair" eq_refl) with
      (entry := ("bsc", ["0xbb4cdb9cbd36b01bd1cbaebf2de08d9173bc095c";
                         "0x0e09fabb73bd3ade0a17ecc321fd13a19e81ce82"]))
      (data := [Engine.mkTokenRecord "0xbb4cdb9cbd36b01bd1cbaebf2de08d9173bc095c"
                  (Engine.JNumeric 310.5%float) (Some "Wrapped BNB") None ["p1"]])
      (included := [Engine.mkIncluded "p1" "pool"
                      (Engine.JNumeric 1.25%float) (Engine.JNumeric (-0.5)%float)])
      (tok := Engine.mkTokenRecord "0xbb4cdb9cbd36b01bd1cbaebf2de08d9173bc095c"
                (Engine.JNumeric 310.5%float) (Some "Wrapped BNB") None ["p1"])
      as (v & Hv & (entry' & data' & included' & tok' & _ & Hr' & Ht' & _ & Hs')).
    + exists [], []. split; [reflexivity|]. intros p _ _ entry _. reflexivity.
    + vm_compute. apply list_elem_of_here.
    + reflexivity.
    + apply list_elem_of_here.
    + injection Hr' as <- <-. apply list_elem_of_singleton in Ht'. subst tok'.
      etransitivity; [exact Hv|]. rewrite Hs'. vm_compute. reflexivity.
  - rewrite Hkeep; [vm_compute; reflexivity|].
    intros entry data included tok Hin Hr Ht. rewrite (Hnet entry Hin).
    injection Hr as <- <-. apply list_elem_of_singleton in Ht. subst tok.
    vm_compute. discriminate.
  - rewrite Hkeep; [vm_compute; reflexivity|].
    intros entry data included tok Hin Hr Ht. rewrite (Hnet entry Hin).
    injection Hr as <- <-. apply list_elem_of_singleton in Ht. subst tok.
    vm_compute. discriminate.
Defined.

Section IsolationFacts.
Import Py Addr Dict Config Engine.
Variable w : World.
Variable s : State.
Variable g : string.
Hypothesis nets_colon_free :
  forall t, t ∈ tokens_for s g -> colon_free (network_id t) = true.





End IsolationFacts.




(* ===================================================================== *)
(** * Click-through of a monitor *)
(* ===================================================================== *)
Section ClickFacts.
Import Dict Config Engine.

Lemma set_initial_items_click sh tk its :
  Ticker.click_through (Ticker.set_initial_items sh tk its) = Ticker.click_through tk.
Proof.
  unfold Ticker.set_initial_items. simpl.
  apply (foldl_preserves (fun t => Ticker.click_through t = Ticker.click_through tk));
    [reflexivity | auto].
Qed.

Lemma update_items_click sh tk its :
  Ticker.click_through (Ticker.update_items sh tk its) = Ticker.click_through tk.
Proof.
  unfold Ticker.update_items. simpl.
  apply (foldl_preserves (fun t => Ticker.click_through t = Ticker.click_through tk)).
  - simpl.
    apply (foldl_preserves (fun t => Ticker.click_through t = Ticker.click_through tk)).
    + apply (foldl_preserves (fun t => Ticker.click_through t = Ticker.click_through tk));
        [reflexivity|].
      intros t it Ht. cbv beta. repeat case_match; simpl; auto.
    + intros t k Ht. case_bool_decide; simpl; auto.
  - intros t k Ht. cbv beta. repeat case_match; simpl; auto.
Qed.

(** At the end of a round: over every profile whose display target is the
    monitor. *)
Lemma refresh_ticker_click w c i tk :
  Ticker.click_through (refresh_ticker w c (i, tk)).2
  = Some (all_click_through (state c) (profiles_on (state c) i)).
Proof.
  unfold refresh_ticker. simpl. f_equal.
  now destruct (profiles_on (state c) i).
Qed.

(** In [start_all]: over the profiles assigned to the monitor. *)
Lemma start_all_click w c i tk :
  (i, tk) ∈ monitor_tickers (start_all w c) ->
  Ticker.click_through tk
  = Some (all_click_through (state c)
            (List.filter (assigned_to (state c) i) (profile_names (state c)))).
Proof.
  unfold start_all. simpl.
  intros ([j profiles] & Heq & Hin)%list_elem_of_fmap.
  injection Heq as -> ->.
  rewrite set_initial_items_click. simpl. do 2 f_equal.
  rewrite <- mon_to_profiles_lookup.
  now rewrite (dict_get_elem _ _ _ (mon_to_profiles_NoDup (state c)) Hin).
Qed.

End ClickFacts.

(** C8 — where the code departs from the claim.  [start_all] makes a
    monitor click-through exactly when every profile assigned to it
    (display target set, token list non-empty) has [click_through]; the
    end of every round recomputes it over every profile whose display
    target is the monitor, profiles without tokens included.  With "High
    Risk Assets" (one token, click-through on) and "Low Risk Assets" (no
    token, click-through off) both targeting monitor 0, the only assigned
    profile has click-through on, [start_all] makes the bar click-through,
    and the first round makes it interactive. *)
Theorem click_through_counts_unassigned_profiles :
  (forall w c i tk,
      (i, tk) ∈ Engine.monitor_tickers (Engine.start_all w c) ->
      Ticker.click_through tk
      = Some (Engine.all_click_through (Engine.state c)
                (List.filter (assigned_to (Engine.state c) i)
                   (Config.profile_names (Engine.state c)))))
  /\ (forall w c i tk,
         Ticker.click_through (Engine.refresh_ticker w c (i, tk)).2
         = Some (Engine.all_click_through (Engine.state c)
                   (Engine.profiles_on (Engine.state c) i)))
  /\ (let c1 := Engine.start_all offline_world (fresh_controller two_profiles_state) in
      let c2 := (Engine.iteration offline_world c1).1 in
      Engine.mon_to_profiles two_profiles_state = [(0, ["High Risk Assets"])]
      /\ Engine.all_click_through two_profiles_state ["High Risk Assets"] = true
      /\ Ticker.click_through <$> Dict.dict_get 0 (Engine.monitor_tickers c1)
         = Some (Some true)
      /\ (Engine.iteration offline_world c1).2 = Engine.Running
      /\ Ticker.click_through <$> Dict.dict_get 0 (Engine.monitor_tickers c2)
         = Some (Some false)).
Proof.
  split; [apply start_all_click|]. split; [apply refresh_ticker_click|].
  repeat split; vm_compute; reflexivity.
Qed.

Lemma click_through_counts_unassigned_profiles_witness :
  Ticker.click_through
    (default (Ticker.new_ticker 0 0)
       (Dict.dict_get 0
          (Engine.monitor_tickers
             (Engine.start_all offline_world (fresh_controller two_profiles_state)))))
  = Some true.
Proof.
  destruct click_through_counts_unassigned_profiles as (Hstart & _).
  rewrite (Hstart offline_world (fresh_controller two_profiles_state) 0);
    [vm_compute; reflexivity|].
  vm_compute. apply list_elem_of_here.
Defined.

(** C2 — in a round with at least one assigned profile the interval [R] is
    [max(10, maximum of refresh_sec over the profiles that have a display
    target and a non-empty token list)], no other profile counts; assigned
    intervals 30 and 15 give 30 and a single assigned interval 5 gives 10.
    It is the [R] the round logs at its start and sleeps by at its end. *)
Theorem round_interval_floor_of_assigned :
  forall (s : Config.State),
    Engine.mon_to_profiles s <> [] ->
    let R := Engine.round_interval s (Engine.mon_to_profiles s) in
    let intervals :=
      (fun p => Config.refresh_sec (Config.ps_for s p)) <$> assigned_profiles s in
    assigned_profiles s <> []
    /\ R = max_with_floor intervals
    /\ 10 <= R
    /\ (forall p, p ∈ assigned_profiles s -> Config.refresh_sec (Config.ps_for s p) <= R)
    /\ (R = 10 \/ exists p, p ∈ assigned_profiles s
                            /\ R = Config.refresh_sec (Config.ps_for s p))
    /\ (intervals = [30; 15] -> R = 30)
    /\ (intervals = [15; 30] -> R = 30)
    /\ (intervals = [5] -> R = 10)
    /\ (forall w c,
           Engine.state c = s ->
           Engine.round w c
           = Engine.bind
               (Engine.emit (Engine.LogRefreshStart (Engine.mon_to_profiles s).*1 R))
               (fun _ =>
                  Engine.bind
                    (Engine.for_each (Config.profile_names s) (Engine.fetch_profile w))
                    (fun _ => round_tail w R)) c).
Proof.
  intros s Hactive R intervals.
  assert (R = max_with_floor intervals) as HR by apply round_interval_max.
  destruct (max_with_floor_spec intervals) as (Mge & Mall & Mex).
  rewrite <- HR in Mge, Mall, Mex.
  split; [intros H; apply Hactive; now apply mon_to_profiles_empty|].
  split; [exact HR|]. split; [exact Mge|].
  split.
  { intros p Hp. apply Mall. subst intervals.
    apply list_elem_of_fmap. now exists p. }
  split.
  { destruct Mex as [Heq|Hin]; [now left|right].
    subst intervals. apply list_elem_of_fmap in Hin as (p & Heq & Hp). now exists p. }
  split; [intros Hi; rewrite HR, Hi; reflexivity|].
  split; [intros Hi; rewrite HR, Hi; reflexivity|].
  split; [intros Hi; rewrite HR, Hi; reflexivity|].
  intros w c <-. now apply round_active.
Qed.

(** Profiles with intervals 30 and 15 on monitor 0, then a lone profile
    with interval 5. *)
Lemma round_interval_floor_of_assigned_witness :
  Engine.round_interval two_intervals_state (Engine.mon_to_profiles two_intervals_state) = 30
  /\ Engine.round_interval lone_interval_state (Engine.mon_to_profiles lone_interval_state) = 10.
Proof.
  split.
  - destruct (round_interval_floor_of_assigned two_intervals_state)
      as (_ & _ & _ & _ & _ & H & _); [vm_compute; discriminate|].
    apply H. vm_compute. reflexivity.
  - destruct (round_interval_floor_of_assigned lone_interval_state)
      as (_ & _ & _ & _ & _ & _ & _ & H & _); [vm_compute; discriminate|].
    apply H. vm_compute. reflexivity.
Defined.

(* ===================================================================== *)
(** * Further properties: window style, files, screens, keys *)
(* ===================================================================== *)
Section StyleFacts.
Import Win32.

Lemma transparent_bit n : 0 <= n -> Z.testbit WS_EX_TRANSPARENT n = (n =? 5).
Proof.
  intros Hn. change WS_EX_TRANSPARENT with (2 ^ 5).
  rewrite Z.pow2_bits_eqb by lia. apply Z.eqb_sym.
Qed.

Lemma layered_bit n : 0 <= n -> Z.testbit WS_EX_LAYERED n = (n =? 19).
Proof.
  intros Hn. change WS_EX_LAYERED with (2 ^ 19).
  rewrite Z.pow2_bits_eqb by lia. apply Z.eqb_sym.
Qed.

Lemma set_click_through_bit style enable n :
  0 <= n ->
  Z.testbit (_set_click_through style enable) n
  = if n =? 5 then enable else if n =? 19 then true else Z.testbit style n.
Proof.
  intros Hn. unfold _set_click_through. destruct enable.
  - rewrite !Z.lor_spec, transparent_bit, layered_bit by lia.
    destruct (n =? 5), (n =? 19); rewrite ?orb_true_r, ?orb_false_r; reflexivity.
  - rewrite Z.land_spec, Z.lor_spec, Z.lnot_spec, transparent_bit, layered_bit by lia.
    destruct (n =? 5) eqn:E5, (n =? 19) eqn:E19; simpl;
      rewrite ?andb_true_r, ?andb_false_r, ?orb_true_r, ?orb_false_r; reflexivity.
Qed.

End StyleFacts.

(** X1 — the window style written by [_set_click_through]: the
    transparent bit (bit 5) is exactly [enable], the layered bit (bit 19) is
    always set, every other bit of the style read is kept; so the call is
    idempotent and the last of two calls decides. *)
Theorem set_click_through_style :
  forall (style : Z) (enable : bool),
    let style' := Win32._set_click_through style enable in
    Z.testbit style' 5 = enable
    /\ Z.testbit style' 19 = true
    /\ (forall n, 0 <= n -> n <> 5 -> n <> 19 ->
                  Z.testbit style' n = Z.testbit style n)
    /\ (forall again, Win32._set_click_through style' again
                      = Win32._set_click_through style again).
Proof.
  intros style enable style'. subst style'.
  split; [now rewrite set_click_through_bit by lia|].
  split; [now rewrite set_click_through_bit by lia|].
  split.
  - intros n Hn H5 H19. rewrite set_click_through_bit by lia.
    destruct (n =? 5) eqn:E5; [apply Z.eqb_eq in E5; lia|].
    destruct (n =? 19) eqn:E19; [apply Z.eqb_eq in E19; lia|]. reflexivity.
  - intros again. apply Z.bits_inj'. intros n Hn.
    rewrite !set_click_through_bit by lia.
    destruct (n =? 5), (n =? 19); reflexivity.
Qed.

Lemma set_click_through_style_witness :
  Z.testbit (Win32._set_click_through 0x100 true) 8 = true
  /\ Win32._set_click_through (Win32._set_click_through 0x100 true) false = 0x80100.
Proof.
  destruct (set_click_through_style 0x100 true) as (_ & _ & Hkeep & Hlast).
  split; [rewrite Hkeep by lia; reflexivity|].
  rewrite Hlast. reflexivity.
Defined.

Section FileFacts.
Import Py Logo.

Lemma replace_length a b s : String.length (replace a b s) = String.length s.
Proof. induction s as [|c s IH]; simpl; [reflexivity|]. now rewrite IH. Qed.

Lemma replace_colon_free s : colon_free (replace ":" "_" s) = true.
Proof.
  unfold colon_free. induction s as [|c s IH]; simpl; [reflexivity|].
  apply andb_true_iff. split; [|exact IH].
  destruct (Ascii.eqb c ":") eqn:E; [reflexivity|]. now rewrite E.
Qed.

Lemma replace_id s : colon_free s = true -> replace ":" "_" s = s.
Proof.
  unfold colon_free. induction s as [|c s IH]; simpl; [reflexivity|].
  intros [Hc Hs]%andb_true_iff. apply negb_true_iff in Hc.
  now rewrite Hc, (IH Hs).
Qed.

Lemma colon_free_app s t :
  colon_free (s +:+ t) = colon_free s && colon_free t.
Proof.
  unfold colon_free. induction s as [|c s IH]; simpl; [reflexivity|].
  now rewrite IH, andb_assoc.
Qed.

Lemma length_string_app s t :
  String.length (s +:+ t) = (String.length s + String.length t)%nat.
Proof. induction s as [|c s IH]; simpl; [reflexivity|]. now rewrite IH. Qed.

End FileFacts.

(** X2 — the logo file name of a key never contains a colon, is the key's
    length plus the 4 characters of the extension, and for a key without a
    colon is the key itself followed by the extension. *)
Theorem logo_file_name_safe :
  forall key : string,
    colon_free (Logo._logo_file_for key) = true
    /\ String.length (Logo._logo_file_for key) = (String.length key + 4)%nat
    /\ (colon_free key = true -> Logo._logo_file_for key = key +:+ ".png").
Proof.
  intros key. unfold Logo._logo_file_for.
  split; [rewrite colon_free_app, replace_colon_free; reflexivity|].
  split; [rewrite length_string_app, replace_length; reflexivity|].
  intros H. now rewrite replace_id.
Qed.

Lemma logo_file_name_safe_witness :
  Logo._logo_file_for "plain" = "plain.png".
Proof.
  destruct (logo_file_name_safe "plain") as (_ & _ & H). apply H. reflexivity.
Defined.

(** X3 — [_screen_for_index] never points outside the list of screens: a
    display index it accepts is clamped into [0 .. n-1] (an index in range
    is kept, a negative one gives the first screen, one too large the
    last), and it gives no screen exactly when no screen is attached or the
    index is [None]. *)
Theorem screen_for_index_in_range :
  forall (n : nat) (idx : option Z),
    (forall j, Screen._screen_for_index n idx = Some j -> 0 <= j < Z.of_nat n)
    /\ (forall i, 0 <= i < Z.of_nat n -> Screen._screen_for_index n (Some i) = Some i)
    /\ (forall i, i < 0 -> (0 < n)%nat -> Screen._screen_for_index n (Some i) = Some 0)
    /\ (forall i, Z.of_nat n <= i -> (0 < n)%nat ->
                  Screen._screen_for_index n (Some i) = Some (Z.of_nat n - 1))
    /\ (Screen._screen_for_index n idx = None <-> n = O \/ idx = None).
Proof.
  intros n idx. unfold Screen._screen_for_index.
  split; [|split; [|split; [|split]]].
  - intros j. destruct n; [discriminate|]. destruct idx; [|discriminate].
    intros [= <-]. lia.
  - intros i Hi. destruct n; [lia|]. f_equal. lia.
  - intros i Hi Hn. destruct n; [lia|]. f_equal. lia.
  - intros i Hi Hn. destruct n; [lia|]. f_equal. lia.
  - destruct n; [intuition|]. destruct idx; split; intros H; try discriminate; auto.
    destruct H as [H|H]; discriminate.
Qed.

Lemma screen_for_index_in_range_witness :
  Screen._screen_for_index 2 (Some 7) = Some 1
  /\ Screen._screen_for_index 2 (Some (-3)) = Some 0
  /\ Screen._screen_for_index 2 (Some 1) = Some 1.
Proof.
  destruct (screen_for_index_in_range 2 (Some 7)) as (_ & Hin & Hneg & Hbig & _).
  split; [apply Hbig; lia|]. split; [apply Hneg; lia | apply Hin; lia].
Defined.

Section KeyEquality.
Import Py Addr Config.

Lemma string_app_inj_r (p a b : string) : p +:+ a = p +:+ b -> a = b.
Proof. induction p as [|c p IH]; simpl; [auto|]. intros [= H]. auto. Qed.

Lemma normalize_token_idem t : normalize_token (normalize_token t) = normalize_token t.
Proof.
  unfold normalize_token. simpl. now rewrite normalize_address_idem.
Qed.

End KeyEquality.

(** X4 — two addresses have the same key on a network exactly when they
    have the same canonical form; and when the network ids hold no colon,
    equal keys mean the same network and the same canonical address. *)
Theorem key_for_identity :
  (forall net a b,
      Addr.key_for net a = Addr.key_for net b
      <-> Addr.normalize_address net a = Addr.normalize_address net b)
  /\ (forall net net' a b,
         colon_free net = true -> colon_free net' = true ->
         Addr.key_for net a = Addr.key_for net' b ->
         net = net' /\ Addr.normalize_address net a = Addr.normalize_address net' b).
Proof.
  split.
  - intros net a b. unfold Addr.key_for. split; [|now intros ->].
    intros H. apply string_app_inj_r in H. now apply (string_app_inj_r ":") in H.
  - intros net net' a b Hn Hn' H.
    assert (net = net') as <- by (eapply key_for_net_inj; eauto).
    split; [reflexivity|]. unfold Addr.key_for in H.
    apply string_app_inj_r in H. now apply (string_app_inj_r ":") in H.
Qed.

Lemma key_for_identity_witness :
  Addr.key_for "eth" "0xAB" = Addr.key_for "eth" "0xab".
Proof.
  destruct key_for_identity as [H _]. apply H. reflexivity.
Defined.

(* ===================================================================== *)
(** * Further properties: operations on the configuration *)
(* ===================================================================== *)
Section ProfileDictFacts.
Import Dict Config Profiles.
Context {V : Type}.

Lemma eqb_string_neg (x k : string) : negb (String.eqb x k) = true <-> x <> k.
Proof.
  rewrite negb_true_iff. destruct (String.eqb x k) eqn:E.
  - apply String.eqb_eq in E. intuition congruence.
  - apply String.eqb_neq in E. intuition.
Qed.

Lemma dict_del_elem (k : string) (d : list (string * V)) e :
  e ∈ dict_del k d <-> e ∈ d /\ e.1 <> k.
Proof.
  unfold dict_del. rewrite !list_elem_of_In, filter_In, eqb_string_neg. reflexivity.
Qed.

Lemma dict_del_names (k : string) (d : list (string * V)) p :
  p ∈ (dict_del k d).*1 <-> p ∈ d.*1 /\ p <> k.
Proof.
  rewrite !list_elem_of_fmap. split.
  - intros (e & -> & [He Hk]%dict_del_elem). split; [now exists e|exact Hk].
  - intros [(e & -> & He) Hk]. exists e. split; [reflexivity|].
    apply dict_del_elem. auto.
Qed.

Lemma dict_del_NoDup (k : string) (d : list (string * V)) :
  NoDup d.*1 -> NoDup (dict_del k d).*1.
Proof.
  induction d as [|[a b] d IH]; [auto|]. cbn [fmap list_fmap fst].
  intros [Hnin Hnd]%NoDup_cons. unfold dict_del. cbn [List.filter fst].
  destruct (negb (String.eqb a k)); [|now apply IH].
  cbn [fmap list_fmap fst]. apply NoDup_cons. split; [|now apply IH].
  intros Hin. apply Hnin. now apply (dict_del_names k d a) in Hin as [Hin _].
Qed.

Lemma dict_get_del (k p : string) (d : list (string * V)) :
  dict_get p (dict_del k d) = if decide (p = k) then None else dict_get p d.
Proof.
  induction d as [|[a b] d IH]; [now case_decide|].
  unfold dict_del in *. cbn [List.filter fst dict_get].
  destruct (String.eqb a k) eqn:E; cbn [negb].
  - apply String.eqb_eq in E. subst a. rewrite IH.
    repeat case_decide; congruence.
  - apply String.eqb_neq in E. cbn [dict_get]. rewrite IH.
    repeat case_decide; congruence.
Qed.

Lemma dict_get_None (p : string) (d : list (string * V)) :
  dict_get p d = None <-> p ∉ d.*1.
Proof.
  induction d as [|[a b] d IH]; cbn [dict_get fmap list_fmap fst].
  - split; [intros _ H; now apply elem_of_nil in H | auto].
  - rewrite not_elem_of_cons. case_decide; [intuition congruence|].
    rewrite IH. intuition.
Qed.

Lemma dict_get_snoc (p k : string) (v : V) (d : list (string * V)) :
  dict_get p (d ++ [(k, v)])
  = match dict_get p d with
    | Some x => Some x
    | None => if decide (p = k) then Some v else None
    end.
Proof.
  induction d as [|[a b] d IH]; cbn [app dict_get]; [reflexivity|].
  destruct (decide (p = a)); [reflexivity | exact IH].
Qed.

Lemma dict_has_spec (k : string) (d : list (string * V)) :
  dict_has k d = true <-> k ∈ d.*1.
Proof. unfold dict_has. apply bool_decide_eq_true. Qed.

End ProfileDictFacts.

Section CycleFacts.
Import Dict Config Profiles.

Lemma index_of_lookup (l : list string) (i : nat) (x : string) :
  NoDup l -> l !! i = Some x -> index_of x l = Some i.
Proof.
  revert i. induction l as [|y l IH]; intros i Hnd Hi; [discriminate|].
  apply NoDup_cons in Hnd as [Hnin Hnd]. cbn [index_of].
  destruct i as [|i]; simpl in Hi.
  - injection Hi as ->. now rewrite decide_True.
  - rewrite decide_False.
    + now rewrite (IH i Hnd Hi).
    + intros ->. apply Hnin. eapply list_elem_of_lookup_2. exact Hi.
Qed.

Lemma index_of_absent (l : list string) (x : string) :
  x ∉ l -> index_of x l = None.
Proof.
  induction l as [|y l IH]; [reflexivity|].
  intros [Hne Hnin]%not_elem_of_cons. cbn [index_of].
  rewrite decide_False by congruence. now rewrite (IH Hnin).
Qed.

Lemma index_of_bound (l : list string) (x : string) i :
  index_of x l = Some i -> (i < length l)%nat.
Proof.
  revert i. induction l as [|y l IH]; intros i; [discriminate|].
  cbn [index_of]. case_decide; [intros [= <-]; simpl; lia|].
  destruct (index_of x l) as [j|]; [|discriminate].
  intros [= <-]. specialize (IH j eq_refl). simpl. lia.
Qed.

(** The step of a cycle from position [i]. *)
Lemma cycle_step (s : State) (i : nat) :
  NoDup (profile_names s) ->
  profile_names s !! i = Some (active_profile s) ->
  exists name,
    profile_names s !! ((i + 1) mod length (profile_names s))%nat = Some name
    /\ cycle_active_profile s = with_active s name.
Proof.
  intros Hnd Hi. unfold cycle_active_profile.
  pose proof (lookup_lt_Some _ _ _ Hi) as Hlt.
  destruct (profile_names s) as [|n0 names] eqn:En; [simpl in Hlt; lia|].
  rewrite (index_of_lookup _ _ _ Hnd Hi).
  assert (Z.to_nat ((Z.of_nat i + 1) mod Z.of_nat (length (n0 :: names)))
          = ((i + 1) mod length (n0 :: names))%nat) as ->.
  { rewrite <- (Nat2Z.id ((i + 1) mod length (n0 :: names))).
    f_equal. rewrite Nat2Z.inj_mod. f_equal. lia. }
  destruct ((n0 :: names) !! ((i + 1) mod length (n0 :: names))%nat) as [name|] eqn:E.
  - exists name. auto.
  - apply lookup_ge_None in E.
    pose proof (Nat.mod_upper_bound (i + 1) (length (n0 :: names))) as Hb.
    simpl in *. lia.
Qed.

Lemma with_active_same (s : State) : with_active s (active_profile s) = s.
Proof. now destruct s. Qed.

Lemma cycle_iterate (s : State) (i k : nat) :
  NoDup (profile_names s) ->
  profile_names s !! i = Some (active_profile s) ->
  exists name,
    profile_names s !! ((i + k) mod length (profile_names s))%nat = Some name
    /\ Nat.iter k cycle_active_profile s = with_active s name.
Proof.
  intros Hnd Hi. pose proof (lookup_lt_Some _ _ _ Hi) as Hlt.
  induction k as [|k IH].
  - exists (active_profile s). rewrite Nat.add_0_r, Nat.mod_small by exact Hlt.
    split; [exact Hi|]. simpl. now rewrite with_active_same.
  - destruct IH as (name & Hname & Hiter). simpl. rewrite Hiter.
    destruct (cycle_step (with_active s name) ((i + k) mod length (profile_names s)))
      as (name' & Hname' & Hcycle); [exact Hnd | exact Hname|].
    exists name'. split; [|now rewrite Hcycle].
    change (profile_names (with_active s name)) with (profile_names s) in Hname'.
    rewrite <- Hname'. f_equal.
    rewrite Nat.add_succ_r, <- Nat.add_1_r.
    now rewrite Nat.Div0.add_mod_idemp_l.
Qed.

End CycleFacts.

Lemma cycle_active_profile_next_facts (s : Config.State) :
  Config.profiles (Profiles.cycle_active_profile s) = Config.profiles s
  /\ (Config.profile_names s <> [] ->
      Config.active_profile (Profiles.cycle_active_profile s) ∈ Config.profile_names s).
Proof.
  unfold Profiles.cycle_active_profile.
  destruct (Config.profile_names s) as [|n0 names] eqn:En; [split; [reflexivity|congruence]|].
  destruct ((n0 :: names) !! _) as [name|] eqn:E.
  - split; [reflexivity|]. intros _. simpl. eapply list_elem_of_lookup_2. exact E.
  - exfalso. apply lookup_ge_None in E.
    assert (0 <= (match Profiles.index_of (Config.active_profile s) (n0 :: names) with
                  | Some i => Z.of_nat i
                  | None => -1
                  end + 1) mod Z.of_nat (length (n0 :: names))
            < Z.of_nat (length (n0 :: names))) as Hb
        by (apply Z.mod_pos_bound; simpl; lia).
    lia.
Qed.

(** X5 — [cycle_active_profile] touches nothing but the active profile;
    with at least one profile the new active profile is one of the
    profiles: the next one in declaration order, the first one after the
    last, and the first one when the current active profile is unknown.
    Cycling as many times as there are profiles comes back to the start. *)
Theorem cycle_active_profile_next :
  forall s : Config.State,
    let s' := Profiles.cycle_active_profile s in
    (Config.profiles s' = Config.profiles s
     /\ Config.profile_settings s' = Config.profile_settings s
     /\ Config.token_names s' = Config.token_names s)
    /\ (Config.profile_names s <> [] ->
        Config.active_profile s' ∈ Config.profile_names s)
    /\ (forall i,
           NoDup (Config.profile_names s) ->
           Config.profile_names s !! i = Some (Config.active_profile s) ->
           Config.profile_names s !! ((i + 1) mod length (Config.profile_names s))%nat
           = Some (Config.active_profile s'))
    /\ (Config.active_profile s ∉ Config.profile_names s ->
        head (Config.profile_names s) = Some (Config.active_profile s')
        \/ Config.profile_names s = [])
    /\ (NoDup (Config.profile_names s) ->
        Config.active_profile s ∈ Config.profile_names s ->
        Nat.iter (length (Config.profile_names s)) Profiles.cycle_active_profile s = s).
Proof.
  intros s s'. subst s'.
  split; [|split; [|split; [|split]]].
  - unfold Profiles.cycle_active_profile.
    destruct (Config.profile_names s); [auto|].
    destruct (_ !! _); auto.
  - intros Hne. unfold Profiles.cycle_active_profile.
    destruct (Config.profile_names s) as [|n0 names] eqn:En; [congruence|].
    destruct ((n0 :: names) !! _) as [name|] eqn:E.
    + simpl. eapply list_elem_of_lookup_2. exact E.
    + exfalso. apply lookup_ge_None in E.
      assert (0 <= (match Profiles.index_of (Config.active_profile s) (n0 :: names) with
                    | Some i => Z.of_nat i
                    | None => -1
                    end + 1) mod Z.of_nat (length (n0 :: names))
              < Z.of_nat (length (n0 :: names))) as Hb
          by (apply Z.mod_pos_bound; simpl; lia).
      lia.
  - intros i Hnd Hi. destruct (cycle_step s i Hnd Hi) as (name & Hname & ->).
    exact Hname.
  - intros Hnin. unfold Profiles.cycle_active_profile.
    destruct (Config.profile_names s) as [|n0 names] eqn:En; [now right|].
    left. rewrite (index_of_absent _ _ Hnin). reflexivity.
  - intros Hnd Hin. apply list_elem_of_lookup_1 in Hin as [i Hi].
    destruct (cycle_iterate s i (length (Config.profile_names s)) Hnd Hi)
      as (name & Hname & ->).
    pose proof (lookup_lt_Some _ _ _ Hi) as Hlt.
    replace ((i + length (Config.profile_names s))
               mod length (Config.profile_names s))%nat with i in Hname.
    + rewrite Hi in Hname. injection Hname as <-. apply with_active_same.
    + rewrite <- (Nat.mul_1_l (length (Config.profile_names s))) at 1.
      rewrite Nat.Div0.mod_add. symmetry. now apply Nat.mod_small.
Qed.

Lemma cycle_active_profile_next_witness :
  Config.active_profile (Profiles.cycle_active_profile two_intervals_state) = "High Risk"
  /\ Nat.iter 3 Profiles.cycle_active_profile two_intervals_state = two_intervals_state.
Proof.
  destruct (cycle_active_profile_next two_intervals_state) as (_ & _ & Hnext & _ & Hback).
  split.
  - assert (Some "High Risk"
            = Some (Config.active_profile
                      (Profiles.cycle_active_profile two_intervals_state))) as H.
    { apply (Hnext 0%nat); [|reflexivity].
      apply (bool_decide_eq_true_1 _). vm_compute. reflexivity. }
    apply (f_equal (from_option id "")) in H. symmetry. exact H.
  - apply Hback.
    + apply (bool_decide_eq_true_1 _). vm_compute. reflexivity.
    + apply list_elem_of_here.
Defined.

Section SettingsFacts.
Import Dict Config Profiles Engine.

Lemma with_defaults_idem g ps : with_defaults g (with_defaults g ps) = with_defaults g ps.
Proof. reflexivity. Qed.

Lemma ps_for_store_defaults s name p :
  ps_for (store_defaults s name) p = ps_for s p.
Proof.
  unfold ps_for, _ensure_profile_settings, store_defaults. simpl.
  destruct (decide (p = name)) as [->|Hne].
  - rewrite lookup_insert_eq. reflexivity.
  - rewrite lookup_insert_ne by congruence. reflexivity.
Qed.

Lemma foldl_pointwise {A B} (f g : A -> B -> A) (l : list B) (a : A) :
  (forall a x, f a x = g a x) -> foldl f a l = foldl g a l.
Proof.
  intros Hfg. revert a. induction l as [|x l IH]; intros a; [reflexivity|].
  cbn [foldl]. now rewrite Hfg, IH.
Qed.

(** The assignment and the interval only read the settings through
    [ps_for]. *)
Lemma mon_to_profiles_ext s s' :
  profiles s' = profiles s -> (forall p, ps_for s' p = ps_for s p) ->
  mon_to_profiles s' = mon_to_profiles s
  /\ round_interval s' (mon_to_profiles s') = round_interval s (mon_to_profiles s).
Proof.
  intros Hp Hps.
  assert (forall p, tokens_for s' p = tokens_for s p) as Ht
      by (intros p; unfold tokens_for; now rewrite Hp).
  assert (mon_to_profiles s' = mon_to_profiles s) as Hm.
  { unfold mon_to_profiles, profile_names. rewrite Hp.
    apply foldl_pointwise. intros acc p. now rewrite Hps, Ht. }
  split; [exact Hm|]. rewrite Hm. unfold round_interval. f_equal.
  apply foldl_pointwise. intros R l.
  apply foldl_pointwise. intros R' p. now rewrite Hps.
Qed.

End SettingsFacts.

(** X6 — storing the defaults of a profile's settings
    ([_ensure_profile_settings]) changes no setting any reader sees, leaves
    the profiles alone, is idempotent, and so changes neither the
    assignment of profiles to monitors nor the round interval. *)
Theorem ensure_profile_settings_stable :
  forall (s : Config.State) (name : string),
    let s' := Profiles.store_defaults s name in
    (forall p, Config.ps_for s' p = Config.ps_for s p)
    /\ Config.profiles s' = Config.profiles s
    /\ Profiles.store_defaults s' name = s'
    /\ Engine.mon_to_profiles s' = Engine.mon_to_profiles s
    /\ Engine.round_interval s' (Engine.mon_to_profiles s')
       = Engine.round_interval s (Engine.mon_to_profiles s).
Proof.
  intros s name s'.
  assert (forall p, Config.ps_for s' p = Config.ps_for s p) as Hps
      by (intros p; apply ps_for_store_defaults).
  split; [exact Hps|]. split; [reflexivity|]. split.
  - subst s'. unfold Profiles.store_defaults. simpl.
    rewrite lookup_insert_eq, insert_insert_eq. reflexivity.
  - now apply mon_to_profiles_ext.
Qed.

Section EditingFacts.
Import Py Dict Config Profiles Engine.

Lemma profile_names_del name (d : list (string * list Token)) :
  (dict_del name d).*1 = List.filter (fun p => negb (String.eqb p name)) d.*1.
Proof.
  induction d as [|[a b] d IH]; [reflexivity|].
  unfold dict_del in *. cbn [List.filter fmap list_fmap fst].
  destruct (negb (String.eqb a name)); cbn [fmap list_fmap fst]; now rewrite <- IH.
Qed.

Lemma tokens_for_profiles s s' p :
  dict_get p (profiles s') = dict_get p (profiles s) ->
  tokens_for s' p = tokens_for s p.
Proof. unfold tokens_for. now intros ->. Qed.

(** ** [add_profile] *)

Lemma add_profile_accepted name s :
  let nm := strip name in
  nm <> "" -> nm ∉ profile_names s ->
  add_profile name true s
  = with_active
      (store_defaults
         (mkState (profiles s ++ [(nm, [])]) (active_profile s) (token_names s)
            (token_logos s) (profile_settings s) (settings_refresh_sec s)) nm) nm.
Proof.
  intros nm Hne Hnin. unfold add_profile. fold nm.
  apply truthy_spec in Hne. rewrite Hne. simpl.
  unfold dict_has. now rewrite bool_decide_eq_false_2.
Qed.

Lemma add_profile_wf name ok s : profiles_wf s -> profiles_wf (add_profile name ok s).
Proof.
  intros [Hnd Hin]. unfold add_profile.
  destruct (negb ok || negb (truthy (strip name))); [now split|].
  destruct (dict_has (strip name) (profiles s)) eqn:Hhas; [now split|].
  unfold dict_has in Hhas. apply bool_decide_eq_false in Hhas.
  unfold profiles_wf, profile_names. simpl. rewrite fmap_app. simpl. split.
  - apply NoDup_app. split; [exact Hnd|]. split; [|apply NoDup_singleton].
    intros x Hx ->%list_elem_of_singleton. contradiction.
  - apply elem_of_app. right. apply list_elem_of_here.
Qed.

(** ** [rename_profile] *)

Lemma rename_profile_wf old new s :
  profiles_wf s -> profiles_wf (rename_profile old new s).
Proof.
  intros [Hnd Hin]. unfold rename_profile.
  destruct (dict_has new (profiles s)) eqn:Hhas; [now split|].
  unfold dict_has in Hhas. apply bool_decide_eq_false in Hhas.
  destruct (dict_get old (profiles s)) as [toks|] eqn:Hold; [|now split].
  unfold profiles_wf, profile_names. simpl. rewrite fmap_app. simpl. split.
  - apply NoDup_app. split; [now apply dict_del_NoDup|].
    split; [|apply NoDup_singleton].
    intros x [Hx _]%dict_del_names ->%list_elem_of_singleton. contradiction.
  - apply elem_of_app. destruct (String.eqb (active_profile s) old) eqn:E.
    + right. apply list_elem_of_here.
    + left. apply dict_del_names. split; [exact Hin|]. now apply String.eqb_neq.
Qed.

(** ** [delete_profile] *)

Lemma delete_profile_wf name confirmed s :
  profiles_wf s -> profiles_wf (delete_profile name confirmed s).
Proof.
  intros [Hnd Hin]. unfold delete_profile.
  destruct (negb (dict_has name (profiles s))); [now split|].
  destruct (negb confirmed); [now split|].
  destruct (String.eqb (active_profile s) name) eqn:E.
  - destruct (dict_del name (profiles s)) as [|[first toks] rest] eqn:Hd.
    + split; [|apply list_elem_of_here].
      unfold profile_names. simpl. apply NoDup_singleton.
    + unfold profiles_wf, profile_names. simpl. fold (fst <$> rest).
      pose proof (dict_del_NoDup name (profiles s) Hnd) as Hnd'.
      rewrite Hd in Hnd'. split; [exact Hnd' | apply list_elem_of_here].
  - unfold profiles_wf, profile_names. simpl.
    split; [now apply dict_del_NoDup|].
    apply dict_del_names. split; [exact Hin|]. now apply String.eqb_neq.
Qed.

End EditingFacts.

(** X7 — the profile operations of the dashboard and the hotkey keep the
    configuration well formed: after [add_profile], [rename_profile],
    [delete_profile] and [cycle_active_profile] the profile names are still
    distinct and the active profile is still one of them; in particular
    deleting never leaves the configuration without a profile. *)
Theorem profile_operations_keep_wf :
  forall s : Config.State,
    profiles_wf s ->
    (forall name ok, profiles_wf (Profiles.add_profile name ok s))
    /\ (forall old new, profiles_wf (Profiles.rename_profile old new s))
    /\ (forall old new ok, profiles_wf (Profiles._rename_profile_dialog old new ok s))
    /\ (forall name confirmed,
           profiles_wf (Profiles.delete_profile name confirmed s)
           /\ Config.profile_names (Profiles.delete_profile name confirmed s) <> [])
    /\ profiles_wf (Profiles.cycle_active_profile s).
Proof.
  intros s Hwf.
  split; [intros; now apply add_profile_wf|].
  split; [intros; now apply rename_profile_wf|].
  split.
  { intros old new ok. unfold Profiles._rename_profile_dialog.
    destruct (negb ok); [exact Hwf|].
    destruct (_ || _); [exact Hwf | now apply rename_profile_wf]. }
  split.
  { intros name confirmed.
    pose proof (delete_profile_wf name confirmed s Hwf) as Hwf'.
    split; [exact Hwf'|]. destruct Hwf' as [_ Hin]. intros He.
    rewrite He in Hin. now apply elem_of_nil in Hin. }
  destruct Hwf as [Hnd Hin].
  destruct (cycle_active_profile_next_facts s) as (Hp & Hmem).
  assert (Config.profile_names (Profiles.cycle_active_profile s)
          = Config.profile_names s) as Hn
      by (unfold Config.profile_names; now rewrite Hp).
  split; rewrite Hn; [exact Hnd|].
  apply Hmem. intros He. rewrite He in Hin. now apply elem_of_nil in Hin.
Qed.

Lemma profile_operations_keep_wf_witness :
  profiles_wf (Profiles.delete_profile "Solo" true lone_interval_state)
  /\ Config.profile_names (Profiles.delete_profile "Solo" true lone_interval_state)
     = ["New Profile"].
Proof.
  destruct (profile_operations_keep_wf lone_interval_state) as (_ & _ & _ & Hdel & _).
  - split; [apply NoDup_singleton | apply list_elem_of_here].
  - split; [apply Hdel | reflexivity].
Defined.

(** X8 — [add_profile] does nothing when the dialog is cancelled, when the
    name is blank, or when the stripped name is already a profile; otherwise
    the stripped name is appended as the last profile, with no token, it
    becomes the active profile, and every other profile keeps its tokens
    and its settings. *)
Theorem add_profile_appends :
  forall (s : Config.State) (name : string),
    let nm := Py.strip name in
    Profiles.add_profile name false s = s
    /\ (nm = "" -> Profiles.add_profile name true s = s)
    /\ (nm ∈ Config.profile_names s -> Profiles.add_profile name true s = s)
    /\ (nm <> "" -> nm ∉ Config.profile_names s ->
        let s' := Profiles.add_profile name true s in
        Config.profile_names s' = Config.profile_names s ++ [nm]
        /\ Config.tokens_for s' nm = []
        /\ Config.active_profile s' = nm
        /\ forall p, p <> nm ->
             Config.tokens_for s' p = Config.tokens_for s p
             /\ Config.ps_for s' p = Config.ps_for s p).
Proof.
  intros s name nm.
  split; [reflexivity|]. split; [|split].
  - intros Hnm. unfold Profiles.add_profile. fold nm. rewrite Hnm. reflexivity.
  - intros Hin. unfold Profiles.add_profile. fold nm.
    destruct (negb true || negb (Engine.truthy nm)); [reflexivity|].
    unfold Profiles.dict_has. now rewrite bool_decide_eq_true_2.
  - intros Hne Hnin s'. subst s'.
    rewrite (add_profile_accepted name s Hne Hnin). fold nm.
    assert (Dict.dict_get nm (Config.profiles s) = None) as Hnone
        by now apply dict_get_None.
    split; [unfold Config.profile_names; simpl; now rewrite fmap_app|].
    split.
    { unfold Config.tokens_for. simpl. rewrite dict_get_snoc, Hnone.
      now rewrite decide_True. }
    split; [reflexivity|].
    intros p Hp. split.
    + unfold Config.tokens_for. simpl. rewrite dict_get_snoc.
      destruct (Dict.dict_get p (Config.profiles s)); [reflexivity|].
      now rewrite decide_False.
    + unfold Config.ps_for, Config._ensure_profile_settings. simpl.
      now rewrite lookup_insert_ne by congruence.
Qed.

Lemma add_profile_appends_witness :
  Profiles.add_profile "  " true lone_interval_state = lone_interval_state
  /\ Profiles.add_profile "Solo " true lone_interval_state = lone_interval_state
  /\ Config.profile_names (Profiles.add_profile " Extra " true lone_interval_state)
     = ["Solo"; "Extra"].
Proof.
  destruct (add_profile_appends lone_interval_state "  ") as (_ & Hblank & _).
  destruct (add_profile_appends lone_interval_state "Solo ") as (_ & _ & Hdup & _).
  destruct (add_profile_appends lone_interval_state " Extra ") as (_ & _ & _ & Hadd).
  split; [apply Hblank; reflexivity|].
  split; [apply Hdup; apply list_elem_of_here|].
  destruct Hadd as [Hnames _]; [vm_compute; discriminate | |exact Hnames].
  intros Hin. apply list_elem_of_singleton in Hin. vm_compute in Hin. discriminate Hin.
Defined.

(** X9 — [rename_profile] refuses a name that is already a profile and an
    unknown old name; otherwise the profile keeps its tokens under the new
    name and moves to the end of the declaration order, its stored settings
    move with it, the active profile follows the rename, and every other
    profile keeps its tokens and settings. *)
Theorem rename_profile_moves :
  forall (s : Config.State) (old new : string),
    (new ∈ Config.profile_names s -> Profiles.rename_profile old new s = s)
    /\ (old ∉ Config.profile_names s -> Profiles.rename_profile old new s = s)
    /\ (new ∉ Config.profile_names s -> old ∈ Config.profile_names s ->
        let s' := Profiles.rename_profile old new s in
        Config.profile_names s'
        = List.filter (fun p => negb (String.eqb p old)) (Config.profile_names s)
          ++ [new]
        /\ Config.tokens_for s' new = Config.tokens_for s old
        /\ Config.tokens_for s' old = []
        /\ (is_Some (Config.profile_settings s !! old) ->
            Config.ps_for s' new = Config.ps_for s old)
        /\ Config.active_profile s'
           = (if String.eqb (Config.active_profile s) old then new
              else Config.active_profile s)
        /\ forall p, p <> old -> p <> new ->
             Config.tokens_for s' p = Config.tokens_for s p
             /\ Config.ps_for s' p = Config.ps_for s p).
Proof.
  intros s old new. split; [|split].
  - intros Hin. unfold Profiles.rename_profile, Profiles.dict_has.
    now rewrite bool_decide_eq_true_2.
  - intros Hnin. unfold Profiles.rename_profile.
    destruct (Profiles.dict_has new (Config.profiles s)); [reflexivity|].
    apply dict_get_None in Hnin. now rewrite Hnin.
  - intros Hnew Hold s'. subst s'.
    assert (old <> new) as Hne by (intros ->; contradiction).
    unfold Profiles.rename_profile, Profiles.dict_has.
    rewrite bool_decide_eq_false_2 by exact Hnew.
    destruct (Dict.dict_get old (Config.profiles s)) as [toks|] eqn:Hget;
      [|apply dict_get_None in Hget; contradiction].
    apply dict_get_None in Hnew.
    split.
    { unfold Config.profile_names. simpl.
      now rewrite fmap_app, profile_names_del. }
    split.
    { unfold Config.tokens_for. simpl.
      rewrite dict_get_snoc, dict_get_del, decide_False, Hnew, decide_True, Hget
        by congruence. reflexivity. }
    split.
    { unfold Config.tokens_for. simpl.
      rewrite dict_get_snoc, dict_get_del, decide_True, decide_False by congruence.
      reflexivity. }
    split.
    { intros [ps Hps]. unfold Config.ps_for, Config._ensure_profile_settings. simpl.
      now rewrite Hps, lookup_insert_eq. }
    split; [reflexivity|].
    intros p Hpo Hpn. split.
    + unfold Config.tokens_for. simpl.
      rewrite dict_get_snoc, dict_get_del, decide_False by congruence.
      destruct (Dict.dict_get p (Config.profiles s)); [reflexivity|].
      now rewrite decide_False.
    + unfold Config.ps_for, Config._ensure_profile_settings. simpl.
      destruct (Config.profile_settings s !! old); [|reflexivity].
      now rewrite lookup_insert_ne, lookup_delete_ne by congruence.
Qed.

Lemma rename_profile_moves_witness :
  Config.profile_names (Profiles.rename_profile "Low Risk" "Bonds" two_intervals_state)
  = ["High Risk"; "Parked"; "Bonds"]
  /\ Profiles.rename_profile "Low Risk" "Parked" two_intervals_state
     = two_intervals_state.
Proof.
  destruct (rename_profile_moves two_intervals_state "Low Risk" "Bonds")
    as (_ & _ & Hmove).
  destruct (rename_profile_moves two_intervals_state "Low Risk" "Parked")
    as (Hclash & _).
  split.
  - destruct Hmove as [Hnames _]; [| |exact Hnames].
    + apply (bool_decide_eq_true_1 _). vm_compute. reflexivity.
    + apply list_elem_of_here.
  - apply Hclash. apply (bool_decide_eq_true_1 _). vm_compute. reflexivity.
Defined.

(** X10 — [delete_profile] does nothing for an unknown name or without
    confirmation; otherwise the profile's stored settings are dropped, so
    that it has no display target afterwards, every other profile keeps its
    tokens, the remaining profiles keep their order, and the active profile
    stays unless it was the deleted one, in which case the first remaining
    profile becomes active (a fresh "New Profile" when none remains). *)
Theorem delete_profile_removes :
  forall (s : Config.State) (name : string),
    Profiles.delete_profile name false s = s
    /\ (name ∉ Config.profile_names s ->
        forall confirmed, Profiles.delete_profile name confirmed s = s)
    /\ (name ∈ Config.profile_names s ->
        let s' := Profiles.delete_profile name true s in
        let rest :=
          List.filter (fun p => negb (String.eqb p name)) (Config.profile_names s) in
        Config.monitor_index (Config.ps_for s' name) = None
        /\ (forall p, p <> name -> Config.tokens_for s' p = Config.tokens_for s p)
        /\ (Config.active_profile s <> name ->
            Config.active_profile s' = Config.active_profile s
            /\ Config.profile_names s' = rest)
        /\ (Config.active_profile s = name ->
            match rest with
            | first :: _ =>
                Config.active_profile s' = first /\ Config.profile_names s' = rest
            | [] =>
                Config.active_profile s' = "New Profile"
                /\ Config.profiles s' = [("New Profile", [])]
            end)).
Proof.
  intros s name. split; [|split].
  - unfold Profiles.delete_profile. now destruct (negb _).
  - intros Hnin confirmed. unfold Profiles.delete_profile, Profiles.dict_has.
    now rewrite bool_decide_eq_false_2.
  - intros Hin s' rest. subst s' rest. unfold Config.profile_names in *.
    unfold Profiles.delete_profile, Profiles.dict_has.
    rewrite bool_decide_eq_true_2 by exact Hin. cbn [negb].
    rewrite <- profile_names_del.
    assert (forall x (d : list (string * list Config.Token)),
               (forall e, e ∈ d -> e.1 = x) ->
               forall p, p <> x -> Dict.dict_get p d = None) as Honly.
    { intros x d Hd p Hp. apply dict_get_None.
      intros (e & -> & He)%list_elem_of_fmap. now apply Hd in He. }
    destruct (String.eqb (Config.active_profile s) name) eqn:E.
    + apply String.eqb_eq in E.
      destruct (Profiles.dict_del name (Config.profiles s)) as [|[first toks] more] eqn:Hd.
      * split.
        { unfold Config.ps_for, Config._ensure_profile_settings. simpl.
          destruct (decide (name = "New Profile")) as [->|Hne].
          - rewrite lookup_insert_eq. simpl. now rewrite lookup_delete_eq.
          - now rewrite lookup_insert_ne, lookup_delete_eq by congruence. }
        split.
        { intros p Hp. unfold Config.tokens_for. simpl.
          assert (Dict.dict_get p (Config.profiles s) = None) as ->.
          { apply (Honly name); [|exact Hp]. intros e He.
            destruct (decide (e.1 = name)) as [|Hne]; [assumption|].
            assert (e ∈ Profiles.dict_del name (Config.profiles s)) as Hin'
                by (apply dict_del_elem; auto).
            rewrite Hd in Hin'. now apply elem_of_nil in Hin'. }
          case_decide; reflexivity. }
        split; [intros Hne; congruence|]. intros _. split; reflexivity.
      * split.
        { unfold Config.ps_for, Config._ensure_profile_settings. simpl.
          now rewrite lookup_delete_eq. }
        split.
        { intros p Hp. unfold Config.tokens_for. cbn [Config.profiles]. rewrite <- Hd.
          now rewrite dict_get_del, decide_False. }
        split; [intros Hne; congruence|]. intros _. split; reflexivity.
    + apply String.eqb_neq in E. split.
      { unfold Config.ps_for, Config._ensure_profile_settings. simpl.
        now rewrite lookup_delete_eq. }
      split.
      { intros p Hp. unfold Config.tokens_for. simpl.
        now rewrite dict_get_del, decide_False. }
      split; [intros _; split; reflexivity | intros He; congruence].
Qed.

Lemma delete_profile_removes_witness :
  Config.profile_names (Profiles.delete_profile "Low Risk" true two_intervals_state)
  = ["High Risk"; "Parked"]
  /\ Config.active_profile (Profiles.delete_profile "Low Risk" true two_intervals_state)
     = "High Risk"
  /\ Profiles.delete_profile "Bonds" true two_intervals_state = two_intervals_state.
Proof.
  destruct (delete_profile_removes two_intervals_state "Low Risk") as (_ & _ & Hdel).
  destruct (delete_profile_removes two_intervals_state "Bonds") as (_ & Hunknown & _).
  split; [|split].
  - destruct Hdel as (_ & _ & _ & Hact); [apply list_elem_of_here|].
    apply Hact. reflexivity.
  - destruct Hdel as (_ & _ & _ & Hact); [apply list_elem_of_here|].
    apply Hact. reflexivity.
  - apply Hunknown. apply (bool_decide_eq_true_1 _). vm_compute. reflexivity.
Defined.

(* ===================================================================== *)
(** * Further properties: the token list of a profile *)
(* ===================================================================== *)
Section RowFacts.
Import Profiles.
Context {A : Type}.
Implicit Types l : list A.

Lemma elem_of_rev {B} (x : B) (l : list B) : x ∈ rev l <-> x ∈ l.
Proof. rewrite !list_elem_of_In. symmetry. apply in_rev. Qed.

Lemma sorted_set_elem (rows : list nat) (r : nat) : r ∈ sorted_set rows <-> r ∈ rows.
Proof.
  unfold sorted_set. rewrite merge_sort_Permutation. apply elem_of_remove_dups.
Qed.

Lemma sorted_set_NoDup (rows : list nat) : NoDup (sorted_set rows).
Proof.
  unfold sorted_set. rewrite merge_sort_Permutation. apply NoDup_remove_dups.
Qed.

Lemma sorted_set_sorted (rows : list nat) : StronglySorted Nat.le (sorted_set rows).
Proof. unfold sorted_set. apply StronglySorted_merge_sort; apply _. Qed.

(** Distinct rows in increasing order, reversed: every row is larger than
    the rows after it. *)
Lemma descending_of (rs : list nat) :
  StronglySorted Nat.le rs -> NoDup rs -> StronglySorted (flip Nat.lt) (rev rs).
Proof.
  induction rs as [|r rs IH]; intros Hs Hn; [constructor|].
  apply StronglySorted_cons in Hs as [Hall Hs].
  apply NoDup_cons in Hn as [Hnin Hn].
  simpl. apply StronglySorted_app_2.
  - intros x y Hx ->%list_elem_of_singleton.
    apply (proj1 (elem_of_rev _ _)) in Hx.
    rewrite Forall_forall in Hall. specialize (Hall x Hx).
    unfold flip. assert (x <> r) by (intros ->; contradiction).
    unfold Nat.le in Hall. lia.
  - now apply IH.
  - repeat constructor.
Qed.

Lemma without_rows_ext (D D' : list nat) i l :
  (forall x, x ∈ D <-> x ∈ D') -> without_rows D i l = without_rows D' i l.
Proof.
  intros H. revert i. induction l as [|x l IH]; intros i; [reflexivity|].
  simpl. rewrite IH. rewrite (bool_decide_ext _ _ (H i)). reflexivity.
Qed.

Lemma without_rows_below (D : list nat) i l :
  (forall x, x ∈ D -> (x < i)%nat) -> without_rows D i l = l.
Proof.
  revert i. induction l as [|x l IH]; intros i H; [reflexivity|].
  simpl. rewrite bool_decide_eq_false_2.
  - f_equal. apply IH. intros y Hy. specialize (H y Hy). lia.
  - intros Hi. specialize (H i Hi). lia.
Qed.

Lemma without_rows_beyond (D : list nat) r i l :
  (i + length l <= r)%nat -> without_rows (r :: D) i l = without_rows D i l.
Proof.
  revert i. induction l as [|x l IH]; intros i H; [reflexivity|].
  simpl in *. rewrite IH by lia.
  rewrite (bool_decide_ext (i ∈ r :: D) (i ∈ D)); [reflexivity|].
  rewrite elem_of_cons. split; [intros [?|?]; [lia|assumption] | auto].
Qed.

Lemma without_rows_delete (D : list nat) i r l :
  (forall x, x ∈ D -> (x < i + r)%nat) -> (r < length l)%nat ->
  without_rows D i (delete r l) = without_rows ((i + r)%nat :: D) i l.
Proof.
  revert i r. induction l as [|x l IH]; intros i r HD Hr; [simpl in Hr; lia|].
  destruct r as [|r]; simpl.
  - rewrite bool_decide_eq_true_2
      by (rewrite Nat.add_0_r; apply list_elem_of_here).
    rewrite without_rows_below by (intros y Hy; specialize (HD y Hy); lia).
    symmetry. apply without_rows_below.
    intros y [->|Hy]%elem_of_cons; [lia|]. specialize (HD y Hy). lia.
  - simpl in Hr.
    replace (i + S r)%nat with (S i + r)%nat by lia.
    rewrite (IH (S i) r) by (try (intros y Hy; specialize (HD y Hy)); lia).
    rewrite (bool_decide_ext (i ∈ (S i + r)%nat :: D) (i ∈ D)); [reflexivity|].
    rewrite elem_of_cons. split; [intros [?|?]; [lia|assumption] | auto].
Qed.

Lemma remove_descending (D : list nat) l :
  StronglySorted (flip Nat.lt) D ->
  foldl (fun l r => if (r <? length l)%nat then delete r l else l) l D
  = without_rows D 0 l.
Proof.
  revert l. induction D as [|r D IH]; intros l Hs.
  - simpl. symmetry. apply without_rows_below. intros x Hx.
    now apply elem_of_nil in Hx.
  - apply StronglySorted_cons in Hs as [Hall Hs]. rewrite Forall_forall in Hall.
    cbn [foldl]. rewrite (IH _ Hs).
    destruct (r <? length l)%nat eqn:E.
    + apply Nat.ltb_lt in E. apply (without_rows_delete D 0 r l); [|exact E].
      intros x Hx. specialize (Hall x Hx). unfold flip in Hall. simpl. lia.
    + apply Nat.ltb_ge in E. symmetry. apply without_rows_beyond. simpl. lia.
Qed.

Lemma without_rows_length_le (D : list nat) i l :
  (length (without_rows D i l) <= length l)%nat.
Proof.
  revert i. induction l as [|x l IH]; intros i; simpl; [lia|].
  specialize (IH (S i)). case_bool_decide; simpl; lia.
Qed.

Lemma without_rows_sublist (D : list nat) i l : sublist (without_rows D i l) l.
Proof.
  revert i. induction l as [|x l IH]; intros i; simpl; [constructor|].
  case_bool_decide; [apply sublist_cons | apply sublist_skip]; apply IH.
Qed.

(** ** Swaps *)

Lemma swap_spec i j l l' :
  swap i j l = Some l' -> l' ≡ₚ l /\ length l' = length l.
Proof.
  unfold swap. destruct (l !! j) as [y|] eqn:Hj; [|discriminate].
  destruct (l !! i) as [x|] eqn:Hi; [|discriminate].
  intros [= <-]. split; [|now rewrite !length_insert].
  now apply Permutation_insert_swap.
Qed.

Lemma swap_in_range i j l :
  (i < length l)%nat -> (j < length l)%nat -> is_Some (swap i j l).
Proof.
  intros Hi Hj. unfold swap.
  destruct (lookup_lt_is_Some_2 l j Hj) as [y ->].
  destruct (lookup_lt_is_Some_2 l i Hi) as [x ->]. eauto.
Qed.

Lemma move_up_rows_perm rs l :
  (forall r, r ∈ rs -> (r < length l)%nat) ->
  exists l', move_up_rows rs l = Some l' /\ l' ≡ₚ l /\ length l' = length l.
Proof.
  revert l. induction rs as [|r rs IH]; intros l Hin; [now exists l|].
  assert (forall l', length l' = length l -> forall r', r' ∈ rs -> (r' < length l')%nat)
    as Hrest.
  { intros l' Hl r' Hr'. rewrite Hl. apply Hin. now apply list_elem_of_further. }
  destruct r as [|r]; cbn [move_up_rows]; [apply IH, (Hrest l eq_refl)|].
  assert (S r < length l)%nat as Hr by apply Hin, list_elem_of_here.
  destruct (swap_in_range r (S r) l) as [l1 Hs]; [lia|lia|]. rewrite Hs.
  apply swap_spec in Hs as [Hp Hl].
  destruct (IH l1 (Hrest l1 Hl)) as (l' & H & Hp' & Hl').
  exists l'. split; [exact H|]. split; [now rewrite Hp' | congruence].
Qed.

Lemma move_up_rows_out rs l r :
  r ∈ rs -> (0 < r)%nat -> (length l <= r)%nat -> move_up_rows rs l = None.
Proof.
  revert l. induction rs as [|r0 rs IH]; intros l Hin Hpos Hr.
  - now apply elem_of_nil in Hin.
  - apply elem_of_cons in Hin as [<-|Hin].
    + destruct r as [|r]; [lia|]. cbn [move_up_rows]. unfold swap.
      now rewrite (lookup_ge_None_2 l (S r)) by lia.
    + destruct r0 as [|r0]; cbn [move_up_rows]; [now apply IH|].
      destruct (swap r0 (S r0) l) as [l1|] eqn:Hs; [|reflexivity].
      apply swap_spec in Hs as [_ Hl]. apply IH; [exact Hin|exact Hpos|lia].
Qed.

Lemma move_down_rows_perm rs l :
  exists l', move_down_rows rs l = Some l' /\ l' ≡ₚ l /\ length l' = length l.
Proof.
  revert l. induction rs as [|r rs IH]; intros l; [now exists l|].
  cbn [move_down_rows]. destruct (length l <=? S r)%nat eqn:E; [apply IH|].
  apply Nat.leb_gt in E.
  destruct (swap_in_range (S r) r l) as [l1 Hs]; [lia|lia|]. rewrite Hs.
  apply swap_spec in Hs as [Hp Hl].
  destruct (IH l1) as (l' & H & Hp' & Hl').
  exists l'. split; [exact H|]. split; [now rewrite Hp' | congruence].
Qed.

Lemma sorted_set_single (r : nat) : sorted_set [r] = [r].
Proof. reflexivity. Qed.

Lemma swap_back r l x y :
  l !! r = Some x -> l !! S r = Some y ->
  swap r (S r) l = Some (<[S r := x]> (<[r := y]> l))
  /\ swap (S r) r (<[S r := x]> (<[r := y]> l)) = Some l.
Proof.
  intros Hx Hy. pose proof (lookup_lt_Some _ _ _ Hx) as Hlx.
  pose proof (lookup_lt_Some _ _ _ Hy) as Hly.
  split; [unfold swap; now rewrite Hy, Hx|].
  unfold swap.
  rewrite list_lookup_insert_ne by lia.
  rewrite list_lookup_insert_eq by lia.
  rewrite list_lookup_insert_eq by (rewrite length_insert; lia).
  f_equal. apply list_eq. intros k.
  destruct (decide (k = r)) as [->|Hkr].
  - rewrite list_lookup_insert_eq by (rewrite !length_insert; lia). now rewrite Hx.
  - rewrite list_lookup_insert_ne by congruence.
    destruct (decide (k = S r)) as [->|Hks].
    + rewrite list_lookup_insert_eq by (rewrite !length_insert; lia). now rewrite Hy.
    + now rewrite !list_lookup_insert_ne by congruence.
Qed.

End RowFacts.

(** X11 — [remove_selected] removes exactly the selected rows: what is
    left is the elements at the positions that are not selected, in their
    order, whatever the order and repetitions of the selection; rows beyond
    the end of the list are ignored. *)
Theorem remove_selected_rows :
  forall (A : Type) (rows : list nat) (l : list A),
    Profiles.remove_selected rows l = without_rows rows 0 l
    /\ sublist (Profiles.remove_selected rows l) l
    /\ ((forall r, r ∈ rows -> (length l <= r)%nat) ->
        Profiles.remove_selected rows l = l).
Proof.
  intros A rows l.
  assert (Profiles.remove_selected rows l = without_rows rows 0 l) as Heq.
  { unfold Profiles.remove_selected.
    rewrite remove_descending
      by (apply descending_of; [apply sorted_set_sorted | apply sorted_set_NoDup]).
    apply without_rows_ext. intros x. rewrite elem_of_rev. apply sorted_set_elem. }
  split; [exact Heq|]. rewrite Heq. split; [apply without_rows_sublist|].
  assert (forall i, (forall r, r ∈ rows -> (i + length l <= r)%nat) ->
                    without_rows rows i l = l) as H.
  { clear. intros i. revert i. induction l as [|x l IH]; intros i H; [reflexivity|].
    simpl. rewrite bool_decide_eq_false_2.
    - f_equal. apply IH. intros r Hr. specialize (H r Hr). simpl in H. lia.
    - intros Hi. specialize (H i Hi). simpl in H. lia. }
  intros Hout. apply (H 0%nat). intros r Hr. specialize (Hout r Hr). simpl. lia.
Qed.

Lemma remove_selected_rows_witness :
  Profiles.remove_selected [7; 9]%nat ["a"; "b"; "c"] = ["a"; "b"; "c"]
  /\ Profiles.remove_selected [2; 0; 2]%nat ["a"; "b"; "c"] = ["b"].
Proof.
  destruct (remove_selected_rows string [7; 9]%nat ["a"; "b"; "c"]) as (_ & _ & Hout).
  destruct (remove_selected_rows string [2; 0; 2]%nat ["a"; "b"; "c"]) as (Heq & _).
  split; [|rewrite Heq; reflexivity].
  apply Hout. intros r Hr. apply list_elem_of_In in Hr. simpl in Hr |- *.
  destruct Hr as [<-|[<-|[]]]; lia.
Defined.

(** X12 — [move_up] and [move_down] only reorder the token list: the
    result is a permutation of the list.  [move_down] always succeeds;
    [move_up] succeeds when every selected row is a row of the list and
    raises [IndexError] when a selected row other than 0 lies beyond it.
    Moving one row up and then down again restores the list. *)
Theorem move_rows_permute :
  forall (A : Type) (rows : list nat) (l : list A),
    (exists l', Profiles.move_down rows l = Some l' /\ l' ≡ₚ l)
    /\ ((forall r, r ∈ rows -> (r < length l)%nat) ->
        exists l', Profiles.move_up rows l = Some l' /\ l' ≡ₚ l)
    /\ (forall r, r ∈ rows -> (0 < r)%nat -> (length l <= r)%nat ->
                  Profiles.move_up rows l = None)
    /\ (forall r, (S r < length l)%nat ->
          exists l', Profiles.move_up [S r] l = Some l'
                     /\ l' !! r = l !! S r /\ l' !! S r = l !! r
                     /\ Profiles.move_down [r] l' = Some l).
Proof.
  intros A rows l. split; [|split; [|split]].
  - unfold Profiles.move_down. destruct (Profiles.sorted_set rows) as [|r rs] eqn:E.
    + now exists l.
    + destruct (move_down_rows_perm (rev (r :: rs)) l) as (l' & H & Hp & _). eauto.
  - intros Hin. unfold Profiles.move_up.
    destruct (Profiles.sorted_set rows) as [|r rs] eqn:E; [now exists l|].
    destruct (move_up_rows_perm (r :: rs) l) as (l' & H & Hp & _); [|eauto].
    intros x Hx. apply Hin. apply sorted_set_elem. now rewrite E.
  - intros r Hr Hpos Hlen. unfold Profiles.move_up.
    apply sorted_set_elem in Hr.
    destruct (Profiles.sorted_set rows) as [|r0 rs] eqn:E;
      [now apply elem_of_nil in Hr|].
    eapply move_up_rows_out; eauto.
  - intros r Hr.
    destruct (lookup_lt_is_Some_2 l r) as [x Hx]; [lia|].
    destruct (lookup_lt_is_Some_2 l (S r)) as [y Hy]; [lia|].
    destruct (swap_back r l x y Hx Hy) as [Hup Hdown].
    exists (<[S r := x]> (<[r := y]> l)).
    unfold Profiles.move_up, Profiles.move_down. rewrite !sorted_set_single.
    cbn [rev app Profiles.move_up_rows Profiles.move_down_rows].
    rewrite Hup. split; [reflexivity|].
    split; [rewrite list_lookup_insert_ne, list_lookup_insert_eq by lia; congruence|].
    split; [rewrite list_lookup_insert_eq by (rewrite length_insert; lia); congruence|].
    rewrite !length_insert.
    destruct (length l <=? S r)%nat eqn:E; [apply Nat.leb_le in E; lia|].
    now rewrite Hdown.
Qed.

Lemma move_rows_permute_witness :
  Profiles.move_up [1; 2]%nat ["a"; "b"; "c"] = Some ["b"; "c"; "a"]
  /\ Profiles.move_up [5]%nat ["a"; "b"; "c"] = None.
Proof.
  destruct (move_rows_permute string [1; 2]%nat ["a"; "b"; "c"]) as (_ & Hup & _).
  destruct (move_rows_permute string [5]%nat ["a"; "b"; "c"]) as (_ & _ & Hout & _).
  split.
  - destruct Hup as (l' & H & _);
      [|rewrite H; vm_compute in H; injection H as <-; reflexivity].
    intros r Hr. apply list_elem_of_In in Hr. simpl in Hr |- *.
    destruct Hr as [<-|[<-|[]]]; lia.
  - apply (Hout 5%nat); [apply list_elem_of_here | lia | simpl; lia].
Defined.

(* ===================================================================== *)
(** * The item list of a ticker *)
(* ===================================================================== *)
Section TickerItems.
Variable sh : list Ticker.TokenItemWidget -> Z.

Lemma update_items_unfold (tk : Ticker.MonitorTicker) (its : list Ticker.Item) :
  Ticker.update_items sh tk its =
  let tk1 := foldl step_new tk its in
  let tk2 := foldl (step_gone (Ticker.key <$> its)) tk1 (Ticker.order tk1) in
  let tk3 := foldl (step_fill (as_dict_of its))
               (Ticker.with_items tk2 (Ticker.items tk2) (Ticker.key <$> its) [])
               (Ticker.key <$> its) in
  Ticker._update_marquee_state sh (Ticker._layout_track sh tk3).
Proof. reflexivity. Qed.

Lemma with_items_eta (tk : Ticker.MonitorTicker) :
  Ticker.with_items tk (Ticker.items tk) (Ticker.order tk) (Ticker.hbox tk) = tk.
Proof. destruct tk; reflexivity. Qed.

Lemma as_dict_snoc (its : list Ticker.Item) (x : Ticker.Item) :
  as_dict_of (its ++ [x]) = <[Ticker.key x := x]> (as_dict_of its).
Proof. unfold as_dict_of. rewrite foldl_app. reflexivity. Qed.

Lemma as_dict_key (its : list Ticker.Item) (k : string) (it : Ticker.Item) :
  as_dict_of its !! k = Some it -> Ticker.key it = k /\ it ∈ its.
Proof.
  induction its as [|x its IH] using rev_ind.
  - unfold as_dict_of; simpl. rewrite lookup_empty. discriminate.
  - rewrite as_dict_snoc. destruct (decide (Ticker.key x = k)) as [<-|Hne].
    + rewrite lookup_insert_eq. intros [= <-]. split; [reflexivity|].
      apply elem_of_app. right. apply list_elem_of_here.
    + rewrite lookup_insert_ne by exact Hne. intros H. destruct (IH H) as [Hk Hin].
      split; [exact Hk|]. apply elem_of_app. left. exact Hin.
Qed.

Lemma as_dict_dom (its : list Ticker.Item) (k : string) :
  k ∈ Ticker.key <$> its -> is_Some (as_dict_of its !! k).
Proof.
  induction its as [|x its IH] using rev_ind.
  - intros H. inversion H.
  - rewrite fmap_app, as_dict_snoc. intros H.
    destruct (decide (Ticker.key x = k)) as [<-|Hne].
    + rewrite lookup_insert_eq. eauto.
    + rewrite lookup_insert_ne by exact Hne. apply IH.
      apply elem_of_app in H as [H|H]; [exact H|].
      apply list_elem_of_singleton in H. congruence.
Qed.

Lemma as_dict_own (its : list Ticker.Item) (it : Ticker.Item) :
  NoDup (Ticker.key <$> its) -> it ∈ its -> as_dict_of its !! Ticker.key it = Some it.
Proof.
  induction its as [|x its IH] using rev_ind.
  - intros _ H. inversion H.
  - rewrite fmap_app, as_dict_snoc. intros Hnd Hin.
    apply NoDup_app in Hnd as (Hnd & Hfresh & _).
    apply elem_of_app in Hin as [Hin|Hin].
    + rewrite lookup_insert_ne; [apply IH; assumption|].
      intros Heq. apply (Hfresh (Ticker.key it)).
      * apply list_elem_of_fmap. exists it. split; [reflexivity|exact Hin].
      * rewrite <- Heq. simpl. apply list_elem_of_here.
    + apply list_elem_of_singleton in Hin. subst it. apply lookup_insert_eq.
Qed.

(** First loop of [update_items]. *)
Lemma step_new_run (its : list Ticker.Item) (tk : Ticker.MonitorTicker) :
  ticker_wf tk ->
  ticker_wf (foldl step_new tk its)
  /\ (forall k, is_Some (Ticker.items tk !! k) ->
                is_Some (Ticker.items (foldl step_new tk its) !! k))
  /\ (forall k, k ∈ Ticker.key <$> its ->
                is_Some (Ticker.items (foldl step_new tk its) !! k))
  /\ foldl step_new tk its =
     Ticker.with_items tk (Ticker.items (foldl step_new tk its))
       (Ticker.order (foldl step_new tk its)) (Ticker.hbox (foldl step_new tk its)).
Proof.
  revert tk. induction its as [|it its IH]; intros tk Hwf.
  - simpl. split; [exact Hwf|]. split; [auto|]. split.
    + intros k H. inversion H.
    + symmetry. apply with_items_eta.
  - cbn [foldl].
    assert (ticker_wf (step_new tk it)
            /\ (forall k, is_Some (Ticker.items tk !! k) ->
                          is_Some (Ticker.items (step_new tk it) !! k))
            /\ is_Some (Ticker.items (step_new tk it) !! Ticker.key it)
            /\ step_new tk it =
               Ticker.with_items tk (Ticker.items (step_new tk it))
                 (Ticker.order (step_new tk it)) (Ticker.hbox (step_new tk it)))
      as (Hwf1 & Hmono & Hhere & Hframe).
    { unfold step_new. destruct (Ticker.items tk !! Ticker.key it) as [w|] eqn:Hk.
      - split; [exact Hwf|]. split; [auto|]. split; [rewrite Hk; eauto|].
        symmetry. apply with_items_eta.
      - destruct Hwf as [Hkeyed Hdom]. split; [split|split; [|split]].
        + intros k w. cbn [Ticker.with_items Ticker.items].
          destruct (decide (Ticker.key it = k)) as [<-|Hne].
          * rewrite lookup_insert_eq. intros [= <-]. reflexivity.
          * rewrite lookup_insert_ne by exact Hne. apply Hkeyed.
        + intros k. cbn [Ticker.with_items Ticker.items Ticker.order].
          destruct (decide (Ticker.key it = k)) as [<-|Hne].
          * intros _. apply elem_of_app. right. apply list_elem_of_here.
          * rewrite lookup_insert_ne by exact Hne. intros H.
            apply elem_of_app. left. apply Hdom. exact H.
        + intros k H. cbn [Ticker.with_items Ticker.items].
          destruct (decide (Ticker.key it = k)) as [<-|Hne].
          * rewrite lookup_insert_eq. eauto.
          * rewrite lookup_insert_ne by exact Hne. exact H.
        + cbn [Ticker.with_items Ticker.items]. rewrite lookup_insert_eq. eauto.
        + reflexivity. }
    destruct (IH _ Hwf1) as (Hwf2 & Hmono2 & Hall & Hframe2).
    split; [exact Hwf2|]. split; [auto|]. split.
    + intros k Hin. rewrite fmap_cons in Hin. apply elem_of_cons in Hin as [->|Hin].
      * apply Hmono2. exact Hhere.
      * apply Hall. exact Hin.
    + rewrite Hframe2 at 1. rewrite Hframe at 1. reflexivity.
Qed.

(** Second loop of [update_items]. *)
Lemma step_gone_run (inc L : list string) (t : Ticker.MonitorTicker) :
  (forall k, Ticker.items (foldl (step_gone inc) t L) !! k =
             if bool_decide (k ∈ L /\ k ∉ inc) then None else Ticker.items t !! k)
  /\ foldl (step_gone inc) t L =
     Ticker.with_items t (Ticker.items (foldl (step_gone inc) t L))
       (Ticker.order (foldl (step_gone inc) t L)) (Ticker.hbox (foldl (step_gone inc) t L)).
Proof.
  revert t. induction L as [|x L IH]; intros t.
  - cbn [foldl]. split.
    + intros k. rewrite bool_decide_eq_false_2; [reflexivity|].
      intros [H _]. inversion H.
    + symmetry. apply with_items_eta.
  - cbn [foldl]. destruct (IH (step_gone inc t x)) as [Hlook Hframe]. split.
    + intros k. rewrite Hlook. unfold step_gone.
      destruct (bool_decide (x ∈ inc)) eqn:Hx.
      * apply bool_decide_eq_true_1 in Hx.
        destruct (bool_decide (k ∈ L /\ k ∉ inc)) eqn:HL.
        -- apply bool_decide_eq_true_1 in HL. rewrite bool_decide_eq_true_2; [reflexivity|].
           split; [apply list_elem_of_further|]; tauto.
        -- apply bool_decide_eq_false_1 in HL. rewrite bool_decide_eq_false_2; [reflexivity|].
           intros [Hin Hout]. apply elem_of_cons in Hin as [->|Hin]; tauto.
      * apply bool_decide_eq_false_1 in Hx. cbn [Ticker.with_items Ticker.items].
        destruct (bool_decide (k ∈ L /\ k ∉ inc)) eqn:HL.
        -- apply bool_decide_eq_true_1 in HL. rewrite bool_decide_eq_true_2; [reflexivity|].
           split; [apply list_elem_of_further|]; tauto.
        -- apply bool_decide_eq_false_1 in HL. destruct (decide (x = k)) as [->|Hne].
           ++ rewrite lookup_delete_eq. rewrite bool_decide_eq_true_2; [reflexivity|].
              split; [apply list_elem_of_here|exact Hx].
           ++ rewrite lookup_delete_ne by exact Hne.
              rewrite bool_decide_eq_false_2; [reflexivity|].
              intros [Hin Hout]. apply elem_of_cons in Hin as [->|Hin]; [congruence|tauto].
    + rewrite Hframe at 1. unfold step_gone at 1.
      destruct (bool_decide (x ∈ inc)); reflexivity.
Qed.

(** Third loop of [update_items]. *)
Lemma step_fill_run (d : gmap string Ticker.Item) (L : list string) (t : Ticker.MonitorTicker) :
  (forall k w, Ticker.items t !! k = Some w -> Ticker.w_key w = k) ->
  (forall k, k ∈ L -> is_Some (Ticker.items t !! k) /\ is_Some (d !! k)) ->
  (forall k, Ticker.items (foldl (step_fill d) t L) !! k =
             if bool_decide (k ∈ L) then restyled k <$> d !! k else Ticker.items t !! k)
  /\ Ticker.hbox (foldl (step_fill d) t L) =
     Ticker.hbox t ++ omap (fun k => restyled k <$> d !! k) L
  /\ foldl (step_fill d) t L =
     Ticker.with_items t (Ticker.items (foldl (step_fill d) t L))
       (Ticker.order t) (Ticker.hbox (foldl (step_fill d) t L)).
Proof.
  revert t. induction L as [|x L IH]; intros t Hkeyed Hall.
  - cbn [foldl omap list_omap]. split; [|split].
    + intros k. rewrite bool_decide_eq_false_2; [reflexivity|]. intros H; inversion H.
    + rewrite app_nil_r. reflexivity.
    + symmetry. apply with_items_eta.
  - cbn [foldl omap list_omap].
    destruct (Hall x (list_elem_of_here _ _)) as [[w Hw] [it Hit]].
    assert (step_fill d t x =
            Ticker.with_items t (<[x := restyled x it]> (Ticker.items t))
              (Ticker.order t) (Ticker.hbox t ++ [restyled x it])) as Hstep.
    { unfold step_fill. rewrite Hw, Hit. rewrite (Hkeyed _ _ Hw). reflexivity. }
    rewrite Hstep.
    destruct (IH (Ticker.with_items t (<[x := restyled x it]> (Ticker.items t))
                    (Ticker.order t) (Ticker.hbox t ++ [restyled x it])))
      as (Hlook & Hbox & Hframe).
    { intros k w'. cbn [Ticker.with_items Ticker.items].
      destruct (decide (x = k)) as [->|Hne].
      - rewrite lookup_insert_eq. intros [= <-]. reflexivity.
      - rewrite lookup_insert_ne by exact Hne. apply Hkeyed. }
    { intros k Hin. destruct (Hall k (list_elem_of_further _ _ _ Hin)) as [Hs Hd].
      split; [|exact Hd]. cbn [Ticker.with_items Ticker.items].
      destruct (decide (x = k)) as [->|Hne].
      - rewrite lookup_insert_eq. eauto.
      - rewrite lookup_insert_ne by exact Hne. exact Hs. }
    split; [|split].
    + intros k. rewrite Hlook. cbn [Ticker.with_items Ticker.items].
      destruct (bool_decide (k ∈ L)) eqn:HL.
      * apply bool_decide_eq_true_1 in HL. rewrite bool_decide_eq_true_2; [reflexivity|].
        apply list_elem_of_further. exact HL.
      * apply bool_decide_eq_false_1 in HL. destruct (decide (x = k)) as [->|Hne].
        -- rewrite lookup_insert_eq. rewrite bool_decide_eq_true_2 by apply list_elem_of_here.
           rewrite Hit. reflexivity.
        -- rewrite lookup_insert_ne by exact Hne. rewrite bool_decide_eq_false_2; [reflexivity|].
           intros Hin. apply elem_of_cons in Hin as [->|Hin]; [congruence|tauto].
    + rewrite Hbox. cbn [Ticker.with_items Ticker.hbox]. rewrite Hit. simpl.
      rewrite <- app_assoc. reflexivity.
    + rewrite Hframe at 1. reflexivity.
Qed.

(** The loop of [set_initial_items]. *)
Lemma initial_fill_run (its : list Ticker.Item) (t : Ticker.MonitorTicker) :
  let step := fun (t : Ticker.MonitorTicker) (it : Ticker.Item) =>
    Ticker.with_items t (<[Ticker.key it := Ticker.new_widget it]> (Ticker.items t))
      (Ticker.order t ++ [Ticker.key it]) (Ticker.hbox t ++ [Ticker.new_widget it]) in
  foldl step t its =
  Ticker.with_items t
    (foldl (fun m it => <[Ticker.key it := Ticker.new_widget it]> m) (Ticker.items t) its)
    (Ticker.order t ++ (Ticker.key <$> its))
    (Ticker.hbox t ++ (Ticker.new_widget <$> its)).
Proof.
  intros step. revert t. induction its as [|it its IH]; intros t.
  - simpl. rewrite !app_nil_r. symmetry. apply with_items_eta.
  - cbn [foldl]. rewrite IH. subst step. cbv beta.
    cbn [Ticker.with_items Ticker.items Ticker.order Ticker.hbox fmap list_fmap].
    rewrite <- !app_assoc. reflexivity.
Qed.

Lemma widgets_of_dict (its : list Ticker.Item) :
  foldl (fun m it => <[Ticker.key it := Ticker.new_widget it]> m)
        (∅ : gmap string Ticker.TokenItemWidget) its
  = Ticker.new_widget <$> as_dict_of its.
Proof.
  induction its as [|x its IH] using rev_ind.
  - unfold as_dict_of; simpl. rewrite fmap_empty. reflexivity.
  - rewrite foldl_app, as_dict_snoc, fmap_insert. cbn [foldl]. rewrite IH. reflexivity.
Qed.

Lemma set_initial_items_unfold (tk : Ticker.MonitorTicker) (its : list Ticker.Item) :
  Ticker.set_initial_items sh tk its =
  Ticker._update_marquee_state sh (Ticker._layout_track sh
    (Ticker.with_items tk (Ticker.new_widget <$> as_dict_of its)
       (Ticker.key <$> its) (Ticker.new_widget <$> its))).
Proof.
  unfold Ticker.set_initial_items. cbv zeta.
  rewrite (initial_fill_run its (Ticker.with_items tk ∅ [] [])).
  cbn [Ticker.with_items Ticker.items Ticker.order Ticker.hbox app].
  rewrite widgets_of_dict. reflexivity.
Qed.

Lemma restyled_own (its : list Ticker.Item) (k : string) :
  restyled k <$> as_dict_of its !! k = Ticker.new_widget <$> as_dict_of its !! k.
Proof.
  destruct (as_dict_of its !! k) as [it|] eqn:Hk; [|reflexivity].
  apply as_dict_key in Hk as [<- _]. reflexivity.
Qed.

(** What [update_items] leaves in the three collections. *)
Lemma update_items_collections (tk : Ticker.MonitorTicker) (its : list Ticker.Item) :
  ticker_wf tk ->
  Ticker.update_items sh tk its =
  Ticker._update_marquee_state sh (Ticker._layout_track sh
    (Ticker.with_items tk (Ticker.new_widget <$> as_dict_of its)
       (Ticker.key <$> its)
       (omap (fun k => restyled k <$> as_dict_of its !! k) (Ticker.key <$> its)))).
Proof.
  intros Hwf. rewrite update_items_unfold. cbv zeta.
  destruct (step_new_run its tk Hwf) as ((Hkeyed1 & Hdom1) & _ & Hall1 & Hframe1).
  set (tk1 := foldl step_new tk its) in *.
  destruct (step_gone_run (Ticker.key <$> its) (Ticker.order tk1) tk1) as [Hlook2 Hframe2].
  set (tk2 := foldl (step_gone (Ticker.key <$> its)) tk1 (Ticker.order tk1)) in *.
  destruct (step_fill_run (as_dict_of its) (Ticker.key <$> its)
              (Ticker.with_items tk2 (Ticker.items tk2) (Ticker.key <$> its) []))
    as (Hlook3 & Hbox3 & Hframe3).
  { intros k w. cbn [Ticker.with_items Ticker.items]. rewrite Hlook2.
    destruct (bool_decide _); [discriminate|]. apply Hkeyed1. }
  { intros k Hin. split; [|apply as_dict_dom; exact Hin].
    cbn [Ticker.with_items Ticker.items]. rewrite Hlook2.
    rewrite bool_decide_eq_false_2 by tauto. apply Hall1. exact Hin. }
  set (tk3 := foldl (step_fill _) _ _) in *.
  f_equal. f_equal. rewrite Hframe3.
  cbn [Ticker.with_items Ticker.items Ticker.order Ticker.hbox] in *.
  rewrite Hbox3. simpl.
  assert (Ticker.items tk3 = Ticker.new_widget <$> as_dict_of its) as ->.
  { apply map_eq. intros k. rewrite Hlook3, lookup_fmap.
    destruct (bool_decide (k ∈ Ticker.key <$> its)) eqn:Hin.
    - apply restyled_own.
    - apply bool_decide_eq_false_1 in Hin. rewrite Hlook2.
      assert (as_dict_of its !! k = None) as ->.
      { destruct (as_dict_of its !! k) as [it|] eqn:Hk; [|reflexivity].
        apply as_dict_key in Hk as [<- Hk]. exfalso. apply Hin.
        apply list_elem_of_fmap. exists it. split; [reflexivity|exact Hk]. }
      simpl. destruct (bool_decide _) eqn:Hb; [reflexivity|].
      apply bool_decide_eq_false_1 in Hb.
      destruct (Ticker.items tk1 !! k) eqn:Hk; [|reflexivity].
      exfalso. apply Hb. split; [|exact Hin]. apply Hdom1. rewrite Hk. eauto. }
  rewrite Hframe2, Hframe1. reflexivity.
Qed.

Lemma refilled_own (its : list Ticker.Item) :
  NoDup (Ticker.key <$> its) ->
  omap (fun k => restyled k <$> as_dict_of its !! k) (Ticker.key <$> its)
  = Ticker.new_widget <$> its.
Proof.
  intros Hnd.
  assert (forall l : list Ticker.Item, (forall it, it ∈ l -> it ∈ its) ->
            omap (fun k => restyled k <$> as_dict_of its !! k) (Ticker.key <$> l)
            = Ticker.new_widget <$> l) as H.
  { induction l as [|x l IH]; intros Hsub; [reflexivity|].
    cbn [fmap list_fmap omap list_omap].
    rewrite (as_dict_own its x Hnd (Hsub x (list_elem_of_here _ _))). simpl.
    f_equal. apply IH. intros it Hin. apply Hsub. apply list_elem_of_further. exact Hin. }
  apply H. auto.
Qed.

Lemma collections_wf (tk : Ticker.MonitorTicker) (its : list Ticker.Item)
    (hb : list Ticker.TokenItemWidget) :
  ticker_wf (Ticker._update_marquee_state sh (Ticker._layout_track sh
    (Ticker.with_items tk (Ticker.new_widget <$> as_dict_of its) (Ticker.key <$> its) hb))).
Proof.
  split; cbn [Ticker._update_marquee_state Ticker._layout_track Ticker.with_items
              Ticker.items Ticker.order]; intros k.
  - intros w. rewrite lookup_fmap. destruct (as_dict_of its !! k) as [it|] eqn:Hk; [|discriminate].
    intros [= <-]. apply as_dict_key in Hk as [<- _]. reflexivity.
  - rewrite lookup_fmap. destruct (as_dict_of its !! k) as [it|] eqn:Hk.
    + intros _. apply as_dict_key in Hk as [<- Hk].
      apply list_elem_of_fmap. exists it. split; [reflexivity|exact Hk].
    + intros [? H]. discriminate.
Qed.

(** X13 ([MonitorTicker.update_items], [set_initial_items]): on a consistent
    ticker, an update with items of distinct keys leaves the ticker exactly
    as a fresh fill with the same items would: the layout holds one widget
    per item, in the order of the items, with the text and logo flag of its
    item; [order] is the list of the keys; [items] maps every key to its
    widget and nothing else. *)
Theorem update_items_reconciles (tk : Ticker.MonitorTicker) (its : list Ticker.Item) :
  ticker_wf tk ->
  NoDup (Ticker.key <$> its) ->
  Ticker.update_items sh tk its = Ticker.set_initial_items sh tk its
  /\ Ticker.hbox (Ticker.update_items sh tk its) = Ticker.new_widget <$> its
  /\ Ticker.order (Ticker.update_items sh tk its) = Ticker.key <$> its
  /\ (forall it, it ∈ its ->
        Ticker.items (Ticker.update_items sh tk its) !! Ticker.key it
        = Some (Ticker.new_widget it))
  /\ (forall k, k ∉ Ticker.key <$> its ->
        Ticker.items (Ticker.update_items sh tk its) !! k = None).
Proof.
  intros Hwf Hnd.
  rewrite (update_items_collections tk its Hwf), set_initial_items_unfold.
  rewrite (refilled_own its Hnd).
  cbn [Ticker._update_marquee_state Ticker._layout_track Ticker.with_items
       Ticker.items Ticker.order Ticker.hbox].
  split; [reflexivity|]. split; [reflexivity|]. split; [reflexivity|]. split.
  - intros it Hin. rewrite lookup_fmap, (as_dict_own its it Hnd Hin). reflexivity.
  - intros k Hout. rewrite lookup_fmap.
    destruct (as_dict_of its !! k) as [it|] eqn:Hk; [|reflexivity].
    apply as_dict_key in Hk as [<- Hk]. exfalso. apply Hout.
    apply list_elem_of_fmap. exists it. split; [reflexivity|exact Hk].
Qed.

(** ** What every ticker satisfies *)

Lemma refilled_keys (its : list Ticker.Item) :
  Ticker.w_key <$> omap (fun k => restyled k <$> as_dict_of its !! k) (Ticker.key <$> its)
  = Ticker.key <$> its.
Proof.
  assert (forall l : list string, (forall k, k ∈ l -> is_Some (as_dict_of its !! k)) ->
            Ticker.w_key <$> omap (fun k => restyled k <$> as_dict_of its !! k) l = l) as H.
  { induction l as [|k l IH]; intros Hall; [reflexivity|].
    cbn [omap list_omap]. destruct (Hall k (list_elem_of_here _ _)) as [it ->].
    cbn [fmap option_fmap option_map list_fmap restyled Ticker.w_key].
    f_equal. apply IH. intros k' Hin. apply Hall. apply list_elem_of_further. exact Hin. }
  apply H. intros k. apply as_dict_dom.
Qed.

Lemma collections_rest (tk : Ticker.MonitorTicker) its ord hb :
  ticker_rest tk ->
  ticker_rest (Ticker._update_marquee_state sh (Ticker._layout_track sh
                 (Ticker.with_items tk its ord hb))).
Proof.
  unfold ticker_rest.
  cbn [Ticker._update_marquee_state Ticker._layout_track Ticker.with_items
       Ticker._marquee Ticker._offset Ticker.order Ticker.hbox Ticker.container_width].
  intros Hrest ->. cbn [negb andb].
  destruct (Ticker._marquee tk); [reflexivity|auto].
Qed.

Lemma collections_filed (tk : Ticker.MonitorTicker) (its : list Ticker.Item) :
  NoDup (Ticker.key <$> its) ->
  let tk' := Ticker._update_marquee_state sh (Ticker._layout_track sh
               (Ticker.with_items tk (Ticker.new_widget <$> as_dict_of its)
                  (Ticker.key <$> its) (Ticker.new_widget <$> its))) in
  ticker_shown tk' /\ NoDup (Ticker.order tk') /\ ticker_filed tk'.
Proof.
  intros Hnd. cbv zeta. unfold ticker_shown, ticker_filed.
  cbn [Ticker._update_marquee_state Ticker._layout_track Ticker.with_items
       Ticker.hbox Ticker.order Ticker.items].
  split; [rewrite <- list_fmap_compose; reflexivity|]. split; [exact Hnd|].
  intros w' (it & -> & Hin)%list_elem_of_fmap.
  cbn [Ticker.new_widget Ticker.w_key]. rewrite lookup_fmap.
  rewrite (as_dict_own its it Hnd Hin). reflexivity.
Qed.

Lemma apply_op_invariant (tk : Ticker.MonitorTicker) (op : ticker_op) :
  distinct_keys op ->
  ticker_wf tk /\ ticker_shown tk /\ NoDup (Ticker.order tk) /\ ticker_filed tk
  /\ ticker_rest tk ->
  (ticker_wf (apply_op sh tk op) /\ ticker_shown (apply_op sh tk op)
   /\ NoDup (Ticker.order (apply_op sh tk op)) /\ ticker_filed (apply_op sh tk op)
   /\ ticker_rest (apply_op sh tk op))
  /\ Ticker.monitor_index (apply_op sh tk op) = Ticker.monitor_index tk.
Proof.
  intros Hd (Hwf & Hshown & Hnd & Hfiled & Hrest).
  destruct op as [its|its| | |b]; cbn [apply_op].
  - rewrite set_initial_items_unfold.
    destruct (collections_filed tk its Hd) as (Hs & Hn & Hf).
    split; [|reflexivity]. split; [apply collections_wf|].
    split; [exact Hs|]. split; [exact Hn|]. split; [exact Hf|].
    apply collections_rest. exact Hrest.
  - rewrite (update_items_collections tk its Hwf), (refilled_own its Hd).
    destruct (collections_filed tk its Hd) as (Hs & Hn & Hf).
    split; [|reflexivity]. split; [apply collections_wf|].
    split; [exact Hs|]. split; [exact Hn|]. split; [exact Hf|].
    apply collections_rest. exact Hrest.
  - unfold Ticker._scroll_step. destruct (Ticker._marquee tk) eqn:Hm; cbn [negb].
    + split; [|reflexivity]. split; [exact Hwf|]. split; [exact Hshown|].
      split; [exact Hnd|]. split; [exact Hfiled|].
      unfold ticker_rest. cbn [Ticker._layout_track Ticker._marquee]. congruence.
    + split; [|reflexivity]. split; [exact Hwf|]. split; [exact Hshown|].
      split; [exact Hnd|]. split; [exact Hfiled|exact Hrest].
  - split; [|reflexivity]. split; [exact Hwf|]. split; [exact Hshown|].
    split; [exact Hnd|]. split; [exact Hfiled|].
    unfold ticker_rest, Ticker._relayout in *.
    cbn [Ticker._update_marquee_state Ticker._layout_track
         Ticker._marquee Ticker._offset Ticker.order Ticker.hbox Ticker.container_width].
    intros ->. cbn [negb andb]. destruct (Ticker._marquee tk); [reflexivity|auto].
  - split; [|reflexivity]. split; [exact Hwf|]. split; [exact Hshown|].
    split; [exact Hnd|]. split; [exact Hfiled|exact Hrest].
Qed.

(** X14 ([MonitorTicker]): whatever sequence of fills and updates with
    items of distinct keys, scroll steps, relayouts and click-through
    changes a new ticker goes through, every widget stays filed under its
    own key, every key with a widget is in [order], the keys of [order]
    are distinct, the layout shows the widgets of [order] in that order,
    each of them the widget filed under its key, the scroll offset is 0
    whenever the ticker is static, and the ticker stays on its monitor. *)
Theorem ticker_invariants (idx w : Z) (ops : list ticker_op) :
  Forall distinct_keys ops ->
  let tk := foldl (apply_op sh) (Ticker.new_ticker idx w) ops in
  ticker_wf tk /\ ticker_shown tk /\ NoDup (Ticker.order tk) /\ ticker_filed tk
  /\ ticker_rest tk /\ Ticker.monitor_index tk = idx.
Proof.
  cbv zeta. induction ops as [|op ops IH] using rev_ind; intros Hd.
  - cbn [foldl]. split; [split|split; [|split; [|split; [|split]]]]; try reflexivity.
    + intros k w'. cbn [Ticker.new_ticker Ticker.items]. rewrite lookup_empty. discriminate.
    + intros k. cbn [Ticker.new_ticker Ticker.items]. rewrite lookup_empty.
      intros [? H]. discriminate.
    + apply NoDup_nil_2.
    + intros w' H. inversion H.
    + intros _. reflexivity.
  - rewrite foldl_app. cbn [foldl]. apply Forall_app in Hd as [Hd Hop].
    apply (proj1 (Forall_singleton _ _)) in Hop.
    destruct (IH Hd) as (Hwf & Hshown & Hnd & Hfiled & Hrest & Hidx).
    destruct (apply_op_invariant (foldl (apply_op sh) (Ticker.new_ticker idx w) ops) op Hop)
      as ((Hwf' & Hshown' & Hnd' & Hfiled' & Hrest') & Hidx'); [auto 6|].
    split; [exact Hwf'|]. split; [exact Hshown'|]. split; [exact Hnd'|].
    split; [exact Hfiled'|]. split; [exact Hrest'|]. congruence.
Qed.

(** ** Scrolling *)

Lemma scroll_steps (tk : Ticker.MonitorTicker) (n : nat) :
  Ticker._marquee tk = true ->
  let tw := Z.max (sh (Ticker.hbox tk)) 1 in
  let t' := Nat.iter (S n) (Ticker._scroll_step sh) tk in
  Ticker._marquee t' = true
  /\ Ticker.hbox t' = Ticker.hbox tk
  /\ Ticker._offset t' = Ticker._offset tk + Z.of_nat (S n)
  /\ Ticker.track_width t' = tw
  /\ Ticker.track_x t' = - ((Ticker._offset tk + Z.of_nat (S n)) mod tw).
Proof.
  intros Hm. cbv zeta. induction n as [|n IH].
  - change (Nat.iter 1 (Ticker._scroll_step sh) tk) with (Ticker._scroll_step sh tk).
    unfold Ticker._scroll_step. rewrite Hm. cbn [negb].
    cbn [Ticker._layout_track Ticker._marquee Ticker.hbox Ticker._offset
         Ticker.track_width Ticker.track_x].
    rewrite ?Hm. cbn [negb]. repeat split; reflexivity.
  - destruct IH as (Hm' & Hb & Ho & Hw & Hx).
    change (Nat.iter (S (S n)) (Ticker._scroll_step sh) tk)
      with (Ticker._scroll_step sh (Nat.iter (S n) (Ticker._scroll_step sh) tk)).
    set (t1 := Nat.iter (S n) (Ticker._scroll_step sh) tk) in *.
    unfold Ticker._scroll_step. rewrite Hm'. cbn [negb].
    cbn [Ticker._layout_track Ticker._marquee Ticker.hbox Ticker._offset
         Ticker.track_width Ticker.track_x].
    rewrite ?Hm', ?Hb, ?Ho. cbn [negb].
    replace (Ticker._offset tk + Z.of_nat (S n) + 1)
      with (Ticker._offset tk + Z.of_nat (S (S n))) by lia.
    repeat split; reflexivity.
Qed.

(** X15 ([MonitorTicker._scroll_step], [_layout_track]): a static ticker
    ignores the scroll timer.  A scrolling ticker moves by one pixel per
    step; the track stays within one track width to the left of the
    container's edge, and it is back at the same position after as many
    steps as the track is wide. *)
Theorem scroll_step_wraps (tk : Ticker.MonitorTicker) :
  (Ticker._marquee tk = false -> Ticker._scroll_step sh tk = tk)
  /\ (Ticker._marquee tk = true ->
      forall n : nat,
        let tw := Z.max (sh (Ticker.hbox tk)) 1 in
        let t' := Nat.iter (S n) (Ticker._scroll_step sh) tk in
        Ticker._offset t' = Ticker._offset tk + Z.of_nat (S n)
        /\ - tw < Ticker.track_x t' <= 0
        /\ Ticker.track_x (Nat.iter (S n + Z.to_nat tw) (Ticker._scroll_step sh) tk)
           = Ticker.track_x t').
Proof.
  split.
  - intros Hm. unfold Ticker._scroll_step. rewrite Hm. reflexivity.
  - intros Hm n. cbv zeta.
    destruct (scroll_steps tk n Hm) as (_ & _ & Ho & _ & Hx).
    destruct (scroll_steps tk (n + Z.to_nat (Z.max (sh (Ticker.hbox tk)) 1)) Hm)
      as (_ & _ & _ & _ & Hx').
    assert (0 < Z.max (sh (Ticker.hbox tk)) 1) as Hpos by lia.
    split; [exact Ho|]. split.
    + rewrite Hx.
      pose proof (Z.mod_pos_bound (Ticker._offset tk + Z.of_nat (S n))
                    (Z.max (sh (Ticker.hbox tk)) 1) Hpos). lia.
    + change (S n + Z.to_nat (Z.max (sh (Ticker.hbox tk)) 1))%nat
        with (S (n + Z.to_nat (Z.max (sh (Ticker.hbox tk)) 1))).
      rewrite Hx', Hx. f_equal.
      replace (Ticker._offset tk
               + Z.of_nat (S (n + Z.to_nat (Z.max (sh (Ticker.hbox tk)) 1))))
        with (Ticker._offset tk + Z.of_nat (S n)
              + 1 * Z.max (sh (Ticker.hbox tk)) 1) by lia.
      apply Z.mod_add. lia.
Qed.

End TickerItems.

Lemma update_items_reconciles_witness :
  Ticker.hbox
    (Ticker.update_items example_sizeHint
       (Ticker.set_initial_items example_sizeHint (Ticker.new_ticker 0 1920)
          (example_items 3))
       (rev (example_items 2)))
  = [Ticker.mkWidget "B" "BTC $1.000" false; Ticker.mkWidget "A" "BTC $1.000" false].
Proof.
  destruct (update_items_reconciles example_sizeHint
              (Ticker.set_initial_items example_sizeHint (Ticker.new_ticker 0 1920)
                 (example_items 3))
              (rev (example_items 2))) as (_ & H & _).
  - rewrite (set_initial_items_unfold example_sizeHint). apply collections_wf.
  - apply (bool_decide_eq_true_1 _). vm_compute. reflexivity.
  - rewrite H. vm_compute. reflexivity.
Defined.

Lemma scroll_step_wraps_witness :
  Ticker._offset
    (Nat.iter 3 (Ticker._scroll_step example_sizeHint)
       (Ticker.set_initial_items example_sizeHint (Ticker.new_ticker 0 1920)
          (example_items 12)))
  = 3.
Proof.
  destruct (scroll_step_wraps example_sizeHint
              (Ticker.set_initial_items example_sizeHint (Ticker.new_ticker 0 1920)
                 (example_items 12))) as [_ H].
  destruct (H ltac:(vm_compute; reflexivity) 2%nat) as (Ho & _).
  rewrite Ho. vm_compute. reflexivity.
Defined.

Lemma ticker_invariants_witness :
  let tk := foldl (apply_op example_sizeHint) (Ticker.new_ticker 0 1920)
              [OpInitial (example_items 12); OpScroll; OpClick true;
               OpUpdate (rev (example_items 3)); OpRelayout] in
  Ticker._marquee tk = false /\ Ticker._offset tk = 0
  /\ Ticker.w_key <$> Ticker.hbox tk = ["C"; "B"; "A"].
Proof.
  cbv zeta.
  destruct (ticker_invariants example_sizeHint 0 1920
              [OpInitial (example_items 12); OpScroll; OpClick true;
               OpUpdate (rev (example_items 3)); OpRelayout])
    as (_ & Hshown & _ & _ & Hrest & _).
  - repeat constructor; apply (bool_decide_eq_true_1 _); vm_compute; reflexivity.
  - assert (Ticker._marquee
              (foldl (apply_op example_sizeHint) (Ticker.new_ticker 0 1920)
                 [OpInitial (example_items 12); OpScroll; OpClick true;
                  OpUpdate (rev (example_items 3)); OpRelayout]) = false) as Hm
        by (vm_compute; reflexivity).
    split; [exact Hm|]. split; [exact (Hrest Hm)|].
    rewrite Hshown. vm_compute. reflexivity.
Defined.

(* ===================================================================== *)
(** * Batches, tickers at start, and what the loop leaves alone *)
(* ===================================================================== *)
Section BatchFacts.
Import Py Addr Dict Config Engine.

Lemma dict_get_Some_in {K V} `{EqDecision K} (k : K) (v : V) (d : list (K * V)) :
  dict_get k d = Some v -> (k, v) ∈ d.
Proof.
  induction d as [|[k0 v0] d IH]; cbn [dict_get]; [discriminate|].
  destruct (decide (k = k0)) as [->|Hne].
  - intros [= ->]. apply list_elem_of_here.
  - intros H. apply list_elem_of_further. apply IH. exact H.
Qed.

Lemma dict_append_filled {K V} `{EqDecision K} (k : K) (v : V) (d : list (K * list V)) :
  (forall e, e ∈ d -> e.2 <> []) -> forall e, e ∈ dict_append k v d -> e.2 <> [].
Proof.
  induction d as [|[k0 l] d IH]; intros Hd e; cbn [dict_append].
  - intros ->%list_elem_of_singleton. discriminate.
  - destruct (decide (k = k0)) as [->|Hne].
    + intros [->|Hin]%elem_of_cons.
      * cbn [snd]. destruct l; discriminate.
      * apply Hd. apply list_elem_of_further. exact Hin.
    + intros [->|Hin]%elem_of_cons.
      * apply (Hd (k0, l)). apply list_elem_of_here.
      * apply IH; [|exact Hin]. intros e' He'. apply Hd.
        apply list_elem_of_further. exact He'.
Qed.

Lemma by_net_lookup_from (tokens : list Token) (acc : list (string * list string))
    (net : string) :
  default [] (dict_get net
    (foldl (fun d t =>
              dict_append (network_id t)
                (normalize_address (network_id t) (address t)) d) acc tokens))
  = default [] (dict_get net acc)
    ++ ((fun t => normalize_address net (address t))
          <$> filter (fun t => network_id t = net) tokens).
Proof.
  revert acc. induction tokens as [|t tokens IH]; intros acc; cbn [foldl].
  - rewrite app_nil_r. reflexivity.
  - rewrite IH, dict_get_append, filter_cons.
    destruct (decide (net = network_id t)) as [->|Hne].
    + rewrite !decide_True by reflexivity. cbn [default from_option id fmap list_fmap].
      rewrite <- app_assoc. reflexivity.
    + rewrite !decide_False by congruence. reflexivity.
Qed.

Lemma by_net_lookup (tokens : list Token) (net : string) :
  default [] (dict_get net (by_net tokens))
  = (fun t => normalize_address net (address t))
      <$> filter (fun t => network_id t = net) tokens.
Proof. exact (by_net_lookup_from tokens [] net). Qed.

Lemma by_net_filled (tokens : list Token) (e : string * list string) :
  e ∈ by_net tokens -> e.2 <> [].
Proof.
  revert e. unfold by_net.
  apply (foldl_preserves (fun d : list (string * list string) => forall e, e ∈ d -> e.2 <> [])).
  - intros e H. inversion H.
  - intros d t Hd. apply dict_append_filled. exact Hd.
Qed.

Lemma by_net_entry (tokens : list Token) (net : string) (addrs : list string) :
  (net, addrs) ∈ by_net tokens ->
  addrs = (fun t => normalize_address net (address t))
            <$> filter (fun t => network_id t = net) tokens.
Proof.
  intros Hin. rewrite <- by_net_lookup.
  rewrite (dict_get_elem _ _ _ (by_net_NoDup tokens) Hin). reflexivity.
Qed.

(** X16 (the grouping at the top of a profile's fetch in [refresh_loop]):
    the tokens of a profile are requested in one batch per network: no
    network has two batches, no batch is empty, the batch of a network
    holds the normalized addresses of exactly the tokens of that network,
    in the order of the token list, and normalizing them once more for
    the comma-joined list changes nothing. *)
Theorem by_net_groups (tokens : list Config.Token) :
  NoDup (Engine.by_net tokens).*1
  /\ (forall net,
        default [] (Dict.dict_get net (Engine.by_net tokens))
        = (fun t => Addr.normalize_address net (Config.address t))
            <$> filter (fun t => Config.network_id t = net) tokens)
  /\ (forall net addrs,
        (net, addrs) ∈ Engine.by_net tokens ->
        addrs <> []
        /\ addrs = (fun t => Addr.normalize_address net (Config.address t))
                     <$> filter (fun t => Config.network_id t = net) tokens
        /\ Engine.csv_of net addrs = Py.join "," addrs)
  /\ (forall t, t ∈ tokens ->
        exists addrs,
          (Config.network_id t, addrs) ∈ Engine.by_net tokens
          /\ Addr.normalize_address (Config.network_id t) (Config.address t) ∈ addrs).
Proof.
  split; [apply by_net_NoDup|]. split; [apply by_net_lookup|]. split.
  - intros net addrs Hin. split; [exact (by_net_filled tokens _ Hin)|].
    pose proof (by_net_entry tokens net addrs Hin) as Heq. split; [exact Heq|].
    unfold csv_of. f_equal. rewrite Heq, <- list_fmap_compose.
    apply list_fmap_ext. intros i t _. cbn. apply normalize_address_idem.
  - intros t Ht.
    assert (normalize_address (network_id t) (address t)
            ∈ default [] (dict_get (network_id t) (by_net tokens))) as Hin.
    { rewrite by_net_lookup. apply list_elem_of_fmap. exists t. split; [reflexivity|].
      apply list_elem_of_filter. split; [reflexivity|exact Ht]. }
    destruct (dict_get (network_id t) (by_net tokens)) as [addrs|] eqn:Hg.
    + exists addrs. split; [apply dict_get_Some_in; exact Hg|exact Hin].
    + inversion Hin.
Qed.

End BatchFacts.

Section StartFacts.
Import Py Addr Dict Config Engine.

Lemma mon_to_profiles_filled (s : State) (e : Z * list string) :
  e ∈ mon_to_profiles s -> e.2 <> [].
Proof.
  revert e. unfold mon_to_profiles.
  apply (foldl_preserves (fun d : list (Z * list string) => forall e, e ∈ d -> e.2 <> [])).
  - intros e H. inversion H.
  - intros d p Hd. destruct (monitor_index (ps_for s p)); [|exact Hd].
    destruct (nonempty (tokens_for s p)); [|exact Hd].
    apply dict_append_filled. exact Hd.
Qed.

Lemma mon_to_profiles_keys (s : State) (d : Z) :
  d ∈ (mon_to_profiles s).*1
  <-> exists p, p ∈ profile_names s /\ assigned_to s d p = true.
Proof.
  split.
  - intros ([d' profiles] & -> & Hin)%list_elem_of_fmap. cbn [fst].
    pose proof (mon_to_profiles_filled s _ Hin) as Hne. cbn [snd] in Hne.
    pose proof (mon_to_profiles_lookup s d') as Hl.
    rewrite (dict_get_elem _ _ _ (mon_to_profiles_NoDup s) Hin) in Hl. cbn [default] in Hl.
    destruct profiles as [|p profiles]; [congruence|].
    assert (p ∈ List.filter (assigned_to s d') (profile_names s)) as Hp.
    { rewrite <- Hl. apply list_elem_of_here. }
    apply list_elem_of_In, filter_In in Hp as [Hp Ha].
    exists p. split; [apply list_elem_of_In; exact Hp|exact Ha].
  - intros (p & Hp & Ha).
    assert (p ∈ default [] (dict_get d (mon_to_profiles s))) as Hin.
    { rewrite mon_to_profiles_lookup. apply list_elem_of_In, filter_In.
      split; [apply list_elem_of_In; exact Hp|exact Ha]. }
    destruct (dict_get d (mon_to_profiles s)) as [profiles|] eqn:Hg; [|inversion Hin].
    apply list_elem_of_fmap. exists (d, profiles). split; [reflexivity|].
    apply dict_get_Some_in. exact Hg.
Qed.

Lemma build_monitor_items_nonempty (c : Controller) (d : Z) (use_cache : bool) (p : string) :
  p ∈ profile_names (state c) -> assigned_to (state c) d p = true ->
  _build_monitor_items c d use_cache <> [].
Proof.
  intros Hp Ha. apply assigned_to_spec in Ha as [Hm Ht].
  unfold _build_monitor_items. cbv zeta.
  induction (profile_names (state c)) as [|q names IH]; [inversion Hp|].
  cbn [flat_map]. apply elem_of_cons in Hp as [<-|Hp].
  - rewrite bool_decide_eq_true_2 by exact Hm.
    destruct (tokens_for (state c) p) as [|t toks]; [congruence|]. discriminate.
  - intros Heq. apply app_eq_nil in Heq as [_ Heq]. exact (IH Hp Heq).
Qed.

(** X17 ([Controller.start_all]): starting creates one ticker per monitor
    that some profile with at least one token is assigned to, and no
    other; each ticker sits on its monitor and shows the composed items of
    that monitor, one widget per item in the composed order, and is never
    empty.  The configuration and the result cache are left as they
    were. *)
Theorem start_all_tickers (w : Engine.World) (c : Engine.Controller) :
  let s := Engine.state c in
  let c' := Engine.start_all w c in
  Engine.state c' = s
  /\ Engine.last_results c' = Engine.last_results c
  /\ (Engine.monitor_tickers c').*1 = (Engine.mon_to_profiles s).*1
  /\ NoDup (Engine.monitor_tickers c').*1
  /\ (forall d, d ∈ (Engine.monitor_tickers c').*1
                <-> exists p, p ∈ Config.profile_names s /\ assigned_to s d p = true)
  /\ (forall d tk, (d, tk) ∈ Engine.monitor_tickers c' ->
        Ticker.monitor_index tk = d
        /\ Ticker.order tk = Ticker.key <$> Engine._build_monitor_items c d true
        /\ Ticker.hbox tk = Ticker.new_widget <$> Engine._build_monitor_items c d true
        /\ Ticker.order tk <> []).
Proof.
  cbv zeta.
  assert ((monitor_tickers (start_all w c)).*1 = (mon_to_profiles (state c)).*1) as Hkeys.
  { unfold start_all. cbn [monitor_tickers]. rewrite <- list_fmap_compose.
    apply list_fmap_ext. intros i [d profiles] _. reflexivity. }
  split; [reflexivity|]. split; [reflexivity|]. split; [exact Hkeys|].
  split; [rewrite Hkeys; apply mon_to_profiles_NoDup|].
  split; [intros d; rewrite Hkeys; apply mon_to_profiles_keys|].
  intros d tk Hin.
  assert (d ∈ (monitor_tickers (start_all w c)).*1) as Hd.
  { apply list_elem_of_fmap. exists (d, tk). split; [reflexivity|exact Hin]. }
  rewrite Hkeys in Hd. apply mon_to_profiles_keys in Hd as (p & Hp & Ha).
  unfold start_all in Hin. cbn [monitor_tickers] in Hin.
  apply list_elem_of_fmap in Hin as ([d' profiles] & Heq & _).
  injection Heq as -> ->.
  rewrite set_initial_items_unfold.
  cbn [Ticker._update_marquee_state Ticker._layout_track Ticker.with_items
       Ticker.set_click_through Ticker.new_ticker
       Ticker.monitor_index Ticker.width Ticker.order Ticker.hbox].
  repeat split.
  pose proof (build_monitor_items_nonempty c d' true p Hp Ha) as Hne.
  destruct (_build_monitor_items c d' true); [congruence|discriminate].
Qed.

End StartFacts.

Section SteadyFacts.
Import Py Addr Dict Config Engine.

Lemma names_kept_refl s : names_kept s s.
Proof. split; auto. Qed.

Lemma names_kept_trans s1 s2 s3 : names_kept s1 s2 -> names_kept s2 s3 -> names_kept s1 s3.
Proof. intros [H1 H2] [H3 H4]. split; auto. Qed.

Lemma steady_refl c : steady c c.
Proof.
  split; [apply same_config_refl|]. split; [apply names_kept_refl|].
  split; reflexivity.
Qed.

Lemma steady_trans c1 c2 c3 : steady c1 c2 -> steady c2 c3 -> steady c1 c3.
Proof.
  intros (Hc & Hn & Hk & Ht) (Hc' & Hn' & Hk' & Ht').
  split; [eapply same_config_trans; eauto|].
  split; [eapply names_kept_trans; eauto|].
  split; [congruence|]. etransitivity; eauto.
Qed.

Lemma steady_emit ev : keeps steady (emit ev).
Proof.
  intros c c' r [= <- _]. split; [apply same_config_refl|].
  split; [apply names_kept_refl|]. split; [reflexivity|].
  cbn [trace]. apply prefix_app_r. reflexivity.
Qed.

Lemma steady_sleep ev b : keeps steady (sleep ev b).
Proof.
  unfold sleep. apply (keeps_bind steady steady_trans); [apply steady_emit|].
  intros _. destruct b; [apply keeps_raise|apply keeps_ret]; apply steady_refl.
Qed.

Lemma steady_absorb_token net ps pools acc tok :
  keeps steady (absorb_token net ps pools acc tok).
Proof.
  intros c c' r. unfold absorb_token. destruct (parse_token net pools tok) as [k v].
  unfold bind, get_state, set_state, ret. intros [= <- _].
  split; [repeat split|]. split; [|split; reflexivity].
  split; intros k'; cbn [state token_names token_logos].
  - destruct (tr_name tok) as [n|]; [|auto]. destruct (truthy n); [|auto].
    intros H. apply lookup_insert_is_Some. destruct (decide (k = k')); auto.
  - destruct (tr_image_url tok) as [u|]; [|auto].
    destruct (show_logo ps && truthy u); [|auto].
    intros H. apply lookup_insert_is_Some. destruct (decide (k = k')); auto.
Qed.

Lemma steady_fetch_batch w pname ps acc entry :
  keeps steady (fetch_batch w pname ps acc entry).
Proof.
  destruct entry as [net addrs]. unfold fetch_batch.
  apply (keeps_bind steady steady_trans); [apply steady_emit|]. intros _.
  destruct (http_get w pname net (csv_of net addrs)) as [| |code body].
  - apply keeps_raise, steady_refl.
  - apply (keeps_bind steady steady_trans); [apply steady_emit|].
    intros _. apply keeps_ret, steady_refl.
  - destruct (code =? 200).
    + destruct body as [data included| |].
      * apply (keeps_foldM steady steady_refl steady_trans).
        intros a b. apply steady_absorb_token.
      * apply keeps_raise, steady_refl.
      * apply keeps_raise, steady_refl.
    + apply (keeps_bind steady steady_trans); [apply steady_emit|].
      intros _. apply keeps_ret, steady_refl.
Qed.

Lemma steady_fetch_profile w pname : keeps steady (fetch_profile w pname).
Proof.
  unfold fetch_profile.
  apply (keeps_bind steady steady_trans); [apply keeps_get_state, steady_refl|].
  intros s. destruct (monitor_index (ps_for s pname)); [|apply keeps_ret, steady_refl].
  destruct (nonempty (tokens_for s pname)); [|apply keeps_ret, steady_refl].
  apply (keeps_bind steady steady_trans).
  { apply (keeps_foldM steady steady_refl steady_trans).
    intros a b. apply steady_fetch_batch. }
  intros all. apply (keeps_bind steady steady_trans).
  { intros c c' r [= <- _]. split; [apply same_config_refl|].
    split; [apply names_kept_refl|]. split; reflexivity. }
  intros _. apply (keeps_bind steady steady_trans); [apply keeps_get_state, steady_refl|].
  intros s'. destruct (bool_decide _); [apply steady_emit|apply keeps_ret, steady_refl].
Qed.

Lemma steady_refresh_tickers w : keeps steady (refresh_tickers w).
Proof.
  intros c c' r [= <- _]. split; [apply same_config_refl|].
  split; [apply names_kept_refl|]. split; [|reflexivity].
  cbn [monitor_tickers]. rewrite <- list_fmap_compose.
  apply list_fmap_ext. intros i [d tk] _. reflexivity.
Qed.

Lemma steady_round w : keeps steady (round w).
Proof.
  unfold round.
  apply (keeps_bind steady steady_trans); [apply keeps_get_state, steady_refl|].
  intros s. destruct (mon_to_profiles s) as [|e mtp].
  - apply (keeps_bind steady steady_trans); [apply steady_emit|].
    intros _. apply steady_sleep.
  - apply (keeps_bind steady steady_trans); [apply steady_emit|]. intros _.
    apply (keeps_bind steady steady_trans).
    { apply (keeps_for_each steady steady_refl steady_trans).
      intros p. apply steady_fetch_profile. }
    intros _. apply (keeps_bind steady steady_trans); [apply steady_refresh_tickers|].
    intros _. apply (keeps_bind steady steady_trans).
    { intros c c' r H. eapply steady_emit. exact H. }
    intros _. apply (keeps_bind steady steady_trans).
    { intros c c' r H. eapply steady_emit. exact H. }
    intros _. apply steady_sleep.
Qed.

Lemma steady_ensure_session c : steady c (_ensure_session c).
Proof.
  unfold _ensure_session. destruct (session c) as [[|]|]; try apply steady_refl.
  - split; [apply same_config_refl|]. split; [apply names_kept_refl|].
    split; [reflexivity|]. cbn [trace]. apply prefix_app_r. reflexivity.
  - split; [apply same_config_refl|]. split; [apply names_kept_refl|].
    split; [reflexivity|]. cbn [trace]. apply prefix_app_r. reflexivity.
Qed.

Lemma steady_iteration w c : steady c (iteration w c).1.
Proof.
  unfold iteration. destruct (round w c) as [c1 [[]|e]] eqn:E;
    apply steady_round in E; [exact E|].
  destruct (is_Exception e); [|exact E].
  destruct ((emit (LogException e) ;; sleep (Sleep 2) (backoff_cancelled w)) c1)
    as [c2 [[]|e']] eqn:E2.
  - cbn [fst]. eapply steady_trans; [exact E|]. eapply steady_trans; [|apply steady_ensure_session].
    revert E2. apply (keeps_bind steady steady_trans); [apply steady_emit|].
    intros _. apply steady_sleep.
  - cbn [fst]. eapply steady_trans; [exact E|].
    revert E2. apply (keeps_bind steady steady_trans); [apply steady_emit|].
    intros _. apply steady_sleep.
Qed.

Lemma steady_passes ws n i c : steady c (passes_from n ws i c).1.
Proof.
  revert i c. induction n as [|n IH]; intros i c; cbn [passes_from]; [apply steady_refl|].
  pose proof (steady_iteration (ws i) c) as H.
  destruct (iteration (ws i) c) as [c' [|e]]; cbn [fst] in *; [|exact H].
  eapply steady_trans; [exact H|apply IH].
Qed.

(** X18 ([Controller.refresh_loop]): however many passes the loop makes
    and however they end, it only reads the configuration (profiles, their
    settings, the active profile), never forgets a cached token name or
    logo address, neither adds nor removes a ticker, and only appends to
    what was logged. *)
Theorem refresh_loop_reads_config (n : nat) (ws : nat -> Engine.World)
    (c : Engine.Controller) :
  let c' := (Engine.refresh_loop n ws c).1 in
  Config.profiles (Engine.state c') = Config.profiles (Engine.state c)
  /\ Config.profile_settings (Engine.state c') = Config.profile_settings (Engine.state c)
  /\ Config.settings_refresh_sec (Engine.state c')
     = Config.settings_refresh_sec (Engine.state c)
  /\ Config.active_profile (Engine.state c') = Config.active_profile (Engine.state c)
  /\ (forall k, is_Some (Config.token_names (Engine.state c) !! k) ->
                is_Some (Config.token_names (Engine.state c') !! k))
  /\ (forall k, is_Some (Config.token_logos (Engine.state c) !! k) ->
                is_Some (Config.token_logos (Engine.state c') !! k))
  /\ (Engine.monitor_tickers c').*1 = (Engine.monitor_tickers c).*1
  /\ Engine.trace c `prefix_of` Engine.trace c'.
Proof.
  cbv zeta. unfold refresh_loop.
  pose proof (steady_trans _ _ _ (steady_ensure_session c)
                (steady_passes ws n 0%nat (_ensure_session c)))
    as ((H1 & H2 & H3 & H4) & (H5 & H6) & H7 & H8).
  repeat split; assumption.
Qed.

End SteadyFacts.

(* ===================================================================== *)
(** * Adding a token; the keys of the composed items *)
(* ===================================================================== *)
Section TokenFacts.
Import Py Addr Dict Config Engine.

Lemma dict_get_fmap_at {V} (f : V -> V) (prof p : string) (d : list (string * V)) :
  dict_get p ((fun e : string * V => if String.eqb e.1 prof then (e.1, f e.2) else e) <$> d)
  = if decide (p = prof) then f <$> dict_get p d else dict_get p d.
Proof.
  induction d as [|[k v] d IH].
  - cbn. destruct (decide (p = prof)); reflexivity.
  - rewrite fmap_cons. cbn [fst snd].
    destruct (String.eqb k prof) eqn:Hk.
    + apply String.eqb_eq in Hk. subst k. cbn [dict_get]. rewrite IH.
      destruct (decide (p = prof)) as [->|Hne]; reflexivity.
    + apply String.eqb_neq in Hk. cbn [dict_get]. rewrite IH.
      destruct (decide (p = k)) as [->|Hne]; [|reflexivity].
      rewrite decide_False by exact Hk. reflexivity.
Qed.

Lemma fmap_at_names {V} (f : V -> V) (prof : string) (d : list (string * V)) :
  ((fun e : string * V => if String.eqb e.1 prof then (e.1, f e.2) else e) <$> d).*1 = d.*1.
Proof.
  rewrite <- list_fmap_compose. apply list_fmap_ext. intros i [k v] _. cbn.
  destruct (String.eqb k prof); reflexivity.
Qed.

(** X19 ([Dashboard.add_token]): an address that is empty once normalized
    adds nothing.  Otherwise the token is appended, with its normalized
    address, to the end of the current profile's list; the other profiles,
    the profile order, the active profile and the settings stay as they
    were; the stored address is already in the form [tokens_for] gives it;
    and a name already cached is never replaced by the lookup. *)
Theorem add_token_appends (prof net address custom : string)
    (looked_up : option string) (s : Config.State) (toks : list Config.Token) :
  Dict.dict_get prof (Config.profiles s) = Some toks ->
  let addr := Addr.normalize_address net address in
  let s' := Profiles.add_token prof net address custom looked_up s in
  (addr = "" -> s' = s)
  /\ (addr <> "" ->
      Dict.dict_get prof (Config.profiles s') = Some (toks ++ [Config.mkToken net addr custom])
      /\ (forall p, p <> prof ->
            Dict.dict_get p (Config.profiles s') = Dict.dict_get p (Config.profiles s))
      /\ Config.profile_names s' = Config.profile_names s
      /\ Config.tokens_for s' prof
         = Config.tokens_for s prof ++ [Config.mkToken net addr custom]
      /\ Config.active_profile s' = Config.active_profile s
      /\ Config.profile_settings s' = Config.profile_settings s
      /\ (forall k n, Config.token_names s !! k = Some n ->
                      Config.token_names s' !! k = Some n)).
Proof.
  intros Hget. cbv zeta. unfold Profiles.add_token. split.
  - intros ->. reflexivity.
  - intros Hne. apply truthy_spec in Hne. rewrite Hne. cbn [negb]. rewrite Hget.
    cbn [profiles active_profile profile_settings token_names].
    assert (dict_get prof
              ((fun e : string * list Token =>
                  if String.eqb e.1 prof
                  then (e.1, e.2 ++ [mkToken net (normalize_address net address) custom])
                  else e) <$> profiles s)
            = Some (toks ++ [mkToken net (normalize_address net address) custom])) as Hnew.
    { rewrite (dict_get_fmap_at
                 (fun l => l ++ [mkToken net (normalize_address net address) custom])).
      rewrite decide_True by reflexivity. rewrite Hget. reflexivity. }
    split; [exact Hnew|]. split.
    { intros p Hp.
      rewrite (dict_get_fmap_at
                 (fun l => l ++ [mkToken net (normalize_address net address) custom])).
      rewrite decide_False by exact Hp. reflexivity. }
    split.
    { unfold profile_names. cbn [profiles].
      apply (fmap_at_names
               (fun l => l ++ [mkToken net (normalize_address net address) custom])). }
    split.
    { unfold tokens_for. cbn [profiles]. rewrite Hnew, Hget. cbn [default from_option id].
      rewrite fmap_app. cbn [fmap list_fmap]. unfold normalize_token at 2.
      cbn [network_id Config.address custom_name].
      rewrite normalize_address_idem. reflexivity. }
    split; [reflexivity|]. split; [reflexivity|].
    intros k n Hk.
    destruct (token_names s !! key_for net (normalize_address net address)) as [n0|] eqn:Hold;
      [exact Hk|].
    destruct looked_up as [name|]; [|exact Hk].
    destruct (truthy name); [|exact Hk].
    rewrite lookup_insert_ne; [exact Hk|]. intros <-. congruence.
Qed.

Lemma add_token_appends_witness :
  Config.tokens_for
    (Profiles.add_token "High Risk Assets" "eth"
       "0xA0B86991C6218B36C1D19D4A2E9EB0CE3606EB48" "USDC" None two_profiles_state)
    "High Risk Assets"
  = [Config.mkToken "eth" "0xc02aaa39b223fe8d0a0e5c4f27ead9083c756cc2" "";
     Config.mkToken "eth" "0xa0b86991c6218b36c1d19d4a2e9eb0ce3606eb48" "USDC"].
Proof.
  destruct (add_token_appends "High Risk Assets" "eth"
              "0xA0B86991C6218B36C1D19D4A2E9EB0CE3606EB48" "USDC" None two_profiles_state
              [Config.mkToken "eth" "0xc02aaa39b223fe8d0a0e5c4f27ead9083c756cc2" ""])
    as [_ H]; [vm_compute; reflexivity|].
  destruct H as (_ & _ & _ & H & _); [vm_compute; discriminate|].
  rewrite H. vm_compute. reflexivity.
Defined.

Lemma composed_keys_of (c : Controller) (d : Z) (use_cache : bool) :
  Ticker.key <$> _build_monitor_items c d use_cache
  = flat_map
      (fun p => (fun t => p +:+ "|" +:+ key_for (network_id t) (Config.address t))
                  <$> tokens_for (state c) p)
      (profiles_on (state c) d).
Proof.
  unfold _build_monitor_items, profiles_on. cbv zeta.
  induction (profile_names (state c)) as [|p names IH]; [reflexivity|].
  cbn [flat_map]. rewrite fmap_app, IH, filter_cons.
  destruct (decide (monitor_index (ps_for (state c) p) = Some d)) as [Hm|Hm].
  - rewrite bool_decide_eq_true_2 by exact Hm. cbn [flat_map]. f_equal.
    rewrite <- list_fmap_compose. apply list_fmap_ext. intros i t _. reflexivity.
  - rewrite bool_decide_eq_false_2 by exact Hm. reflexivity.
Qed.

(** X20 ([Controller._build_monitor_items]): the keys of the composed
    items of a monitor, and their order, are fixed by the configuration
    alone: one key [profile|network:address] per token of every profile
    that targets the monitor, profiles in declaration order and tokens in
    list order.  New prices, names or the use of the cache change the
    texts, never which items there are. *)
Theorem composed_keys (c c' : Engine.Controller) (d : Z) (use_cache use_cache' : bool) :
  same_config (Engine.state c) (Engine.state c') ->
  Ticker.key <$> Engine._build_monitor_items c d use_cache
  = flat_map
      (fun p => (fun t => p +:+ "|"
                          +:+ Addr.key_for (Config.network_id t) (Config.address t))
                  <$> Config.tokens_for (Engine.state c) p)
      (Engine.profiles_on (Engine.state c) d)
  /\ Ticker.key <$> Engine._build_monitor_items c' d use_cache'
     = Ticker.key <$> Engine._build_monitor_items c d use_cache.
Proof.
  intros Hsame. split; [apply composed_keys_of|].
  rewrite !composed_keys_of. unfold profiles_on.
  rewrite (same_config_profile_names _ _ Hsame).
  induction (profile_names (state c)) as [|p names IH]; [reflexivity|].
  rewrite !filter_cons, (same_config_ps_for _ _ p Hsame).
  destruct (decide (monitor_index (ps_for (state c) p) = Some d)); [|exact IH].
  cbn [flat_map]. rewrite IH, (same_config_tokens_for _ _ p Hsame). reflexivity.
Qed.

Lemma composed_keys_witness :
  Ticker.key <$> Engine._build_monitor_items
                   (cached_controller two_profiles_state) 0 true
  = ["High Risk Assets|eth:0xc02aaa39b223fe8d0a0e5c4f27ead9083c756cc2"].
Proof.
  destruct (composed_keys (fresh_controller two_profiles_state)
              (cached_controller two_profiles_state) 0 false true) as [_ H].
  - repeat split.
  - rewrite H. vm_compute. reflexivity.
Defined.

End TokenFacts.

Lemma by_net_groups_witness :
  Engine.csv_of "eth" ["0xc02aaa39b223fe8d0a0e5c4f27ead9083c756cc2"]
  = "0xc02aaa39b223fe8d0a0e5c4f27ead9083c756cc2".
Proof.
  destruct (by_net_groups one_token) as (_ & _ & H & _).
  destruct (H "eth" ["0xc02aaa39b223fe8d0a0e5c4f27ead9083c756cc2"]) as (_ & _ & Hcsv).
  - vm_compute. apply list_elem_of_here.
  - rewrite Hcsv. reflexivity.
Defined.

Lemma start_all_tickers_witness :
  Ticker.order
    (default (Ticker.new_ticker 0 0)
       (Dict.dict_get 0
          (Engine.monitor_tickers
             (Engine.start_all offline_world (fresh_controller two_profiles_state)))))
  = ["High Risk Assets|eth:0xc02aaa39b223fe8d0a0e5c4f27ead9083c756cc2"].
Proof.
  destruct (start_all_tickers offline_world (fresh_controller two_profiles_state))
    as (_ & _ & _ & _ & _ & H).
  destruct (H 0 (default (Ticker.new_ticker 0 0)
                   (Dict.dict_get 0
                      (Engine.monitor_tickers
                         (Engine.start_all offline_world
                            (fresh_controller two_profiles_state))))))
    as (_ & Horder & _).
  - vm_compute. apply list_elem_of_here.
  - rewrite Horder. vm_compute. reflexivity.
Defined.

Lemma refresh_loop_reads_config_witness :
  is_Some (Config.token_names
             (Engine.state
                (Engine.refresh_loop 2 (fun _ => offline_world)
                   (Engine.mkController
                      (Config.mkState (Config.profiles two_profiles_state)
                         "High Risk Assets"
                         {["eth:0xc02aaa39b223fe8d0a0e5c4f27ead9083c756cc2" := "WETH"]}
                         ∅ (Config.profile_settings two_profiles_state) None)
                      None [] ∅ [])).1)
           !! "eth:0xc02aaa39b223fe8d0a0e5c4f27ead9083c756cc2").
Proof.
  destruct (refresh_loop_reads_config 2 (fun _ => offline_world)
              (Engine.mkController
                 (Config.mkState (Config.profiles two_profiles_state)
                    "High Risk Assets"
                    {["eth:0xc02aaa39b223fe8d0a0e5c4f27ead9083c756cc2" := "WETH"]}
                    ∅ (Config.profile_settings two_profiles_state) None)
                 None [] ∅ []))
    as (_ & _ & _ & _ & H & _).
  apply H. vm_compute. eexists. reflexivity.
Defined.
